(** * tinywgpu: the frame orchestrator, the pipeline cache and the surface context

    A shallow embedding of [Engine], [PipelineManager] and [CanvasContext].

    Conventions of the embedding.
    - The numbers of [CanvasContext] (sizes, the pixel density and their
      product) and the numbers a [Float32Array] stores are IEEE 754
      values, [Double.t]: a finite number, an infinity or [NaN], with the
      rounding of the product to a double and of a stored element to a
      single.  [canvas.width], [canvas.height], [clientWidth],
      [clientHeight] and texture sizes are the integers of the DOM
      interface, [Z]; an assignment to [canvas.width] converts the number
      as the interface does.
    - A JavaScript [number] that holds a time or a priority, a matrix
      entry or the aspect ratio of a camera is a rational [Q]; [===] on
      such numbers is [Qeq_bool] and their arithmetic is exact.  A
      division by zero, which JavaScript answers with [Infinity] or
      [NaN], is 0 as in [Q]; the only divisor that can be zero is the
      height in the aspect ratio of a camera.
    - GPU and DOM objects are handles ([nat]); an object reference is
      truthy, [undefined] and [null] are [None].
    - Calls into the browser and the GPU backend are recorded in an event
      log, in the order the code issues them. *)

From Stdlib Require Import ZArith QArith Qround Qcanon Qpower Lia Sorted
  Permutation.
From Stdlib Require Import Floats.SpecFloat.
From stdpp Require Import base strings list gmap.

Local Open Scope Z_scope.

(** ** JavaScript numbers *)

Definition number := Q.

(** [a || b] on numbers: [0] is the falsy number. *)
Definition or_else (a b : number) : number :=
  if Qeq_bool a 0 then b else a.

(** *** IEEE 754 numbers

    A finite number is the rational it stands for, in lowest terms, so
    that two numbers are the same value exactly when they are equal;
    [-0] is [0], which nothing in this code tells apart.  The result of
    an operation is the representable number nearest to the exact one,
    ties going to the even significand, and an infinity beyond the
    largest. *)

Module Double.

(** [floor (log2 q)] of a positive [q]. *)
Definition ilog2 (q : Q) : Z :=
  let l := Z.log2 (Qnum q) - Z.log2 (Zpos (Qden q)) in
  if Qle_bool (2 ^ l)%Q q then l else l - 1.

(** The integer nearest to [s], the even one of two at the same
    distance. *)
Definition round_half_even (s : Q) : Z :=
  let f := Qfloor s in
  match (s - inject_Z f ?= 1 # 2)%Q with
  | Lt => f
  | Gt => f + 1
  | Eq => if Z.even f then f else f + 1
  end.

(** The nearest multiple of a power of two with [prec] significant bits,
    the power being [2 ^ emin] at least, of a positive [q]. *)
Definition round_pos (prec emin : Z) (q : Q) : Q :=
  let e := Z.max (ilog2 q - (prec - 1)) emin in
  (inject_Z (round_half_even (q / 2 ^ e)) * 2 ^ e)%Q.

Inductive t :=
| NaN
| Infinity (negative : bool)
| Finite (q : Qc).

(** Rounding to the format with [prec] significant bits whose finite
    numbers are below [2 ^ emax]. *)
Definition round (prec emin emax : Z) (q : Q) : t :=
  match (q ?= 0)%Q with
  | Eq => Finite (Q2Qc 0)
  | Gt =>
      let r := round_pos prec emin q in
      if Qle_bool (2 ^ emax)%Q r then Infinity false else Finite (Q2Qc r)
  | Lt =>
      let r := round_pos prec emin (- q) in
      if Qle_bool (2 ^ emax)%Q r then Infinity true else Finite (Q2Qc (- r))
  end.

(** Rounding to a double, and to a single as [Math.fround] and the
    elements of a [Float32Array] do. *)
Definition round64 (q : Q) : t := round 53 (-1074) 1024 q.
Definition fround (q : Q) : t := round 24 (-149) 128 q.

(** An integer the DOM hands out (a [long] or an [unsigned long]) and a
    finite number the platform hands out, as they are. *)
Definition of_Z (z : Z) : t := Finite (Q2Qc (inject_Z z)).
Definition of_number (q : number) : t := Finite (Q2Qc q).

(** [a * b] *)
Definition mul (a b : t) : t :=
  match a, b with
  | NaN, _ | _, NaN => NaN
  | Infinity s, Infinity s' => Infinity (xorb s s')
  | Infinity s, Finite q | Finite q, Infinity s =>
      match (q ?= 0)%Q with
      | Eq => NaN
      | Gt => Infinity s
      | Lt => Infinity (negb s)
      end
  | Finite p, Finite q => round64 (p * q)
  end.

(** [Math.floor] *)
Definition floor (a : t) : t :=
  match a with
  | Finite q => of_Z (Qfloor q)
  | _ => a
  end.

(** [a === b]: [NaN] equals nothing. *)
Definition strict_eq (a b : t) : bool :=
  match a, b with
  | Finite p, Finite q => Qeq_bool p q
  | Infinity s, Infinity s' => Bool.eqb s s'
  | _, _ => false
  end.

(** The integer part, towards zero. *)
Definition truncate (q : Q) : Z :=
  if Qle_bool 0 q then Qfloor q else Qceiling q.

(** A number in the representation of the Standard Library's
    specification of IEEE 754 arithmetic, a sign, a significand and an
    exponent, as the number it stands for. *)
Definition of_spec (x : spec_float) : t :=
  match x with
  | S754_zero _ => of_Z 0
  | S754_infinity s => Infinity s
  | S754_nan => NaN
  | S754_finite s m e =>
      Finite (Q2Qc ((if s then - 1 else 1) * inject_Z (Zpos m) * 2 ^ e))
  end.

(** Doubles to try the rounding on: 800, 5, the doubles nearest to 1.2
    and 1.15, the largest double, the smallest normal one and the
    smallest of all. *)
Definition samples : list spec_float :=
  [S754_finite false 7036874417766400 (-43);
   S754_finite false 5629499534213120 (-50);
   S754_finite false 5404319552844595 (-52);
   S754_finite true 5179139571476070 (-52);
   S754_finite false 9007199254740991 971;
   S754_finite true 4503599627370496 (-1074);
   S754_finite false 1 (-1074)].

End Double.

(** [Math.floor] *)
Definition Math_floor (x : Double.t) : Double.t := Double.floor x.

(** ** Handles of the platform *)

Definition GPUDevice := nat.
Definition GPUCanvasContext := nat.
Definition GPUBuffer := nat.
Definition GPUTextureFormat := string.

Record GPUTexture := {
  tex_handle : nat;
  tex_width : Z;
  tex_height : Z
}.

Record GPUTextureView := { view_texture : GPUTexture }.

Definition createView (t : GPUTexture) : GPUTextureView :=
  {| view_texture := t |}.

(** [GPUTextureUsage.RENDER_ATTACHMENT], [GPUBufferUsage.UNIFORM] and
    [GPUBufferUsage.COPY_DST] of the WebGPU interface. *)
Definition RENDER_ATTACHMENT : Z := 16.
Definition UNIFORM : Z := 64.
Definition COPY_DST : Z := 8.

(** ** CanvasContext.ts *)

Module CanvasContext.

Record HTMLCanvasElement := {
  canvas_id : nat;
  canvas_width : Z;
  canvas_height : Z;
  clientWidth : Z;
  clientHeight : Z;
  (* canvas.getContext('webgpu') *)
  getContext_webgpu : option GPUCanvasContext
}.

(** [size: { width: number; height: number }] *)
Record Size := { width : Double.t; height : Double.t }.

(** What the surface does to the browser and the presentation chain: the
    configuration of the context and the values assigned to
    [canvas.width] and [canvas.height]. *)
Inductive SurfaceEvent :=
| EConfigure (context : GPUCanvasContext) (device : GPUDevice)
             (format : GPUTextureFormat) (usage : Z) (alphaMode : string)
| ESetCanvasWidth (canvas : nat) (w : Double.t)
| ESetCanvasHeight (canvas : nat) (h : Double.t).

Record t := {
  device : GPUDevice;
  context : GPUCanvasContext;
  canvas : HTMLCanvasElement;
  depthTexture : option GPUTexture;
  multisampleTexture : option GPUTexture;
  renderPipeline : option nat;
  bindGroups : gmap string nat;
  uniformBuffers : gmap string GPUBuffer;
  size : Size;
  pixelRatio : number
}.

(** The window and the layout, as [updateSize] reads them.
    [devicePixelRatio] is a [double] of the interface: a finite number. *)
Record Window := { devicePixelRatio : number }.

Section Platform.
(** [navigator.gpu.getPreferredCanvasFormat()] *)
Variable preferredCanvasFormat : GPUTextureFormat.

Definition configure (c : t) : list SurfaceEvent :=
  let format := preferredCanvasFormat in
  [EConfigure (context c) (device c) format RENDER_ATTACHMENT "opaque"].

(** [new CanvasContext(canvas, device)].  Without a WebGPU context the
    non-null assertion lets [null] through and [configure] throws:
    [None]. *)
Definition constructor (cv : HTMLCanvasElement) (dev : GPUDevice)
  : option (t * list SurfaceEvent) :=
  match getContext_webgpu cv with
  | None => None
  | Some ctx =>
      let c := {| device := dev;
                  context := ctx;
                  canvas := cv;
                  depthTexture := None;
                  multisampleTexture := None;
                  renderPipeline := None;
                  bindGroups := ∅;
                  uniformBuffers := ∅;
                  size := {| width := Double.of_Z (canvas_width cv);
                             height := Double.of_Z (canvas_height cv) |};
                  pixelRatio := 1%Q |} in
      Some (c, configure c)
  end.
End Platform.

(** The conversion of a number to [unsigned long]: a number that is not
    finite gives 0, a finite one its integer part modulo [2 ^ 32]. *)
Definition to_unsigned_long (v : Double.t) : Z :=
  match v with
  | Double.Finite q => Double.truncate q mod 2 ^ 32
  | _ => 0
  end.

(** What [canvas.width] and [canvas.height] hold after an assignment: the
    attributes reflect an [unsigned long] with a default, and a value
    outside 0 .. 2147483647 is replaced by the default. *)
Definition reflected (default : Z) (v : Double.t) : Z :=
  let u := to_unsigned_long v in
  if u <=? 2147483647 then u else default.

(** [canvas.width = w] and [canvas.height = h]; the defaults of a canvas
    are 300 and 150. *)
Definition set_canvas_width (w : Double.t) (cv : HTMLCanvasElement) :=
  {| canvas_id := canvas_id cv; canvas_width := reflected 300 w;
     canvas_height := canvas_height cv;
     clientWidth := clientWidth cv; clientHeight := clientHeight cv;
     getContext_webgpu := getContext_webgpu cv |}.

Definition set_canvas_height (h : Double.t) (cv : HTMLCanvasElement) :=
  {| canvas_id := canvas_id cv; canvas_width := canvas_width cv;
     canvas_height := reflected 150 h;
     clientWidth := clientWidth cv; clientHeight := clientHeight cv;
     getContext_webgpu := getContext_webgpu cv |}.

Definition with_size_canvas (s : Size) (cv : HTMLCanvasElement) (c : t) : t :=
  {| device := device c; context := context c; canvas := cv;
     depthTexture := depthTexture c;
     multisampleTexture := multisampleTexture c;
     renderPipeline := renderPipeline c;
     bindGroups := bindGroups c; uniformBuffers := uniformBuffers c;
     size := s; pixelRatio := pixelRatio c |}.

Definition resize (w h : Double.t) (c : t) : t * list SurfaceEvent :=
  let cv := set_canvas_height h (set_canvas_width w (canvas c)) in
  (with_size_canvas {| width := w; height := h |} cv c,
   [ESetCanvasWidth (canvas_id (canvas c)) w;
    ESetCanvasHeight (canvas_id (canvas c)) h]).

(** The image of the presentation chain has the size of the canvas. *)
Definition getCurrentTexture (c : t) : GPUTexture :=
  {| tex_handle := context c;
     tex_width := canvas_width (canvas c);
     tex_height := canvas_height (canvas c) |}.

(** The size [updateSize] computes from the layout. *)
Definition effectiveSize (win : Window) (c : t) : Size :=
  let displayWidth := Double.of_Z (clientWidth (canvas c)) in
  let displayHeight := Double.of_Z (clientHeight (canvas c)) in
  let pixelRatio := Double.of_number (or_else (devicePixelRatio win) 1%Q) in
  {| width := Math_floor (Double.mul displayWidth pixelRatio);
     height := Math_floor (Double.mul displayHeight pixelRatio) |}.

Definition updateSize (win : Window) (c : t) : t * list SurfaceEvent :=
  let displayWidth := Double.of_Z (clientWidth (canvas c)) in
  let displayHeight := Double.of_Z (clientHeight (canvas c)) in
  let pixelRatio := Double.of_number (or_else (devicePixelRatio win) 1%Q) in
  let width' := Math_floor (Double.mul displayWidth pixelRatio) in
  let height' := Math_floor (Double.mul displayHeight pixelRatio) in
  if Double.strict_eq (width (size c)) width'
     && Double.strict_eq (height (size c)) height'
  then (c, [])
  else resize width' height' c.

(** *** A run of [updateSize] calls

    Between two calls the browser may lay the page out again and the
    window may move to another screen. *)
Record Layout := {
  lay_clientWidth : Z;
  lay_clientHeight : Z;
  lay_devicePixelRatio : number
}.

Definition relayout (l : Layout) (c : t) : t :=
  let cv := canvas c in
  with_size_canvas (size c)
    {| canvas_id := canvas_id cv; canvas_width := canvas_width cv;
       canvas_height := canvas_height cv;
       clientWidth := lay_clientWidth l;
       clientHeight := lay_clientHeight l;
       getContext_webgpu := getContext_webgpu cv |} c.

Definition window_of (l : Layout) : Window :=
  {| devicePixelRatio := lay_devicePixelRatio l |}.

Fixpoint updateSizes (ls : list Layout) (c : t) : t * list SurfaceEvent :=
  match ls with
  | [] => (c, [])
  | l :: ls' =>
      let '(c1, ev1) := updateSize (window_of l) (relayout l c) in
      let '(c2, ev2) := updateSizes ls' c1 in
      (c2, ev1 ++ ev2)
  end.

(** A reconfiguration of the presentation chain: the canvas gets a new
    backing size, width then height, as [resize] issues it. *)
Fixpoint reconfigurations (evs : list SurfaceEvent) : nat :=
  match evs with
  | ESetCanvasWidth cv _ :: ((ESetCanvasHeight cv' _ :: _) as rest) =>
      (if decide (cv = cv') then 1 else 0)%nat + reconfigurations rest
  | _ :: rest => reconfigurations rest
  | [] => 0%nat
  end.

Definition is_configure (e : SurfaceEvent) : bool :=
  match e with EConfigure _ _ _ _ _ => true | _ => false end.

Definition size_eqb (a b : Size) : bool :=
  Double.strict_eq (width a) (width b)
  && Double.strict_eq (height a) (height b).

(** The calls of a run whose computed size differs from the size stored
    when the call is made. *)
Fixpoint changing_calls (ls : list Layout) (c : t) : nat :=
  match ls with
  | [] => 0%nat
  | l :: ls' =>
      let c0 := relayout l c in
      ((if size_eqb (size c0) (effectiveSize (window_of l) c0) then 0 else 1)
       + changing_calls ls' (fst (updateSize (window_of l) c0)))%nat
  end.

(** The invariant of the class: the stored size is the canvas size. *)
Definition size_matches_canvas (c : t) : Prop :=
  width (size c) = Double.of_Z (canvas_width (canvas c)) /\
  height (size c) = Double.of_Z (canvas_height (canvas c)).

(** A number of pixels a canvas can have: a whole number from 0 to
    2147483647. *)
Definition is_pixel_count (v : Double.t) : bool :=
  match v with
  | Double.Finite q =>
      Qeq_bool q (inject_Z (Qfloor q))
      && (0 <=? Qfloor q) && (Qfloor q <=? 2147483647)
  | _ => false
  end.

End CanvasContext.

(** ** The platform: GPU device, console, clock *)

Definition mat4 := list number.

(** [mat4.create()]: the identity, column-major. *)
Definition mat4_create : mat4 :=
  [1; 0; 0; 0;  0; 1; 0; 0;  0; 0; 1; 0;  0; 0; 0; 1]%Q.

(** [mat4.multiply(out, a, b)]: [out = a * b], column-major. *)
Definition mat4_multiply (a b : mat4) : mat4 :=
  let at_ (m : mat4) (i : nat) : number := nth i m 0%Q in
  flat_map (fun c =>
    map (fun r =>
      (at_ a r * at_ b (4 * c)%nat
       + at_ a (4 + r)%nat * at_ b (4 * c + 1)%nat
       + at_ a (8 + r)%nat * at_ b (4 * c + 2)%nat
       + at_ a (12 + r)%nat * at_ b (4 * c + 3)%nat)%Q)
      (seq 0 4))
    (seq 0 4).

(** [new Float32Array(n)] and [array.set(source, offset)].  The array
    holds singles: what is stored is rounded by [Double.fround].  A
    matrix has sixteen numbers and fits where the engine sets it; [set]
    raises a [RangeError] otherwise, and here the part that fits is
    stored. *)
Definition Float32Array (n : nat) : list Double.t :=
  replicate n (Double.of_Z 0).
Definition array_set (source : list number) (offset : nat)
  (array : list Double.t) : list Double.t :=
  list_inserts offset (map Double.fround source) array.

Record VertexAttribute := {
  shaderLocation : Z;
  attr_offset : Z;
  attr_format : string
}.

Record GPURenderPipelineDescriptor := {
  desc_layout : string;
  vertex_module : nat;
  vertex_entryPoint : string;
  vertex_arrayStride : Z;
  vertex_attributes : list VertexAttribute;
  fragment_module : nat;
  fragment_entryPoint : string;
  fragment_target_format : GPUTextureFormat;
  primitive_topology : string;
  primitive_cullMode : string
}.

Record GPURenderPipeline := {
  pipeline_handle : nat;
  pipeline_descriptor : GPURenderPipelineDescriptor
}.

Inductive GpuEvent :=
| CreateCommandEncoder (encoder : nat)
| SceneUpdate (deltaTime : number)
| ConsoleWarn (message : string)
| GetCurrentTexture (context : GPUCanvasContext)
| UpdateAspect (camera : nat) (aspect : number)
| CreateShaderModule (module : nat) (code : string)
| CreateRenderPipeline (pipeline : nat) (desc : GPURenderPipelineDescriptor)
| CreateBuffer (buffer : GPUBuffer) (size usage : Z)
| BeginRenderPass (encoder pass : nat) (view : GPUTextureView)
                    (clearValue : list number) (loadOp storeOp : string)
| SetPipeline (pass pipeline : nat)
| WriteBuffer (buffer : GPUBuffer) (bufferOffset : Z)
              (data : list Double.t)
| CreateBindGroup (group pipeline : nat) (layoutIndex binding : Z)
                  (buffer : GPUBuffer)
| SetBindGroup (pass : nat) (index : Z) (group : nat)
| SetVertexBuffer (pass : nat) (slot : Z) (buffer : GPUBuffer)
| SetIndexBuffer (pass : nat) (buffer : GPUBuffer) (indexFormat : string)
| DrawIndexed (pass : nat) (indexCount : Z)
| Draw (pass : nat) (vertexCount : Z)
| EndPass (pass : nat)
| Finish (encoder : nat)
| Submit (encoder : nat).

(** The device and the console: the next free handle and the log of the
    calls made so far, oldest first. *)
Record Platform := {
  fresh : nat;
  log : list GpuEvent
}.

(** The world a frame runs in.  [clock] is what [performance.now()] returns
    at its successive readings, [ticks] the number of readings made so far,
    [callbacks] the number of caller-supplied callbacks invoked so far. *)
Record World := {
  clock : nat -> number;
  ticks : nat;
  callbacks : nat;
  preferredCanvasFormat : GPUTextureFormat;
  gpu : Platform
}.

(** Code that talks to the device only, such as a pipeline builder. *)
Definition P (A : Type) : Type := Platform -> A * Platform.
(** Code of the engine. *)
Definition M (A : Type) : Type := World -> A * World.

Definition ret {A} (a : A) : M A := fun w => (a, w).
Definition bind {A B} (m : M A) (k : A -> M B) : M B :=
  fun w => let '(a, w') := m w in k a w'.

Notation "'let*' x := m 'in' k" := (bind m (fun x => k))
  (at level 10, x pattern, m at level 100, k at level 200).

Definition pret {A} (a : A) : P A := fun p => (a, p).
Definition pbind {A B} (m : P A) (k : A -> P B) : P B :=
  fun p => let '(a, p') := m p in k a p'.

Notation "'let+' x := m 'in' k" := (pbind m (fun x => k))
  (at level 10, x pattern, m at level 100, k at level 200).

Definition with_gpu (p : Platform) (w : World) : World :=
  {| clock := clock w; ticks := ticks w; callbacks := callbacks w;
     preferredCanvasFormat := preferredCanvasFormat w; gpu := p |}.

Definition lift {A} (m : P A) : M A :=
  fun w => let '(a, p) := m (gpu w) in (a, with_gpu p w).

(** Calling a callback the caller supplied. *)
Definition invoke {A} (f : P A) : M A :=
  fun w =>
    let '(a, p) := f (gpu w) in
    (a, {| clock := clock w; ticks := ticks w;
           callbacks := S (callbacks w);
           preferredCanvasFormat := preferredCanvasFormat w; gpu := p |}).

Definition emit (e : GpuEvent) : P unit :=
  fun p => (tt, {| fresh := fresh p; log := log p ++ [e] |}).

Definition alloc : P nat :=
  fun p => (fresh p, {| fresh := S (fresh p); log := log p |}).

Definition performance_now : M number :=
  fun w =>
    (clock w (ticks w),
     {| clock := clock w; ticks := S (ticks w); callbacks := callbacks w;
        preferredCanvasFormat := preferredCanvasFormat w; gpu := gpu w |}).

Definition getPreferredCanvasFormat : M GPUTextureFormat :=
  fun w => (preferredCanvasFormat w, w).

Definition createCommandEncoder : P nat :=
  let+ enc := alloc in
  let+ _ := emit (CreateCommandEncoder enc) in
  pret enc.

Definition createShaderModule (code : string) : P nat :=
  let+ m := alloc in
  let+ _ := emit (CreateShaderModule m code) in
  pret m.

Definition createRenderPipeline (desc : GPURenderPipelineDescriptor)
  : P GPURenderPipeline :=
  let+ h := alloc in
  let+ _ := emit (CreateRenderPipeline h desc) in
  pret {| pipeline_handle := h; pipeline_descriptor := desc |}.

Definition createBuffer (size usage : Z) : P GPUBuffer :=
  let+ b := alloc in
  let+ _ := emit (CreateBuffer b size usage) in
  pret b.

Definition createBindGroup (pipeline : GPURenderPipeline)
  (layoutIndex binding : Z) (buffer : GPUBuffer) : P nat :=
  let+ g := alloc in
  let+ _ := emit (CreateBindGroup g (pipeline_handle pipeline)
                    layoutIndex binding buffer) in
  pret g.

(** [commandEncoder.beginRenderPass] with the one colour attachment of the
      engine: clear to (0.1, 0.1, 0.1, 1.0), then store. *)
Definition clearValue : list number := [1 # 10; 1 # 10; 1 # 10; 1]%Q.

Definition beginRenderPass (encoder : nat) (view : GPUTextureView) : P nat :=
  let+ pass := alloc in
  let+ _ := emit (BeginRenderPass encoder pass view clearValue
                    "clear" "store") in
  pret pass.

(** ** PipelineManager *)

Module PipelineManager.

Record t := {
  device : GPUDevice;
  pipelines : gmap string GPURenderPipeline
}.

Definition constructor (dev : GPUDevice) : t :=
  {| device := dev; pipelines := ∅ |}.

Definition getOrCreate (key : string)
  (descriptor : P GPURenderPipelineDescriptor) (pm : t)
  : M (GPURenderPipeline * t) :=
  match pipelines pm !! key with
  | Some pipeline => ret (pipeline, pm)
  | None =>
      let* desc := invoke descriptor in
      let* pipeline := lift (createRenderPipeline desc) in
      ret (pipeline,
           {| device := device pm;
              pipelines := <[key := pipeline]> (pipelines pm) |})
  end.

Definition get (key : string) (pm : t) : option GPURenderPipeline :=
  pipelines pm !! key.

Definition clear (pm : t) : t :=
  {| device := device pm; pipelines := ∅ |}.

Definition remove (key : string) (pm : t) : bool * t :=
  (bool_decide (is_Some (pipelines pm !! key)),
   {| device := device pm; pipelines := delete key (pipelines pm) |}).

End PipelineManager.

(** ** Engine *)

Module Engine.

(** *** The collaborators: render target, mesh, renderable, scene, camera *)

Inductive RenderTarget :=
| canvas (canvasId : string)
| texture (texture : GPUTexture) (width height : Z).

Record Mesh := {
  vertexBuffer : GPUBuffer;
  indexBuffer : option GPUBuffer;
  indexCount : Z;
  vertexCount : Z
}.

Record Renderable := {
  getTransform : mat4;
  mesh : Mesh
}.

Record Scene := { renderables : list Renderable }.

(** A camera.  [isPerspective] is [camera instanceof PerspectiveCamera];
    the projection matrix is a function of the aspect ratio the camera
    currently holds. *)
Record ICamera := {
  cam_id : nat;
  scene : Scene;
  target : RenderTarget;
  enabled : bool;
  order : number;
  isPerspective : bool;
  aspect : number;
  viewMatrix : mat4;
  projectionMatrix : number -> mat4
}.

Definition getViewMatrix (c : ICamera) : mat4 := viewMatrix c.
Definition getProjectionMatrix (c : ICamera) : mat4 :=
  projectionMatrix c (aspect c).
Definition updateAspect (a : number) (c : ICamera) : ICamera :=
  {| cam_id := cam_id c; scene := scene c; target := target c;
     enabled := enabled c; order := order c;
     isPerspective := isPerspective c; aspect := a;
     viewMatrix := viewMatrix c; projectionMatrix := projectionMatrix c |}.

(** Modelled from the spec: the surface registry, class [CanvasManager],
    of which only the use by the engine is known.  [lookup(id)] resolves a surface
    identifier to its context and is absent for an unregistered one. *)
Record CanvasManager := { contexts : gmap string CanvasContext.t }.

Definition getContext (canvasId : string) (cm : CanvasManager)
  : option CanvasContext.t :=
  contexts cm !! canvasId.

(** *** The engine object

    The scene collaborator is not part of the engine state: its update
    hook is an event of the log, and the cameras [getRenderCameras()]
    yields in a frame are an input of the frame. *)

Record FrameContext := {
  commandEncoder : nat;
  lastDeltaTime : number
}.

Record t := {
  _device : GPUDevice;
  adapter : nat;
  context : option GPUCanvasContext;
  _initialized : bool;
  canvasManager : CanvasManager;
  pipelineManager : PipelineManager.t;
  _uniformBuffer : option GPUBuffer;
  _lastFrameTime : number
}.

Definition constructor (adapter0 : nat) (device0 : GPUDevice) : t :=
  {| _device := device0; adapter := adapter0; context := None;
     _initialized := true;
     canvasManager := {| contexts := ∅ |};
     pipelineManager := PipelineManager.constructor device0;
     _uniformBuffer := None;
     _lastFrameTime := 0%Q |}.

Definition set_lastFrameTime (now : number) (e : t) : t :=
  {| _device := _device e; adapter := adapter e; context := context e;
     _initialized := _initialized e; canvasManager := canvasManager e;
     pipelineManager := pipelineManager e;
     _uniformBuffer := _uniformBuffer e; _lastFrameTime := now |}.

Definition set_pipelineManager (pm : PipelineManager.t) (e : t) : t :=
  {| _device := _device e; adapter := adapter e; context := context e;
     _initialized := _initialized e; canvasManager := canvasManager e;
     pipelineManager := pm;
     _uniformBuffer := _uniformBuffer e;
     _lastFrameTime := _lastFrameTime e |}.

Definition set_uniformBuffer (b : GPUBuffer) (e : t) : t :=
  {| _device := _device e; adapter := adapter e; context := context e;
     _initialized := _initialized e; canvasManager := canvasManager e;
     pipelineManager := pipelineManager e;
     _uniformBuffer := Some b;
     _lastFrameTime := _lastFrameTime e |}.

(** *** The frame *)

Definition beginFrame (e : t) : M (FrameContext * t) :=
  let* now := performance_now in
  let deltaTime :=
    if Qeq_bool (_lastFrameTime e) 0 then 0%Q
    else ((now - _lastFrameTime e) / 1000)%Q in
  let e := set_lastFrameTime now e in
  let* commandEncoder0 := lift createCommandEncoder in
  ret ({| commandEncoder := commandEncoder0; lastDeltaTime := deltaTime |},
       e).

Definition buildRenderStack (e : t) : M unit :=
  let* now := performance_now in
  let deltaTime :=
    if Qeq_bool (_lastFrameTime e) 0 then 0%Q
    else ((now - _lastFrameTime e) / 1000)%Q in
  lift (emit (SceneUpdate deltaTime)).

Definition endFrame (frame : FrameContext) : M unit :=
  let* _ := lift (emit (Finish (commandEncoder frame))) in
  lift (emit (Submit (commandEncoder frame))).

Definition vs_code : string :=
"
                struct Uniforms {
                    model: mat4x4<f32>,
                    view: mat4x4<f32>,
                    projection: mat4x4<f32>,
                }
                @group(0) @binding(0) var<uniform> uniforms: Uniforms;

                struct VertexInput {
                    @location(0) position: vec3<f32>,
                    @location(1) color: vec4<f32>,
                }

                struct VertexOutput {
                    @builtin(position) position: vec4<f32>,
                    @location(0) color: vec4<f32>,
                }

                @vertex
                fn vs_main(input: VertexInput) -> VertexOutput {
                    var output: VertexOutput;
                    let mvp = uniforms.projection * uniforms.view * uniforms.model;
                    output.position = mvp * vec4<f32>(input.position, 1.0);
                    output.color = input.color;
                    return output;
                }
            ".

Definition fs_code : string :=
"
                struct VertexOutput {
                    @builtin(position) position: vec4<f32>,
                    @location(0) color: vec4<f32>,
                }

                @fragment
                fn fs_main(input: VertexOutput) -> @location(0) vec4<f32> {
                    return input.color;
                }
            ".

Definition _createRenderPipelineDescriptor (format : GPUTextureFormat)
  : P GPURenderPipelineDescriptor :=
  let+ vsModule := createShaderModule vs_code in
  let+ fsModule := createShaderModule fs_code in
  pret {| desc_layout := "auto";
          vertex_module := vsModule;
          vertex_entryPoint := "vs_main";
          vertex_arrayStride := 7 * 4;
          vertex_attributes :=
            [ {| shaderLocation := 0; attr_offset := 0;
                 attr_format := "float32x3" |};
              {| shaderLocation := 1; attr_offset := 12;
                 attr_format := "float32x4" |} ];
          fragment_module := fsModule;
          fragment_entryPoint := "fs_main";
          fragment_target_format := format;
          primitive_topology := "triangle-list";
          primitive_cullMode := "back" |}.

Fixpoint forEach {A} (body : A -> P unit) (l : list A) : P unit :=
  match l with
  | [] => pret tt
  | x :: l' => let+ _ := body x in forEach body l'
  end.

(** The body of the loop over the renderables of a camera. *)
Definition drawRenderable (pipeline : GPURenderPipeline)
  (uniformBuffer : GPUBuffer) (passEncoder : nat)
  (viewMatrix0 projectionMatrix0 : mat4) (renderable : Renderable)
  : P unit :=
  let modelMatrix := getTransform renderable in
  let mvp := mat4_create in
  let mvp := mat4_multiply projectionMatrix0 viewMatrix0 in
  let mvp := mat4_multiply mvp modelMatrix in
  let uniformData := Float32Array (16 * 3) in
  let uniformData := array_set modelMatrix 0 uniformData in
  let uniformData := array_set viewMatrix0 16 uniformData in
  let uniformData := array_set projectionMatrix0 32 uniformData in
  let+ _ := emit (WriteBuffer uniformBuffer 0 uniformData) in
  let+ bindGroup := createBindGroup pipeline 0 0 uniformBuffer in
  let+ _ := emit (SetBindGroup passEncoder 0 bindGroup) in
  let mesh0 := mesh renderable in
  let+ _ := emit (SetVertexBuffer passEncoder 0 (vertexBuffer mesh0)) in
  match indexBuffer mesh0 with
  | Some ib =>
      let+ _ := emit (SetIndexBuffer passEncoder ib "uint16") in
      emit (DrawIndexed passEncoder (indexCount mesh0))
  | None => emit (Draw passEncoder (vertexCount mesh0))
  end.

(** [renderCamera] from the pipeline lookup on, once the target is
    resolved to a view and a format. *)
Definition renderResolved (camera : ICamera) (commandEncoder0 : nat)
  (textureView : GPUTextureView) (format : GPUTextureFormat) (e : t)
  : M t :=
  let pipelineKey := "basic_" +:+ format in
  let* (pipeline, pm) :=
    PipelineManager.getOrCreate pipelineKey
      (_createRenderPipelineDescriptor format) (pipelineManager e) in
  let e := set_pipelineManager pm e in
  let* (uniformBuffer, e) :=
    match _uniformBuffer e with
    | Some b => ret (b, e)
    | None =>
        let* b := lift (createBuffer (16 * 4 * 3) (Z.lor UNIFORM COPY_DST)) in
        ret (b, set_uniformBuffer b e)
    end in
  let* passEncoder := lift (beginRenderPass commandEncoder0 textureView) in
  let* _ := lift (emit (SetPipeline passEncoder (pipeline_handle pipeline))) in
  let viewMatrix0 := getViewMatrix camera in
  let projectionMatrix0 := getProjectionMatrix camera in
  let* _ := lift (forEach (drawRenderable pipeline uniformBuffer passEncoder
                             viewMatrix0 projectionMatrix0)
                    (renderables (scene camera))) in
  let* _ := lift (emit (EndPass passEncoder)) in
  ret e.

Definition renderCamera (camera : ICamera) (commandEncoder0 : nat) (e : t)
  : M t :=
  match target camera with
  | canvas canvasId =>
      match getContext canvasId (canvasManager e) with
      | None =>
          let* _ := lift (emit (ConsoleWarn
                       ("Canvas context not found: " +:+ canvasId))) in
          ret e
      | Some canvasContext =>
          let* _ := lift (emit (GetCurrentTexture
                                  (CanvasContext.context canvasContext))) in
          let texture0 := CanvasContext.getCurrentTexture canvasContext in
          let textureView := createView texture0 in
          let width := tex_width texture0 in
          let height := tex_height texture0 in
          let* format := getPreferredCanvasFormat in
          let* camera :=
            if isPerspective camera then
              let a := (inject_Z width / inject_Z height)%Q in
              let* _ := lift (emit (UpdateAspect (cam_id camera) a)) in
              ret (updateAspect a camera)
            else ret camera in
          renderResolved camera commandEncoder0 textureView format e
      end
  | texture texture0 width height =>
      let textureView := createView texture0 in
      let* format := getPreferredCanvasFormat in
      renderResolved camera commandEncoder0 textureView format e
  end.

Fixpoint forEachCamera (body : ICamera -> t -> M t) (cameras : list ICamera)
  (e : t) : M t :=
  match cameras with
  | [] => ret e
  | camera :: rest =>
      let* e := body camera e in forEachCamera body rest e
  end.

(** One frame; [cameras] is what [sceneManager.getRenderCameras()]
    yields. *)
Definition RenderLoop (cameras : list ICamera) (e : t) : M t :=
  let* (frame, e) := beginFrame e in
  let* _ := buildRenderStack e in
  let* e := forEachCamera
              (fun camera e => renderCamera camera (commandEncoder frame) e)
              cameras e in
  let* _ := endFrame frame in
  ret e.

Definition set_canvasManager (cm : CanvasManager) (e : t) : t :=
  {| _device := _device e; adapter := adapter e; context := context e;
     _initialized := _initialized e; canvasManager := cm;
     pipelineManager := pipelineManager e;
     _uniformBuffer := _uniformBuffer e;
     _lastFrameTime := _lastFrameTime e |}.

(** A run of the engine: one [RenderLoop] per element of [frames].  A
    frame comes with the surfaces the application has registered by then
    and with the cameras the scene yields. *)
Fixpoint run (frames : list (CanvasManager * list ICamera)) (e : t) : M t :=
  match frames with
  | [] => ret e
  | (cm, cameras) :: rest =>
      let* e := RenderLoop cameras (set_canvasManager cm e) in run rest e
  end.

End Engine.

(** Modelled from the spec: the scene collaborator, class [SceneManager],
  of which only the use by the engine is known.  It exposes the sequence of active
  cameras for iteration each frame: the enabled cameras in ascending
  priority order, ties broken by stable input order. *)
Module SceneManager.
Import Engine.

Record t := { cameras : list ICamera }.

Fixpoint insert_by_order (c : ICamera) (l : list ICamera) : list ICamera :=
  match l with
  | [] => [c]
  | d :: l' =>
      if Qle_bool (order c) (order d) then c :: d :: l'
      else d :: insert_by_order c l'
  end.

Definition sort_by_order (l : list ICamera) : list ICamera :=
  foldr insert_by_order [] l.

Definition getRenderCameras (sm : t) : list ICamera :=
  sort_by_order (filter (λ c, enabled c) (cameras sm)).

End SceneManager.

(** ** Reading the log *)

Module Trace.
Import Engine.

(** A call of the log without the handles of the objects the frame
    creates on the way.  The creation of shader modules, pipelines and
    buffers is left out: it depends on what the caches hold. *)
Inductive Call :=
| CCreateCommandEncoder
| CSceneUpdate (deltaTime : number)
| CWarn (message : string)
| CGetCurrentTexture (context : GPUCanvasContext)
| CUpdateAspect (camera : nat) (aspect : number)
| CBeginRenderPass (view : GPUTextureView)
| CSetPipeline
| CWriteBuffer (bufferOffset : Z) (data : list Double.t)
| CCreateBindGroup (layoutIndex binding : Z)
| CSetBindGroup (index : Z)
| CSetVertexBuffer (slot : Z) (buffer : GPUBuffer)
| CSetIndexBuffer (buffer : GPUBuffer) (indexFormat : string)
| CDrawIndexed (indexCount : Z)
| CDraw (vertexCount : Z)
| CEndPass
| CFinish
| CSubmit.

Definition erase (ev : GpuEvent) : option Call :=
  match ev with
  | CreateCommandEncoder _ => Some CCreateCommandEncoder
  | SceneUpdate dt => Some (CSceneUpdate dt)
  | ConsoleWarn m => Some (CWarn m)
  | GetCurrentTexture ctx => Some (CGetCurrentTexture ctx)
  | UpdateAspect c a => Some (CUpdateAspect c a)
  | CreateShaderModule _ _ => None
  | CreateRenderPipeline _ _ => None
  | CreateBuffer _ _ _ => None
  | BeginRenderPass _ _ v _ _ _ => Some (CBeginRenderPass v)
  | SetPipeline _ _ => Some CSetPipeline
  | WriteBuffer _ off data => Some (CWriteBuffer off data)
  | CreateBindGroup _ _ i b _ => Some (CCreateBindGroup i b)
  | SetBindGroup _ i _ => Some (CSetBindGroup i)
  | SetVertexBuffer _ s b => Some (CSetVertexBuffer s b)
  | SetIndexBuffer _ b f => Some (CSetIndexBuffer b f)
  | DrawIndexed _ n => Some (CDrawIndexed n)
  | Draw _ n => Some (CDraw n)
  | EndPass _ => Some CEndPass
  | Finish _ => Some CFinish
  | Submit _ => Some CSubmit
  end.

Definition calls (evs : list GpuEvent) : list Call := omap erase evs.

(** *** What a frame calls, read off the code *)

Definition uniformData (model view projection : mat4) : list Double.t :=
  array_set projection 32
    (array_set view 16 (array_set model 0 (Float32Array (16 * 3)))).

Definition draw_calls_of (m : Mesh) : list Call :=
  match indexBuffer m with
  | Some ib => [CSetIndexBuffer ib "uint16"; CDrawIndexed (indexCount m)]
  | None => [CDraw (vertexCount m)]
  end.

Definition renderable_calls (view projection : mat4) (r : Renderable)
  : list Call :=
  [CWriteBuffer 0 (uniformData (getTransform r) view projection);
   CCreateBindGroup 0 0;
   CSetBindGroup 0;
   CSetVertexBuffer 0 (vertexBuffer (mesh r))]
  ++ draw_calls_of (mesh r).

Definition pass_calls (view : GPUTextureView) (camera : ICamera)
  : list Call :=
  [CBeginRenderPass view; CSetPipeline]
  ++ flat_map (renderable_calls (getViewMatrix camera)
                 (getProjectionMatrix camera))
       (renderables (scene camera))
  ++ [CEndPass].

Definition camera_calls (cm : CanvasManager) (camera : ICamera)
  : list Call :=
  match target camera with
  | canvas canvasId =>
      match getContext canvasId cm with
      | None => [CWarn ("Canvas context not found: " +:+ canvasId)]
      | Some cc =>
          let tex := CanvasContext.getCurrentTexture cc in
          let a := (inject_Z (tex_width tex) / inject_Z (tex_height tex))%Q in
          [CGetCurrentTexture (CanvasContext.context cc)]
          ++ (if isPerspective camera
              then CUpdateAspect (cam_id camera) a
                   :: pass_calls (createView tex) (updateAspect a camera)
              else pass_calls (createView tex) camera)
      end
  | texture tex _ _ => pass_calls (createView tex) camera
  end.

(** The delta-time [beginFrame] computes when it starts in [e] and [w]. *)
Definition frame_delta (e : t) (w : World) : number :=
  lastDeltaTime (fst (fst (beginFrame e w))).

(** The delta-times of the frames of a run, as [beginFrame] records them
    in the frame context. *)
Fixpoint frame_deltas (frames : list (CanvasManager * list ICamera))
  (e : t) (w : World) : list number :=
  match frames with
  | [] => []
  | (cm, cameras) :: rest =>
      let r := RenderLoop cameras (set_canvasManager cm e) w in
      frame_delta (set_canvasManager cm e) w
      :: frame_deltas rest (fst r) (snd r)
  end.

(** *** Observations *)

(** The delta-times handed to the update hook of the scene. *)
Definition scene_updates (cs : list Call) : list number :=
  omap (λ c, match c with CSceneUpdate dt => Some dt | _ => None end) cs.

(** What happened to a camera: it was skipped with a warning, or a render
    pass was opened on its target. *)
Inductive Visit :=
| Skipped (warning : string)
| Drawn (view : GPUTextureView).

Definition visits (cs : list Call) : list Visit :=
  omap (λ c, match c with
             | CWarn m => Some (Skipped m)
             | CBeginRenderPass v => Some (Drawn v)
             | _ => None
             end) cs.

Definition visit_of (cm : CanvasManager) (camera : ICamera) : Visit :=
  match target camera with
  | canvas canvasId =>
      match getContext canvasId cm with
      | None => Skipped ("Canvas context not found: " +:+ canvasId)
      | Some cc => Drawn (createView (CanvasContext.getCurrentTexture cc))
      end
  | texture tex _ _ => Drawn (createView tex)
  end.

(** The camera's target resolves: it is off-screen, or its surface is
    registered. *)
Definition resolvable (cm : CanvasManager) (camera : ICamera) : bool :=
  match target camera with
  | canvas canvasId => bool_decide (is_Some (getContext canvasId cm))
  | texture _ _ _ => true
  end.

Definition is_drawn (v : Visit) : bool :=
  match v with Drawn _ => true | Skipped _ => false end.

(** The draw encoding: index buffer bindings and draw calls. *)
Definition is_draw_encoding (c : Call) : bool :=
  match c with
  | CSetIndexBuffer _ _ | CDrawIndexed _ | CDraw _ => true
  | _ => false
  end.

Definition is_draw (c : Call) : bool :=
  match c with CDrawIndexed _ | CDraw _ => true | _ => false end.

Definition draw_encoding (cs : list Call) : list Call :=
  filter (λ c, is_draw_encoding c) cs.

Definition draws (cs : list Call) : list Call :=
  filter (λ c, is_draw c) cs.

(** The renderables a frame draws: those of the cameras whose target
    resolves, in order. *)
Definition drawn_renderables (cm : CanvasManager) (cameras : list ICamera)
  : list Renderable :=
  flat_map (λ c, if resolvable cm c then renderables (scene c) else [])
    cameras.

(** Writes of the uniform data and draws, in the order of the log. *)
Inductive Mark := Write | DrawCall.

Definition marks (cs : list Call) : list Mark :=
  omap (λ c, match c with
             | CWriteBuffer _ _ => Some Write
             | CDrawIndexed _ | CDraw _ => Some DrawCall
             | _ => None
             end) cs.

(** Every write is followed by one draw before the next write. *)
Fixpoint write_then_draw (ms : list Mark) : bool :=
  match ms with
  | [] => true
  | Write :: DrawCall :: rest => write_then_draw rest
  | _ => false
  end.

(** The buffers the log creates, with size and usage, and the buffers it
    writes to. *)
Definition created_buffers (evs : list GpuEvent) : list (GPUBuffer * Z * Z) :=
  omap (λ ev, match ev with
              | CreateBuffer b size usage => Some (b, size, usage)
              | _ => None
              end) evs.

Definition written_buffers (evs : list GpuEvent) : list GPUBuffer :=
  omap (λ ev, match ev with
              | WriteBuffer b _ _ => Some b
              | _ => None
              end) evs.

Definition created_pipelines (evs : list GpuEvent) : list nat :=
  omap (λ ev, match ev with
              | CreateRenderPipeline p _ => Some p
              | _ => None
              end) evs.

(** The delta-time [buildRenderStack] hands to the scene in a frame that
    starts in world [w]: [beginFrame] has read the clock once and stored
    the reading, [buildRenderStack] reads it again. *)
Definition update_delta (w : World) : number :=
  let last := clock w (ticks w) in
  let now := clock w (S (ticks w)) in
  if Qeq_bool last 0 then 0%Q else ((now - last) / 1000)%Q.

Definition frame_calls (cm : CanvasManager) (cameras : list ICamera)
  (w : World) : list Call :=
  [CCreateCommandEncoder; CSceneUpdate (update_delta w)]
  ++ flat_map (camera_calls cm) cameras
  ++ [CFinish; CSubmit].

(** The world after a frame, as far as the clock goes: two readings. *)
Definition after_frame (w : World) : World :=
  {| clock := clock w; ticks := S (S (ticks w)); callbacks := callbacks w;
     preferredCanvasFormat := preferredCanvasFormat w; gpu := gpu w |}.

Fixpoint run_calls (frames : list (CanvasManager * list ICamera))
  (w : World) : list Call :=
  match frames with
  | [] => []
  | (cm, cameras) :: rest =>
      frame_calls cm cameras w ++ run_calls rest (after_frame w)
  end.

Definition run_drawn_renderables
  (frames : list (CanvasManager * list ICamera)) : list Renderable :=
  flat_map (λ f, drawn_renderables (fst f) (snd f)) frames.

(** Some camera of the run is rendered. *)
Definition any_drawn (frames : list (CanvasManager * list ICamera)) : bool :=
  existsb (λ f, existsb (resolvable (fst f)) (snd f)) frames.

(** The calls a computation adds to the log. *)
Definition since_log (before after : list GpuEvent) : list Call :=
  drop (length (calls before)) (calls after).

(** The calls of one frame, of a run, and of the drawing of a renderable. *)
Definition frame_trace (cameras : list ICamera) (e : t) (w : World)
  : list Call :=
  since_log (log (gpu w)) (log (gpu (snd (RenderLoop cameras e w)))).

Definition run_trace (frames : list (CanvasManager * list ICamera))
  (e : t) (w : World) : list Call :=
  since_log (log (gpu w)) (log (gpu (snd (run frames e w)))).

Definition renderable_trace (pipeline : GPURenderPipeline)
  (uniformBuffer : GPUBuffer) (passEncoder : nat) (view projection : mat4)
  (r : Renderable) (p : Platform) : list Call :=
  since_log (log p)
    (log (snd (drawRenderable pipeline uniformBuffer passEncoder
                 view projection r p))).

(** The buffers a run creates and the buffers it writes to. *)
Definition buffers_created_during
  (frames : list (CanvasManager * list ICamera)) (e : t) (w : World)
  : list (GPUBuffer * Z * Z) :=
  drop (length (created_buffers (log (gpu w))))
    (created_buffers (log (gpu (snd (run frames e w))))).

Definition buffers_written_during
  (frames : list (CanvasManager * list ICamera)) (e : t) (w : World)
  : list GPUBuffer :=
  drop (length (written_buffers (log (gpu w))))
    (written_buffers (log (gpu (snd (run frames e w))))).

(** Priorities ascend along the list. *)
Definition ascending (l : list ICamera) : Prop :=
  StronglySorted (λ a b, (order a <= order b)%Q) l.

(** The cameras of priority [k], in the order of the list. *)
Definition of_priority (k : number) (l : list ICamera) : list ICamera :=
  filter (λ c, Qeq_bool (order c) k) l.

(** How a stretch of a run treats the uniform buffer: [n] renderables are
    drawn in the stretch, and [drawn] tells whether a camera is rendered. *)
Definition uniform_step (e : t) (w : World) (e' : t) (w' : World)
  (n : nat) (drawn : bool) : Prop :=
  (∀ b, _uniformBuffer e = Some b → _uniformBuffer e' = Some b)
  ∧ (_uniformBuffer e' = None → drawn = false ∧ n = 0%nat)
  ∧ (drawn = true → is_Some (_uniformBuffer e'))
  ∧ (∀ b, _uniformBuffer e' = Some b →
       written_buffers (log (gpu w'))
       = written_buffers (log (gpu w)) ++ replicate n b
       ∧ created_buffers (log (gpu w'))
         = created_buffers (log (gpu w))
           ++ (if _uniformBuffer e is Some _ then [] else [(b, 192, 72)]))
  ∧ (_uniformBuffer e' = None →
       written_buffers (log (gpu w')) = written_buffers (log (gpu w))
       ∧ created_buffers (log (gpu w')) = created_buffers (log (gpu w)))
  ∧ (is_Some (_uniformBuffer e') →
       is_Some (_uniformBuffer e) ∨ drawn = true).

(** The stored time of the last frame is a reading the clock gave. *)
Definition stamped (e : t) (w : World) : Prop :=
  (_lastFrameTime e == 0)%Q
  ∨ ∃ k : nat, (k ≤ ticks w)%nat ∧ _lastFrameTime e = clock w k.

(** The clock never goes back. *)
Definition monotonic (clk : nat -> number) : Prop :=
  ∀ i j : nat, (i ≤ j)%nat → (clk i <= clk j)%Q.

End Trace.

(** ** Calls on a surface context *)

Module Surface.
Import CanvasContext.

Inductive Op :=
| OpResize (w h : Double.t)
| OpGetCurrentTexture
| OpUpdateSize (l : Layout).

Definition perform (o : Op) (c : t) : t * list SurfaceEvent :=
  match o with
  | OpResize w h => resize w h c
  | OpGetCurrentTexture => (c, [])
  | OpUpdateSize l => updateSize (window_of l) (relayout l c)
  end.

Fixpoint performAll (os : list Op) (c : t) : t * list SurfaceEvent :=
  match os with
  | [] => (c, [])
  | o :: os' =>
      let '(c1, ev1) := perform o c in
      let '(c2, ev2) := performAll os' c1 in
      (c2, ev1 ++ ev2)
  end.



End Surface.

(** ** Sample data *)

Module Demo.
Import Engine.

Definition canvas0 : CanvasContext.HTMLCanvasElement :=
  {| CanvasContext.canvas_id := 0%nat;
     CanvasContext.canvas_width := 300;
     CanvasContext.canvas_height := 150;
     CanvasContext.clientWidth := 800;
     CanvasContext.clientHeight := 600;
     CanvasContext.getContext_webgpu := Some 7%nat |}.

(** What [new CanvasContext(canvas0, 1)] returns. *)
Definition surface0 : CanvasContext.t :=
  {| CanvasContext.device := 1%nat;
     CanvasContext.context := 7%nat;
     CanvasContext.canvas := canvas0;
     CanvasContext.depthTexture := None;
     CanvasContext.multisampleTexture := None;
     CanvasContext.renderPipeline := None;
     CanvasContext.bindGroups := ∅;
     CanvasContext.uniformBuffers := ∅;
     CanvasContext.size := {| CanvasContext.width := Double.of_Z 300;
                              CanvasContext.height := Double.of_Z 150 |};
     CanvasContext.pixelRatio := 1%Q |}.

Definition layout (w h : Z) (ratio : number) : CanvasContext.Layout :=
  {| CanvasContext.lay_clientWidth := w;
     CanvasContext.lay_clientHeight := h;
     CanvasContext.lay_devicePixelRatio := ratio |}.

(** A clock that reads 1000, 1000, 2000, 2000, 3000, ... milliseconds:
    each frame lasts a second and the two readings of a frame agree. *)
Definition clock0 (n : nat) : number :=
  inject_Z (1000 * (1 + Z.of_nat (n / 2))).

Definition world0 : World :=
  {| clock := clock0; ticks := 0%nat; callbacks := 0%nat;
     preferredCanvasFormat := "bgra8unorm";
     gpu := {| fresh := 0%nat; log := [] |} |}.

Definition engine0 : t := constructor 0%nat 0%nat.

Definition indexed_mesh : Mesh :=
  {| vertexBuffer := 1%nat; indexBuffer := Some 2%nat;
     indexCount := 6; vertexCount := 4 |}.

Definition plain_mesh : Mesh :=
  {| vertexBuffer := 3%nat; indexBuffer := None;
     indexCount := 0; vertexCount := 3 |}.

Definition quad : Renderable :=
  {| getTransform := mat4_create; mesh := indexed_mesh |}.

Definition triangle : Renderable :=
  {| getTransform := mat4_create; mesh := plain_mesh |}.

Definition offscreen (handle : nat) : RenderTarget :=
  texture {| tex_handle := handle; tex_width := 64; tex_height := 64 |} 64 64.

Definition camera (id : nat) (tgt : RenderTarget) (on : bool)
  (priority : number) : ICamera :=
  {| cam_id := id; scene := {| renderables := [quad; triangle] |};
     target := tgt; enabled := on; order := priority;
     isPerspective := true; aspect := 1%Q;
     viewMatrix := mat4_create;
     projectionMatrix := λ _, mat4_create |}.

Definition no_surfaces : CanvasManager := {| contexts := ∅ |}.

Definition cam_a : ICamera := camera 1%nat (offscreen 11%nat) true 2%Q.
Definition cam_lost : ICamera := camera 2%nat (canvas "main") true 1%Q.
Definition cam_b : ICamera := camera 3%nat (offscreen 12%nat) false 1%Q.

End Demo.

(** ** A run of cache requests *)

Module PipelineRun.
Import PipelineManager.

(** [getOrCreate] for each request in turn. *)
Fixpoint getOrCreateAll
  (requests : list (string * P GPURenderPipelineDescriptor)) (pm : t)
  : M t :=
  match requests with
  | [] => ret pm
  | (key, descriptor) :: rest =>
      let* (_, pm1) := getOrCreate key descriptor pm in
      getOrCreateAll rest pm1
  end.

End PipelineRun.

(** ** Starting the engine and reading it *)

Module Startup.
Import Engine.

(** How a promise settles. *)
Inductive Settled (A : Type) : Type :=
| Fulfilled (a : A)
| Rejected (reason : string).
Arguments Fulfilled {A} a.
Arguments Rejected {A} reason.

(** [navigator.gpu], [gpu.requestAdapter()] and [adapter.requestDevice()],
    as global.d.ts declares them. *)
Record GPUAdapter := {
  adapter_handle : nat;
  requestDevice : Settled GPUDevice
}.

Record GPU := { requestAdapter : Settled (option GPUAdapter) }.

Record Navigator := { navigator_gpu : option GPU }.

(** [Engine.Create()]: the promise of the async function.  A [throw] and a
    rejected [await] both reject it. *)
Definition Create (navigator : Navigator) : Settled t :=
  match navigator_gpu navigator with
  | None => Rejected "WebGPU not supported."
  | Some g =>
      match requestAdapter g with
      | Rejected reason => Rejected reason
      | Fulfilled None => Rejected "Couldn't request WebGPU adapter."
      | Fulfilled (Some adapter0) =>
          match requestDevice adapter0 with
          | Rejected reason => Rejected reason
          | Fulfilled device0 =>
              Fulfilled (constructor (adapter_handle adapter0) device0)
          end
      end
  end.

Definition getDevice (e : t) : option GPUDevice := Some (_device e).

Definition getAdapter (e : t) : option nat := Some (adapter e).

(** [getCanvas(canvasId?)]: [undefined] and the empty string are falsy. *)
Definition getCanvas (canvasId : option string) (e : t)
  : option CanvasContext.HTMLCanvasElement :=
  match canvasId with
  | None => None
  | Some id =>
      if decide (id = "") then None
      else
        match Engine.getContext id (canvasManager e) with
        | Some context0 => Some (CanvasContext.canvas context0)
        | None => None
        end
  end.

(** [getContext()]: the [context] field of the engine. *)
Definition getContext (e : t) : option GPUCanvasContext := context e.

(** What a run leaves alone: device, adapter, context, initialization. *)
Definition same_identity (e e' : t) : Prop :=
  _device e' = _device e ∧ adapter e' = adapter e
  ∧ context e' = context e ∧ _initialized e' = _initialized e.

End Startup.

(** ** The recording protocol *)

Module Protocol.

(** What has been set on an open render pass. *)
Record PassState := {
  pipeline_set : bool;
  group_set : bool;
  vertex_set : bool;
  index_set : bool
}.

(** Where the recording of commands stands: no frame is open; a frame is
    open on a command encoder, the scene advanced or not yet; a render pass
    is open on the encoder; the recording is finished and not yet
    submitted; or the calls came in an order the states do not allow. *)
Inductive Recording :=
| Idle
| FrameOpen (encoder : nat) (advanced : bool)
| PassOpen (encoder pass : nat) (st : PassState)
| Finished (encoder : nat)
| Broken.

Definition on_pass (s : Recording) (pass : nat)
  (next : nat → PassState → Recording) : Recording :=
  match s with
  | PassOpen enc p st => if Nat.eqb pass p then next enc st else Broken
  | _ => Broken
  end.

Definition step (s : Recording) (ev : GpuEvent) : Recording :=
  match ev with
  | CreateCommandEncoder enc =>
      match s with Idle => FrameOpen enc false | _ => Broken end
  | SceneUpdate _ =>
      match s with FrameOpen enc false => FrameOpen enc true | _ => Broken end
  | BeginRenderPass enc pass _ _ _ _ =>
      match s with
      | FrameOpen enc' true =>
          if Nat.eqb enc enc'
          then PassOpen enc pass {| pipeline_set := false; group_set := false;
                                    vertex_set := false; index_set := false |}
          else Broken
      | _ => Broken
      end
  | SetPipeline pass _ =>
      on_pass s pass (λ enc st,
        PassOpen enc pass {| pipeline_set := true; group_set := group_set st;
                             vertex_set := vertex_set st;
                             index_set := index_set st |})
  | SetBindGroup pass _ _ =>
      on_pass s pass (λ enc st,
        PassOpen enc pass {| pipeline_set := pipeline_set st;
                             group_set := true;
                             vertex_set := vertex_set st;
                             index_set := index_set st |})
  | SetVertexBuffer pass _ _ =>
      on_pass s pass (λ enc st,
        PassOpen enc pass {| pipeline_set := pipeline_set st;
                             group_set := group_set st;
                             vertex_set := true;
                             index_set := index_set st |})
  | SetIndexBuffer pass _ _ =>
      on_pass s pass (λ enc st,
        PassOpen enc pass {| pipeline_set := pipeline_set st;
                             group_set := group_set st;
                             vertex_set := vertex_set st;
                             index_set := true |})
  | Draw pass _ =>
      on_pass s pass (λ enc st,
        if pipeline_set st && group_set st && vertex_set st
        then PassOpen enc pass st else Broken)
  | DrawIndexed pass _ =>
      on_pass s pass (λ enc st,
        if pipeline_set st && group_set st && vertex_set st && index_set st
        then PassOpen enc pass st else Broken)
  | EndPass pass => on_pass s pass (λ enc _, FrameOpen enc true)
  | Finish enc =>
      match s with
      | FrameOpen enc' true => if Nat.eqb enc enc' then Finished enc else Broken
      | _ => Broken
      end
  | Submit enc =>
      match s with
      | Finished enc' => if Nat.eqb enc enc' then Idle else Broken
      | _ => Broken
      end
  | ConsoleWarn _ | GetCurrentTexture _ | UpdateAspect _ _
  | CreateShaderModule _ _ | CreateRenderPipeline _ _ | CreateBuffer _ _ _
  | WriteBuffer _ _ _ | CreateBindGroup _ _ _ _ _ => s
  end.

(** The state a log leads to, from no frame open. *)
Definition protocol (evs : list GpuEvent) : Recording :=
  fold_left step evs Idle.

(** The arguments that are the same in every call the engine makes. *)
Definition conforms (ev : GpuEvent) : Prop :=
  match ev with
  | BeginRenderPass _ _ _ clear loadOp storeOp =>
      clear = clearValue ∧ loadOp = "clear" ∧ storeOp = "store"
  | CreateBuffer _ size usage =>
      size = 192 ∧ usage = Z.lor UNIFORM COPY_DST
  | WriteBuffer _ bufferOffset data =>
      bufferOffset = 0 ∧ length data = 48%nat
  | CreateBindGroup _ _ layoutIndex binding _ =>
      layoutIndex = 0 ∧ binding = 0
  | SetBindGroup _ index _ => index = 0
  | SetVertexBuffer _ slot _ => slot = 0
  | SetIndexBuffer _ _ indexFormat => indexFormat = "uint16"
  | CreateShaderModule _ code =>
      code = Engine.vs_code ∨ code = Engine.fs_code
  | CreateRenderPipeline _ desc =>
      desc_layout desc = "auto"
      ∧ primitive_topology desc = "triangle-list"
      ∧ primitive_cullMode desc = "back"
      ∧ vertex_arrayStride desc = 28
  | _ => True
  end.

End Protocol.

(** ** The pipeline cache of the engine *)

Module Cache.
Import Engine.

(** The key under which the engine caches its pipeline. *)
Definition key_of (w : World) : string :=
  "basic_" +:+ preferredCanvasFormat w.

(** Every entry sits under the key of the format its pipeline draws to. *)
Definition keyed_by_format (pm : PipelineManager.t) : Prop :=
  ∀ k p, PipelineManager.pipelines pm !! k = Some p →
         k = "basic_" +:+ fragment_target_format (pipeline_descriptor p).

(** How a stretch of a run treats the cache; [drawn] tells whether a camera
    is rendered in the stretch. *)
Definition cache_step (e : t) (w : World) (e' : t) (w' : World)
  (drawn : bool) : Prop :=
  let pm := pipelineManager e in
  let pm' := pipelineManager e' in
  Startup.same_identity e e'
  ∧ preferredCanvasFormat w' = preferredCanvasFormat w
  ∧ (∀ k, k ≠ key_of w →
        PipelineManager.pipelines pm' !! k = PipelineManager.pipelines pm !! k)
  ∧ (is_Some (PipelineManager.pipelines pm !! key_of w) → pm' = pm)
  ∧ (drawn = true → is_Some (PipelineManager.pipelines pm' !! key_of w))
  ∧ (drawn = false → pm' = pm)
  ∧ (callbacks w' + size (PipelineManager.pipelines pm)
     = callbacks w + size (PipelineManager.pipelines pm'))%nat
  ∧ (length (Trace.created_pipelines (log (gpu w')))
     + size (PipelineManager.pipelines pm)
     = length (Trace.created_pipelines (log (gpu w)))
       + size (PipelineManager.pipelines pm'))%nat
  ∧ (keyed_by_format pm → keyed_by_format pm').

(** The pipelines a run compiles: how many times it runs the builder. *)
Definition compiled_during (frames : list (CanvasManager * list ICamera))
  (e : t) (w : World) : nat :=
  callbacks (snd (run frames e w)) - callbacks w.

End Cache.

(** ** More observations of a frame *)

Module Watch.
Import Engine Trace.


Definition acquisitions (cs : list Call) : list GPUCanvasContext :=
  omap (λ c, match c with CGetCurrentTexture ctx => Some ctx | _ => None end)
    cs.

Definition uniform_writes (cs : list Call) : list (Z * list Double.t) :=
  omap (λ c, match c with CWriteBuffer off d => Some (off, d) | _ => None end)
    cs.

Definition warnings (cs : list Call) : list string :=
  omap (λ c, match c with CWarn m => Some m | _ => None end) cs.

(** The surface a camera draws to, when it is a registered one. *)
Definition surface_of (cm : CanvasManager) (camera : ICamera)
  : option CanvasContext.t :=
  match target camera with
  | canvas canvasId => getContext canvasId cm
  | texture _ _ _ => None
  end.

Definition aspect_of (cc : CanvasContext.t) : number :=
  (inject_Z (CanvasContext.canvas_width (CanvasContext.canvas cc))
   / inject_Z (CanvasContext.canvas_height (CanvasContext.canvas cc)))%Q.

End Watch.

(** ** More sample data *)

Module Demo2.
Import Engine.

Definition surfaces : CanvasManager :=
  {| contexts := {["main" := Demo.surface0]} |}.


Definition cam_main : ICamera :=
  Demo.camera 4%nat (canvas "main") true 0%Q.

Definition platform_ok : Startup.Navigator :=
  {| Startup.navigator_gpu :=
       Some {| Startup.requestAdapter :=
                 Startup.Fulfilled
                   (Some {| Startup.adapter_handle := 5%nat;
                            Startup.requestDevice :=
                              Startup.Fulfilled 6%nat |}) |} |}.

End Demo2.

(** ** Counting the steps of a frame *)

Module Count.
Import Trace.

Definition is_encoder (c : Call) : bool :=
  match c with CCreateCommandEncoder => true | _ => false end.

Definition is_submit (c : Call) : bool :=
  match c with CSubmit => true | _ => false end.

Definition encoders (cs : list Call) : nat :=
  length (filter (λ c, is_encoder c) cs).

Definition submissions (cs : list Call) : nat :=
  length (filter (λ c, is_submit c) cs).

End Count.

(** ** What a camera adds to the frame *)

Module PerCamera.
Import Engine Trace Watch.


(** The presentation context whose current image is acquired. *)
Definition acquisition_of (cm : CanvasManager) (camera : ICamera)
  : list GPUCanvasContext :=
  match surface_of cm camera with
  | Some cc => [CanvasContext.context cc]
  | None => []
  end.

(** The warning about a canvas target. *)
Definition warning_of (camera : ICamera) : list Call :=
  match target camera with
  | canvas canvasId => [CWarn ("Canvas context not found: " +:+ canvasId)]
  | texture _ _ _ => []
  end.


End PerCamera.

(** ** The calls of a camera outside its render pass *)

Module Outside.
Import Engine Trace Watch.

Definition surface_calls (cm : CanvasManager) (camera : ICamera)
  : list Call :=
  match target camera with
  | canvas canvasId =>
      match getContext canvasId cm with
      | None => [CWarn ("Canvas context not found: " +:+ canvasId)]
      | Some cc =>
          CGetCurrentTexture (CanvasContext.context cc)
          :: (if isPerspective camera
              then [CUpdateAspect (cam_id camera) (aspect_of cc)]
              else [])
      end
  | texture _ _ _ => []
  end.

End Outside.

(** ** A resized surface *)

Module Demo3.
Import Engine.





End Demo3.

(** * Properties *)

(** ** The surface context *)

(** ** IEEE numbers *)

Module DoubleFacts.
Import Double.

(** On the sample doubles the product is the one of the Standard
    Library's specification of IEEE 754 multiplication, and the rounding
    to a single is its rounding to 24 bits. *)
Example mul_agrees_with_SpecFloat :
  forallb (λ a, forallb (λ b,
    strict_eq (mul (of_spec a) (of_spec b))
      (of_spec (SFmul 53 1024 a b))
    || match SFmul 53 1024 a b with S754_nan => true | _ => false end)
    samples) samples = true.
Proof. vm_compute. reflexivity. Qed.

Example fround_agrees_with_SpecFloat :
  forallb (λ a,
    match a, of_spec a with
    | S754_finite s m e, Finite q =>
        strict_eq (fround q)
          (of_spec (binary_normalize 24 128
                      (if s then Z.neg m else Z.pos m) e s))
    | _, _ => true
    end) samples = true.
Proof. vm_compute. reflexivity. Qed.

Lemma Qred_inject_Z (z : Z) : Qred (inject_Z z) = inject_Z z.
Proof. apply Qred_identity. apply Z.gcd_1_r. Qed.

Lemma this_of_Z (z : Z) : this (Q2Qc (inject_Z z)) = inject_Z z.
Proof. apply Qred_inject_Z. Qed.


Lemma strict_eq_eq (a b : t) : strict_eq a b = true → a = b.
Proof.
  destruct a as [|s|p], b as [|s'|q]; cbn; try discriminate.
  - intros H. apply Bool.eqb_prop in H. congruence.
  - intros H. apply Qeq_bool_iff in H. f_equal. apply Qc_is_canon, H.
Qed.

Lemma strict_eq_refl (a : t) : a ≠ NaN → strict_eq a a = true.
Proof.
  destruct a as [|s|p]; cbn; intros H.
  - contradiction.
  - apply Bool.eqb_reflx.
  - apply Qeq_bool_iff. reflexivity.
Qed.

Lemma round_not_NaN prec emin emax q : round prec emin emax q ≠ NaN.
Proof.
  unfold round. destruct (q ?= 0)%Q; [discriminate| |];
    destruct (Qle_bool _ _); discriminate.
Qed.

Lemma floor_mul_not_NaN (p q : Qc) : floor (mul (Finite p) (Finite q)) ≠ NaN.
Proof.
  cbn [mul]. pose proof (round_not_NaN 53 (-1074) 1024 (p * q)) as H.
  unfold round64. destruct (round _ _ _ _); [contradiction| |]; discriminate.
Qed.

Lemma floor_of_Z (z : Z) : floor (of_Z z) = of_Z z.
Proof.
  unfold floor, of_Z. rewrite this_of_Z, Qfloor_Z. reflexivity.
Qed.

(** Powers of two. *)
Lemma pow2_inject (n : Z) : 0 <= n → (2 ^ n == inject_Z (2 ^ n))%Q.
Proof. intros H. rewrite Zpower_Qpower by exact H. reflexivity. Qed.

Lemma round_half_even_Z (s : Q) (n : Z) :
  (s == inject_Z n)%Q → round_half_even s = n.
Proof.
  intros H. unfold round_half_even.
  assert (Qfloor s = n) as -> by (rewrite H; apply Qfloor_Z).
  assert ((s - inject_Z n ?= 1 # 2)%Q = Lt) as ->; [|reflexivity].
  apply Qlt_alt. rewrite H. unfold Qminus. rewrite Qplus_opp_r. reflexivity.
Qed.

Lemma ilog2_inject (p : Z) : 0 < p → ilog2 (inject_Z p) = Z.log2 p.
Proof.
  intros Hp. unfold ilog2. cbn [Qnum Qden inject_Z].
  change (Z.log2 1) with 0. rewrite Z.sub_0_r.
  assert (Qle_bool (2 ^ Z.log2 p)%Q (inject_Z p) = true) as ->; [|reflexivity].
  apply Qle_bool_iff. rewrite pow2_inject by apply Z.log2_nonneg.
  rewrite <- Zle_Qle. apply Z.log2_spec, Hp.
Qed.

Lemma round_pos_integer (p : Z) :
  0 < p < 2 ^ 53 → (round_pos 53 (-1074) (inject_Z p) == inject_Z p)%Q.
Proof.
  intros [Hp Hlt]. unfold round_pos. rewrite ilog2_inject by exact Hp.
  assert (Z.log2 p < 53) as Hl by (apply Z.log2_lt_pow2; lia).
  pose proof (Z.log2_nonneg p) as Hl0.
  set (e := Z.max (Z.log2 p - (53 - 1)) (-1074)).
  assert (e <= 0 ∧ -1074 <= e) as [He He'] by (subst e; lia).
  assert (inject_Z p / 2 ^ e == inject_Z (p * 2 ^ (- e)))%Q as Hs.
  { rewrite inject_Z_mult, <- pow2_inject by lia.
    rewrite Qpower_opp. field. apply Qpower_not_0. discriminate. }
  rewrite (round_half_even_Z _ _ Hs).
  rewrite inject_Z_mult, <- pow2_inject by lia.
  rewrite Qpower_opp. field. apply Qpower_not_0. discriminate.
Qed.

Lemma round64_integer (p : Z) :
  - 2 ^ 53 < p < 2 ^ 53 → round64 (inject_Z p) = of_Z p.
Proof.
  intros [Hlo Hhi]. unfold round64, round.
  assert (2 ^ 53 < 2 ^ 1024)%Q as Hbig by reflexivity.
  destruct (inject_Z p ?= 0)%Q eqn:E.
  - apply Qeq_alt in E. unfold of_Z. f_equal. apply Q2Qc_eq_iff.
    symmetry. exact E.
  - apply Qlt_alt in E.
    assert (0 < - p < 2 ^ 53) as Hp.
    { split; [|lia]. apply Z.opp_pos_neg.
      change 0%Q with (inject_Z 0) in E. rewrite <- Zlt_Qlt in E. exact E. }
    pose proof (round_pos_integer (- p) Hp) as Hr.
    change (- inject_Z p)%Q with (inject_Z (- p)).
    destruct (Qle_bool _ _) eqn:Eo.
    + exfalso. apply Qle_bool_iff in Eo. rewrite Hr in Eo.
      apply (Qlt_irrefl (2 ^ 1024)). eapply Qle_lt_trans; [exact Eo|].
      eapply Qlt_trans; [|exact Hbig].
      rewrite pow2_inject by lia. rewrite <- Zlt_Qlt. lia.
    + unfold of_Z. f_equal. apply Q2Qc_eq_iff. rewrite Hr.
      rewrite inject_Z_opp. ring.
  - apply Qgt_alt in E.
    assert (0 < p < 2 ^ 53) as Hp.
    { split; [|lia].
      change 0%Q with (inject_Z 0) in E. rewrite <- Zlt_Qlt in E. exact E. }
    pose proof (round_pos_integer p Hp) as Hr.
    destruct (Qle_bool _ _) eqn:Eo.
    + exfalso. apply Qle_bool_iff in Eo. rewrite Hr in Eo.
      apply (Qlt_irrefl (2 ^ 1024)). eapply Qle_lt_trans; [exact Eo|].
      eapply Qlt_trans; [|exact Hbig].
      rewrite pow2_inject by lia. rewrite <- Zlt_Qlt. lia.
    + unfold of_Z. f_equal. apply Q2Qc_eq_iff. exact Hr.
Qed.

Lemma mul_of_Z (a b : Z) :
  - 2 ^ 53 < a * b < 2 ^ 53 → mul (of_Z a) (of_Z b) = of_Z (a * b).
Proof.
  intros H. unfold mul, of_Z. rewrite !this_of_Z.
  change (inject_Z a * inject_Z b)%Q with (inject_Z (a * b)).
  apply round64_integer, H.
Qed.


(** *** How far a rounded product is from the exact one *)

Lemma pow2_pos (e : Z) : (0 < 2 ^ e)%Q.
Proof. apply Qpower_0_lt. reflexivity. Qed.

Lemma ilog2_le (q : Q) : (0 < q)%Q → (2 ^ ilog2 q <= q)%Q.
Proof.
  intros Hq. unfold ilog2.
  destruct (Qle_bool _ q) eqn:E; [apply Qle_bool_iff, E|]. clear E.
  destruct q as [n d]. cbn [Qnum Qden].
  assert (0 < n) as Hn by (unfold Qlt in Hq; cbn in Hq; lia).
  pose proof (Z.log2_nonneg n) as Ha.
  pose proof (Z.log2_nonneg (Z.pos d)) as Hb.
  pose proof (Z.log2_spec n Hn) as [Hn1 _].
  pose proof (Z.log2_spec (Z.pos d) (Pos2Z.is_pos d)) as [_ Hd2].
  set (a := Z.log2 n) in *. set (b := Z.log2 (Z.pos d)) in *.
  change (Z.succ b) with (b + 1) in Hd2.
  replace (a - b - 1) with (a - (b + 1)) by lia.
  rewrite Qpower_minus by discriminate.
  rewrite !pow2_inject by lia. rewrite Qmake_Qdiv.
  assert (0 < 2 ^ a ∧ 0 < 2 ^ (b + 1)) as [HA HB]
    by (split; apply Z.pow_pos_nonneg; lia).
  apply Qle_shift_div_l.
  { change 0%Q with (inject_Z 0). rewrite <- Zlt_Qlt. lia. }
  assert (inject_Z (2 ^ a) / inject_Z (2 ^ (b + 1)) * inject_Z (Z.pos d)
          == inject_Z (2 ^ a) * inject_Z (Z.pos d) / inject_Z (2 ^ (b + 1)))%Q
    as ->.
  { field. intros H. unfold Qeq in H. cbn [Qnum Qden inject_Z] in H. lia. }
  apply Qle_shift_div_r.
  { change 0%Q with (inject_Z 0). rewrite <- Zlt_Qlt. lia. }
  rewrite <- !inject_Z_mult, <- Zle_Qle. nia.
Qed.

Lemma ilog2_below (q : Q) (n : Z) :
  (0 < q)%Q → (q < 2 ^ n)%Q → ilog2 q < n.
Proof.
  intros Hq Hlt. apply (Qpower_lt_compat_l_inv 2); [|reflexivity].
  eapply Qle_lt_trans; [apply ilog2_le, Hq | exact Hlt].
Qed.

Lemma round_half_even_ge (s : Q) : Qfloor s <= round_half_even s.
Proof.
  unfold round_half_even.
  destruct (_ ?= _)%Q; [destruct (Z.even _)| |]; lia.
Qed.

Lemma round_half_even_le (s : Q) (y : Z) :
  (s <= inject_Z y)%Q → round_half_even s <= y.
Proof.
  intros Hs.
  assert (Qfloor s <= y) as Hf.
  { rewrite <- (Qfloor_Z y). apply Qfloor_resp_le, Hs. }
  assert ((1 # 2 <= s - inject_Z (Qfloor s))%Q → Qfloor s + 1 <= y) as Hup.
  { intros Hhalf.
    assert (inject_Z (Qfloor s) < inject_Z y)%Q as Hlt.
    { eapply Qlt_le_trans; [|exact Hs].
      apply Qlt_minus_iff. eapply Qlt_le_trans; [|exact Hhalf]. reflexivity. }
    rewrite <- Zlt_Qlt in Hlt. lia. }
  unfold round_half_even.
  destruct (_ ?= _)%Q eqn:E.
  - destruct (Z.even _); [exact Hf|]. apply Hup.
    apply Qeq_alt in E. rewrite E. apply Qle_refl.
  - exact Hf.
  - apply Hup. apply Qgt_alt in E. apply Qlt_le_weak, E.
Qed.

Lemma round_pos_between (q : Q) (x y : Z) :
  (0 < q)%Q → (q < 2 ^ 53)%Q → (inject_Z x <= q)%Q → (q <= inject_Z y)%Q →
  (inject_Z x <= round_pos 53 (-1074) q)%Q
  ∧ (round_pos 53 (-1074) q <= inject_Z y)%Q.
Proof.
  intros Hq Hlt Hx Hy. unfold round_pos.
  pose proof (ilog2_below q 53 Hq Hlt) as Hl.
  set (e := Z.max (ilog2 q - (53 - 1)) (-1074)).
  assert (e <= 0) as He by (subst e; lia).
  assert (2 ^ e == / inject_Z (2 ^ (- e)))%Q as Hpow.
  { rewrite <- pow2_inject by lia. rewrite Qpower_opp.
    rewrite Qinv_involutive. reflexivity. }
  assert (0 < inject_Z (2 ^ (- e)))%Q as Hk.
  { rewrite <- pow2_inject by lia. apply pow2_pos. }
  assert (q / 2 ^ e == q * inject_Z (2 ^ (- e)))%Q as Hs.
  { rewrite Hpow. field. intros H. rewrite H in Hk. discriminate Hk. }
  pose proof (round_half_even_ge (q / 2 ^ e)) as Hge.
  pose proof (round_half_even_le (q / 2 ^ e) (y * 2 ^ (- e))) as Hle.
  set (m := round_half_even (q / 2 ^ e)) in *.
  rewrite Hpow. split.
  - apply Qle_shift_div_l; [exact Hk|].
    rewrite <- inject_Z_mult, <- Zle_Qle.
    etransitivity; [|exact Hge].
    rewrite <- (Qfloor_Z (x * 2 ^ (- e))). apply Qfloor_resp_le.
    rewrite Hs, inject_Z_mult. apply Qmult_le_compat_r; [exact Hx|].
    apply Qlt_le_weak, Hk.
  - apply Qle_shift_div_r; [exact Hk|].
    rewrite <- inject_Z_mult, <- Zle_Qle.
    apply Hle.
    rewrite Hs, inject_Z_mult. apply Qmult_le_compat_r; [exact Hy|].
    apply Qlt_le_weak, Hk.
Qed.

Lemma Qfloor_Q2Qc (q : Q) : Qfloor (Q2Qc q) = Qfloor q.
Proof. cbn [this Q2Qc]. apply Qfloor_comp, Qred_correct. Qed.

(** Below [2 ^ 53] the floor of a rounded number is the floor of the
    exact one, or one more. *)
Lemma floor_round64_near (q : Q) :
  (0 <= q)%Q → (q < 2 ^ 53)%Q →
  ∃ s, floor (round64 q) = of_Z s ∧ Qfloor q <= s <= Qfloor q + 1.
Proof.
  intros H0 Hlt. unfold round64, round.
  destruct (q ?= 0)%Q eqn:E.
  - apply Qeq_alt in E. exists 0. split; [reflexivity|].
    rewrite (Qfloor_comp _ _ E). change (Qfloor 0) with 0. lia.
  - apply Qlt_alt in E. exfalso. apply (Qlt_irrefl 0).
    eapply Qle_lt_trans; [exact H0 | exact E].
  - apply Qgt_alt in E.
    destruct (round_pos_between q (Qfloor q) (Qfloor q + 1) E Hlt
                (Qfloor_le q) (Qlt_le_weak _ _ (Qlt_floor q))) as [Hlo Hhi].
    set (r := round_pos 53 (-1074) q) in *.
    assert (Qfloor q < 2 ^ 53) as Hf.
    { rewrite Zlt_Qlt. eapply Qle_lt_trans; [apply Qfloor_le|].
      rewrite <- pow2_inject by lia. exact Hlt. }
    destruct (Qle_bool _ r) eqn:Eo.
    + exfalso. apply Qle_bool_iff in Eo.
      apply (Qlt_irrefl (2 ^ 1024)).
      eapply Qle_lt_trans; [exact Eo|].
      eapply Qle_lt_trans; [exact Hhi|].
      assert (2 ^ 53 < 2 ^ 1024)%Q as Hbig by reflexivity.
      eapply Qle_lt_trans; [|exact Hbig].
      rewrite pow2_inject by lia. rewrite <- Zle_Qle. lia.
    + exists (Qfloor r). split.
      * cbn [floor]. rewrite Qfloor_Q2Qc. reflexivity.
      * split.
        -- rewrite <- (Qfloor_Z (Qfloor q)). apply Qfloor_resp_le, Hlo.
        -- rewrite <- (Qfloor_Z (Qfloor q + 1)). apply Qfloor_resp_le, Hhi.
Qed.

Lemma floor_mul_near (z : Z) (r : Q) :
  0 <= z → (0 <= r)%Q → (inject_Z z * r < 2 ^ 53)%Q →
  ∃ s, floor (mul (of_Z z) (of_number r)) = of_Z s
       ∧ Qfloor (inject_Z z * r) <= s <= Qfloor (inject_Z z * r) + 1.
Proof.
  intros Hz Hr Hlt. unfold mul, of_Z, of_number.
  set (q := (this (Q2Qc (inject_Z z)) * this (Q2Qc r))%Q).
  assert (q == inject_Z z * r)%Q as Hq.
  { subst q. cbn [this Q2Qc]. rewrite !Qred_correct. reflexivity. }
  destruct (floor_round64_near q) as (s & Hs & Hb).
  - rewrite Hq. apply Qmult_le_0_compat; [|exact Hr].
    change 0%Q with (inject_Z 0). rewrite <- Zle_Qle. exact Hz.
  - rewrite Hq. exact Hlt.
  - exists s. split; [exact Hs|].
    rewrite <- (Qfloor_comp _ _ Hq). exact Hb.
Qed.

End DoubleFacts.

(** ** The surface context *)

Module CanvasContextFacts.
Import CanvasContext Surface.

Lemma or_else_nonzero (a b : number) : ¬ (a == 0)%Q → or_else a b = a.
Proof.
  intros Ha. unfold or_else.
  destruct (Qeq_bool a 0) eqn:E; [|reflexivity].
  apply Qeq_bool_iff in E. contradiction.
Qed.

Lemma updateSize_cases (win : Window) (c : t) :
  updateSize win c =
    if size_eqb (size c) (effectiveSize win c) then (c, [])
    else resize (width (effectiveSize win c))
                (height (effectiveSize win c)) c.
Proof. reflexivity. Qed.

Lemma size_eqb_eq (a b : Size) : size_eqb a b = true → a = b.
Proof.
  destruct a as [aw ah], b as [bw bh]. unfold size_eqb; simpl.
  rewrite andb_true_iff. intros [Hw Hh].
  apply DoubleFacts.strict_eq_eq in Hw, Hh. congruence.
Qed.

(** The size computed from a layout is never [NaN]: it equals itself. *)
Lemma effectiveSize_eqb (win : Window) (c : t) :
  size_eqb (effectiveSize win c) (effectiveSize win c) = true.
Proof.
  unfold size_eqb, effectiveSize, Math_floor, Double.of_Z, Double.of_number.
  cbn [width height].
  rewrite !DoubleFacts.strict_eq_refl by apply DoubleFacts.floor_mul_not_NaN.
  reflexivity.
Qed.

Lemma reconfigurations_resize (w h : Double.t) (c : t)
  (rest : list SurfaceEvent) :
  reconfigurations (snd (resize w h c) ++ rest) = S (reconfigurations rest).
Proof.
  simpl. destruct (decide _) as [_|Hne]; [|contradiction].
  destruct rest; reflexivity.
Qed.

Lemma reconfigurations_updateSize (win : Window) (c : t)
  (rest : list SurfaceEvent) :
  reconfigurations (snd (updateSize win c) ++ rest) =
    ((if size_eqb (size c) (effectiveSize win c) then 0 else 1)
     + reconfigurations rest)%nat.
Proof.
  rewrite updateSize_cases.
  destruct (size_eqb _ _); [reflexivity|].
  apply reconfigurations_resize.
Qed.

Lemma resize_size (w h : Double.t) (c : t) :
  size (fst (resize w h c)) = {| width := w; height := h |}.
Proof. reflexivity. Qed.

Lemma updateSizes_cons (l : Layout) (ls : list Layout) (c : t) :
  updateSizes (l :: ls) c =
    (fst (updateSizes ls (fst (updateSize (window_of l) (relayout l c)))),
     snd (updateSize (window_of l) (relayout l c))
     ++ snd (updateSizes ls (fst (updateSize (window_of l) (relayout l c))))).
Proof.
  simpl. destruct (updateSize _ _) as [c1 ev1]. simpl.
  destruct (updateSizes ls c1) as [c2 ev2]. reflexivity.
Qed.

(** C4.  In a run of [updateSize] calls the presentation chain is
    reconfigured once for each call whose computed size, the floor of the
    displayed size times the pixel density, differs from the stored size,
    and not at all for the other calls; a call with an unchanged size
    returns the surface as it was and issues no call at all. *)
Theorem updateSize_reconfigures_once_per_change
  (ls : list Layout) (c : t) (win : Window) :
  reconfigurations (snd (updateSizes ls c)) = changing_calls ls c
  ∧ (if size_eqb (size c) (effectiveSize win c)
     then updateSize win c = (c, [])
     else reconfigurations (snd (updateSize win c)) = 1%nat
          ∧ snd (updateSize win c)
            = [ESetCanvasWidth (canvas_id (canvas c))
                 (width (effectiveSize win c));
               ESetCanvasHeight (canvas_id (canvas c))
                 (height (effectiveSize win c))]).
Proof.
  split.
  - revert c. induction ls as [|l ls IH]; intros c; [reflexivity|].
    rewrite updateSizes_cons. cbn [snd changing_calls].
    rewrite reconfigurations_updateSize, IH. reflexivity.
  - rewrite updateSize_cases.
    destruct (size_eqb _ _); [reflexivity|]. split.
    + rewrite <- (app_nil_r (snd _)). apply reconfigurations_resize.
    + reflexivity.
Qed.

(** C5.  After [updateSize] the stored size is, in width and in height,
    the floor of the displayed size times the pixel density the call read
    ([window.devicePixelRatio], or 1 when that is falsy), the product
    being the one of doubles: the double nearest to the exact product. *)
Theorem updateSize_stores_floor_of_scaled_size (win : Window) (c : t) :
  width (size (fst (updateSize win c)))
    = Math_floor
        (Double.mul (Double.of_Z (clientWidth (canvas c)))
           (Double.of_number (or_else (devicePixelRatio win) 1%Q)))
  ∧ height (size (fst (updateSize win c)))
    = Math_floor
        (Double.mul (Double.of_Z (clientHeight (canvas c)))
           (Double.of_number (or_else (devicePixelRatio win) 1%Q))).
Proof.
  rewrite updateSize_cases.
  destruct (size_eqb _ _) eqn:E.
  - apply size_eqb_eq in E. cbn [fst]. rewrite E. split; reflexivity.
  - split; reflexivity.
Qed.

(** The double nearest to 1.2, the pixel density of a display scaled to
    120 %. *)
Example density_120_percent :
  Double.strict_eq (Double.round64 (12 # 10))
    (Double.of_number (5404319552844595 # 4503599627370496)) = true.
Proof. vm_compute. reflexivity. Qed.

(** A surface displayed at 800×600 with that density stores 960×720 and
    gives the canvas this backing size: the exact product of 800 and the
    density is below 960, the product of doubles is 960. *)
Example surface_800x600_density_120_percent :
  let l := Demo.layout 800 600 (5404319552844595 # 4503599627370496) in
  let c1 := fst (updateSize (window_of l) (relayout l Demo.surface0)) in
  size_eqb (size c1)
    {| width := Double.of_Z 960; height := Double.of_Z 720 |} = true
  ∧ canvas_width (canvas c1) = 960 ∧ canvas_height (canvas c1) = 720
  ∧ Qfloor (800 * (5404319552844595 # 4503599627370496)) = 959.
Proof. vm_compute. repeat split; reflexivity. Qed.

(** *** Pixel counts *)

Lemma truncate_Z (z : Z) : Double.truncate (inject_Z z) = z.
Proof.
  unfold Double.truncate.
  destruct (Qle_bool 0 (inject_Z z)); [apply Qfloor_Z | apply Qceiling_Z].
Qed.

Lemma is_pixel_count_of_Z (z : Z) :
  0 <= z <= 2147483647 → is_pixel_count (Double.of_Z z) = true.
Proof.
  intros [H0 H1]. unfold is_pixel_count, Double.of_Z.
  rewrite DoubleFacts.this_of_Z, Qfloor_Z.
  rewrite !andb_true_iff. repeat split.
  - apply Qeq_bool_iff. reflexivity.
  - apply Z.leb_le, H0.
  - apply Z.leb_le, H1.
Qed.

Lemma is_pixel_count_inv (v : Double.t) :
  is_pixel_count v = true → ∃ z, 0 <= z <= 2147483647 ∧ v = Double.of_Z z.
Proof.
  destruct v as [| |q]; cbn [is_pixel_count]; try discriminate.
  rewrite !andb_true_iff. intros [[Hq H0] H1].
  apply Qeq_bool_iff in Hq. apply Z.leb_le in H0, H1.
  exists (Qfloor q). split; [lia|].
  unfold Double.of_Z. f_equal. apply Qc_is_canon.
  cbn [this Q2Qc]. rewrite Qred_correct. exact Hq.
Qed.

Lemma reflected_of_Z (default z : Z) :
  0 <= z <= 2147483647 → reflected default (Double.of_Z z) = z.
Proof.
  intros H. unfold reflected, to_unsigned_long, Double.of_Z.
  rewrite DoubleFacts.this_of_Z, truncate_Z.
  rewrite Z.mod_small by lia.
  destruct (z <=? 2147483647) eqn:E; [reflexivity|].
  apply Z.leb_gt in E. lia.
Qed.

Lemma reflected_range (default : Z) (v : Double.t) :
  0 <= default <= 2147483647 → 0 <= reflected default v <= 2147483647.
Proof.
  intros Hd. unfold reflected.
  assert (0 <= to_unsigned_long v) as H0.
  { destruct v; cbn [to_unsigned_long]; [lia|lia|].
    apply Z.mod_pos_bound. lia. }
  destruct (to_unsigned_long v <=? 2147483647) eqn:E; [|exact Hd].
  apply Z.leb_le in E. lia.
Qed.

(** The canvas holds the number assigned to it exactly when the number
    is a pixel count. *)
Lemma reflected_keeps_iff (default : Z) (v : Double.t) :
  0 <= default <= 2147483647 →
  v = Double.of_Z (reflected default v) ↔ is_pixel_count v = true.
Proof.
  intros Hd. split.
  - intros ->. apply is_pixel_count_of_Z, reflected_range, Hd.
  - intros H. apply is_pixel_count_inv in H as (z & Hz & ->).
    rewrite reflected_of_Z by exact Hz. reflexivity.
Qed.

Lemma resize_matches_iff (w h : Double.t) (c : t) :
  size_matches_canvas (fst (resize w h c))
  ↔ is_pixel_count w = true ∧ is_pixel_count h = true.
Proof.
  unfold size_matches_canvas. cbn.
  rewrite (reflected_keeps_iff 300 w), (reflected_keeps_iff 150 h) by lia.
  reflexivity.
Qed.


Lemma updateSize_matches (win : Window) (c : t) :
  is_pixel_count (width (effectiveSize win c)) = true →
  is_pixel_count (height (effectiveSize win c)) = true →
  size_matches_canvas c → size_matches_canvas (fst (updateSize win c)).
Proof.
  intros Hw Hh H. rewrite updateSize_cases.
  destruct (size_eqb _ _); [exact H|].
  apply resize_matches_iff. split; assumption.
Qed.






(** [updateSize] never calls [context.configure]: the constructor is the
    only caller of [configure]. *)
Lemma updateSizes_never_configure (ls : list Layout) (c : t) :
  Forall (λ ev, is_configure ev = false) (snd (updateSizes ls c)).
Proof.
  revert c. induction ls as [|l ls IH]; intros c; [constructor|].
  rewrite updateSizes_cons. cbn [snd]. apply Forall_app. split; [|apply IH].
  rewrite updateSize_cases. destruct (size_eqb _ _); cbn [snd resize].
  - constructor.
  - repeat constructor.
Qed.

(** A surface displayed at 800×600 with pixel density 2 gets the backing
    size 1600×1200; laid out again at 801×600 it is reconfigured once, to
    1602×1200; calls in between that find the size unchanged do nothing. *)
Example surface_800x600_density_2 :
  let c1 := fst (updateSize (window_of (Demo.layout 800 600 2%Q))
                   (relayout (Demo.layout 800 600 2%Q) Demo.surface0)) in
  size_eqb (size c1)
    {| width := Double.of_Z 1600; height := Double.of_Z 1200 |} = true
  ∧ canvas_width (canvas c1) = 1600 ∧ canvas_height (canvas c1) = 1200
  ∧ reconfigurations
      (snd (updateSize (window_of (Demo.layout 801 600 2%Q))
              (relayout (Demo.layout 801 600 2%Q) c1))) = 1%nat
  ∧ reconfigurations
      (snd (updateSizes [Demo.layout 800 600 2%Q; Demo.layout 800 600 2%Q;
                         Demo.layout 801 600 2%Q; Demo.layout 801 600 2%Q]
              Demo.surface0)) = 2%nat.
Proof. vm_compute. repeat split; reflexivity. Qed.

End CanvasContextFacts.

(** ** Running the monads *)

Lemma bind_run {A B} (m : M A) (k : A -> M B) (w : World) :
    bind m k w = k (fst (m w)) (snd (m w)).
Proof. unfold bind. destruct (m w). reflexivity. Qed.

Lemma pbind_run {A B} (m : P A) (k : A -> P B) (p : Platform) :
    pbind m k p = k (fst (m p)) (snd (m p)).
Proof. unfold pbind. destruct (m p). reflexivity. Qed.

Lemma lift_run {A} (m : P A) (w : World) :
    lift m w = (fst (m (gpu w)), with_gpu (snd (m (gpu w))) w).
Proof. unfold lift. destruct (m (gpu w)). reflexivity. Qed.

Lemma invoke_run {A} (f : P A) (w : World) :
    invoke f w =
      (fst (f (gpu w)),
       {| clock := clock w; ticks := ticks w; callbacks := S (callbacks w);
          preferredCanvasFormat := preferredCanvasFormat w;
          gpu := snd (f (gpu w)) |}).
Proof. unfold invoke. destruct (f (gpu w)). reflexivity. Qed.

(** ** The pipeline cache *)

Module PipelineManagerFacts.
Import PipelineManager.

Lemma getOrCreate_hit (key : string) (builder : P GPURenderPipelineDescriptor)
  (pm : t) (w : World) (p : GPURenderPipeline) :
  pipelines pm !! key = Some p →
  getOrCreate key builder pm w = ((p, pm), w).
Proof. intros H. unfold getOrCreate. rewrite H. reflexivity. Qed.

Lemma getOrCreate_miss (key : string) (builder : P GPURenderPipelineDescriptor)
  (pm : t) (w : World) :
  pipelines pm !! key = None →
  getOrCreate key builder pm w =
    let built := invoke builder w in
    let made := lift (createRenderPipeline (fst built)) (snd built) in
    ((fst made,
      {| device := device pm;
         pipelines := <[key := fst made]> (pipelines pm) |}),
     snd made).
Proof.
  intros H. unfold getOrCreate. rewrite H.
  rewrite !bind_run. reflexivity.
Qed.

(** C3.  Two [getOrCreate] calls with the same key and builder, the first
    one missing the cache: the builder runs once, on the first call; what
    is built from its descriptor is stored under the key; the second call
    returns the same pipeline and leaves the cache and the world as they
    were, so that nothing is compiled again. *)
Theorem getOrCreate_builds_once
  (key : string) (builder : P GPURenderPipelineDescriptor)
  (pm : t) (w : World) :
  pipelines pm !! key = None →
  let r1 := getOrCreate key builder pm w in
  let r2 := getOrCreate key builder (snd (fst r1)) (snd r1) in
  callbacks (snd r1) = S (callbacks w)
  ∧ callbacks (snd r2) = S (callbacks w)
  ∧ pipeline_descriptor (fst (fst r1)) = fst (builder (gpu w))
  ∧ pipelines (snd (fst r1)) !! key = Some (fst (fst r1))
  ∧ fst (fst r2) = fst (fst r1)
  ∧ r2 = (fst r1, snd r1).
Proof.
  intros Hmiss r1 r2.
  assert (pipelines (snd (fst r1)) !! key = Some (fst (fst r1))) as Hstored.
  { subst r1. rewrite (getOrCreate_miss _ _ _ _ Hmiss). cbn.
    apply lookup_insert_eq. }
  assert (r2 = (fst r1, snd r1)) as Hhit.
  { subst r2. rewrite (getOrCreate_hit _ _ _ _ _ Hstored).
    destruct (fst r1). reflexivity. }
  assert (callbacks (snd r1) = S (callbacks w)) as Hcalls.
  { subst r1. rewrite (getOrCreate_miss _ _ _ _ Hmiss).
    cbn. rewrite ?invoke_run, ?lift_run. reflexivity. }
  repeat split.
  - exact Hcalls.
  - rewrite Hhit. exact Hcalls.
  - subst r1. rewrite (getOrCreate_miss _ _ _ _ Hmiss).
    cbn. rewrite ?invoke_run, ?lift_run. reflexivity.
  - exact Hstored.
  - rewrite Hhit. reflexivity.
  - exact Hhit.
Qed.

Lemma getOrCreate_builds_once_witness :
  let builder := Engine._createRenderPipelineDescriptor "bgra8unorm" in
  let r1 := getOrCreate "basic_bgra8unorm" builder (constructor 0%nat)
              Demo.world0 in
  let r2 := getOrCreate "basic_bgra8unorm" builder (snd (fst r1)) (snd r1) in
  callbacks (snd r1) = S (callbacks Demo.world0)
  ∧ callbacks (snd r2) = S (callbacks Demo.world0)
  ∧ pipeline_descriptor (fst (fst r1)) = fst (builder (gpu Demo.world0))
  ∧ pipelines (snd (fst r1)) !! "basic_bgra8unorm" = Some (fst (fst r1))
  ∧ fst (fst r2) = fst (fst r1)
  ∧ r2 = (fst r1, snd r1).
Proof.
  apply (getOrCreate_builds_once "basic_bgra8unorm"
           (Engine._createRenderPipelineDescriptor "bgra8unorm")
           (constructor 0%nat) Demo.world0).
  reflexivity.
Defined.

(** A hit leaves the log as it is: no pipeline is created. *)
Lemma getOrCreate_hit_creates_nothing (key : string)
  (builder : P GPURenderPipelineDescriptor) (pm : t) (w : World) :
  is_Some (pipelines pm !! key) →
  log (gpu (snd (getOrCreate key builder pm w))) = log (gpu w)
  ∧ callbacks (snd (getOrCreate key builder pm w)) = callbacks w.
Proof.
  intros [p Hp]. rewrite (getOrCreate_hit _ _ _ _ _ Hp). split; reflexivity.
Qed.

End PipelineManagerFacts.

(** ** The frame *)

Module EngineFacts.
Import Engine Trace.

Section Observed.
Context {O : Type} (f : GpuEvent → option O).

Lemma observed_forEach {A} (body : A → P unit) (g : A → list O) :
  (∀ x p, omap f (log (snd (body x p))) = omap f (log p) ++ g x) →
  ∀ l p, omap f (log (snd (forEach body l p)))
         = omap f (log p) ++ flat_map g l.
Proof.
  intros Hbody. induction l as [|x l IH]; intros p.
  - simpl. rewrite app_nil_r. reflexivity.
  - cbn [forEach flat_map]. rewrite pbind_run, IH, Hbody.
    rewrite app_assoc. reflexivity.
Qed.

End Observed.

Ltac run_draw :=
  intros; unfold drawRenderable, createBindGroup;
  rewrite ?pbind_run; destruct (indexBuffer _);
  rewrite ?pbind_run; simpl;
  rewrite ?omap_app; simpl; rewrite <- ?app_assoc; reflexivity.

Lemma drawRenderable_calls pipeline ub pass view projection r p :
  calls (log (snd (drawRenderable pipeline ub pass view projection r p)))
  = calls (log p) ++ renderable_calls view projection r.
Proof.
  unfold calls, renderable_calls, draw_calls_of, uniformData. run_draw.
Qed.

Lemma drawRenderable_writes pipeline ub pass view projection r p :
  written_buffers
    (log (snd (drawRenderable pipeline ub pass view projection r p)))
  = written_buffers (log p) ++ [ub].
Proof. unfold written_buffers. run_draw. Qed.

Lemma drawRenderable_creates pipeline ub pass view projection r p :
  created_buffers
    (log (snd (drawRenderable pipeline ub pass view projection r p)))
  = created_buffers (log p) ++ [].
Proof. unfold created_buffers. run_draw. Qed.

Lemma flat_map_const {A B} (l : list A) (b : B) :
  flat_map (λ _, [b]) l = replicate (length l) b.
Proof. induction l as [|x l IH]; simpl; [|rewrite IH]; reflexivity. Qed.

Lemma flat_map_nil {A B} (l : list A) :
  flat_map (λ _, @nil B) l = [].
Proof. induction l as [|x l IH]; simpl; [|rewrite IH]; reflexivity. Qed.

Lemma forEach_draw_calls pipeline ub pass view projection l p :
  calls (log (snd (forEach (drawRenderable pipeline ub pass view projection)
                     l p)))
  = calls (log p) ++ flat_map (renderable_calls view projection) l.
Proof.
  apply (observed_forEach erase). intros. apply drawRenderable_calls.
Qed.

Lemma forEach_draw_writes pipeline ub pass view projection l p :
  written_buffers
    (log (snd (forEach (drawRenderable pipeline ub pass view projection)
                 l p)))
  = written_buffers (log p) ++ replicate (length l) ub.
Proof.
  rewrite <- flat_map_const.
  apply (observed_forEach _ _ (λ _, [ub])).
  intros. apply drawRenderable_writes.
Qed.

Lemma forEach_draw_creates pipeline ub pass view projection l p :
  created_buffers
    (log (snd (forEach (drawRenderable pipeline ub pass view projection)
                 l p)))
  = created_buffers (log p).
Proof.
  transitivity (created_buffers (log p) ++ flat_map (λ _, []) l).
  - apply (observed_forEach _ _ (λ _, [])).
    intros. apply drawRenderable_creates.
  - rewrite flat_map_nil, app_nil_r. reflexivity.
Qed.

Lemma calls_app a b : calls (a ++ b) = calls a ++ calls b.
Proof. apply omap_app. Qed.
Lemma written_buffers_app a b :
  written_buffers (a ++ b) = written_buffers a ++ written_buffers b.
Proof. apply omap_app. Qed.
Lemma created_buffers_app a b :
  created_buffers (a ++ b) = created_buffers a ++ created_buffers b.
Proof. apply omap_app. Qed.

Lemma emit_log ev p : log (snd (emit ev p)) = log p ++ [ev].
Proof. reflexivity. Qed.
Lemma emit_fresh ev p : fresh (snd (emit ev p)) = fresh p.
Proof. reflexivity. Qed.
Lemma beginRenderPass_log enc view p :
  log (snd (beginRenderPass enc view p))
  = log p ++ [BeginRenderPass enc (fresh p) view clearValue "clear" "store"].
Proof. reflexivity. Qed.
Lemma beginRenderPass_fst enc view p :
  fst (beginRenderPass enc view p) = fresh p.
Proof. reflexivity. Qed.
Lemma createBuffer_log size usage p :
  log (snd (createBuffer size usage p))
  = log p ++ [CreateBuffer (fresh p) size usage].
Proof. reflexivity. Qed.
Lemma createBuffer_fst size usage p :
  fst (createBuffer size usage p) = fresh p.
Proof. reflexivity. Qed.
Lemma createRenderPipeline_log desc p :
  log (snd (createRenderPipeline desc p))
  = log p ++ [CreateRenderPipeline (fresh p) desc].
Proof. reflexivity. Qed.
Lemma createDescriptor_log format p :
  log (snd (_createRenderPipelineDescriptor format p))
  = log p ++ [CreateShaderModule (fresh p) vs_code;
              CreateShaderModule (S (fresh p)) fs_code].
Proof.
  unfold _createRenderPipelineDescriptor, createShaderModule.
  rewrite ?pbind_run. simpl. rewrite <- app_assoc. reflexivity.
Qed.

Create Rewrite HintDb frame.
#[local] Hint Rewrite emit_log beginRenderPass_log beginRenderPass_fst
  createBuffer_log createBuffer_fst createRenderPipeline_log
  createDescriptor_log
  forEach_draw_calls forEach_draw_writes forEach_draw_creates
  calls_app written_buffers_app created_buffers_app : frame.

Ltac run_M :=
  repeat (first [ rewrite bind_run | rewrite lift_run
                | rewrite invoke_run | rewrite pbind_run ];
          cbn beta iota; cbn [fst snd ret]).

Ltac run_state :=
  unfold ret;
  cbn [fst snd gpu with_gpu clock ticks preferredCanvasFormat callbacks
       _uniformBuffer canvasManager _lastFrameTime pipelineManager
       set_pipelineManager set_uniformBuffer set_lastFrameTime].

Ltac close_log :=
  cbn [gpu with_gpu fst snd]; autorewrite with frame;
  unfold calls, written_buffers, created_buffers;
  repeat (progress (rewrite ?omap_app; cbn; rewrite <- ?app_assoc));
  rewrite ?app_nil_r; try reflexivity.

Lemma renderResolved_spec camera enc view format e w :
  let r := renderResolved camera enc view format e w in
  ∃ b, _uniformBuffer (fst r) = Some b
    ∧ (∀ b0, _uniformBuffer e = Some b0 → b0 = b)
    ∧ calls (log (gpu (snd r)))
      = calls (log (gpu w)) ++ pass_calls view camera
    ∧ written_buffers (log (gpu (snd r)))
      = written_buffers (log (gpu w))
        ++ replicate (length (renderables (scene camera))) b
    ∧ created_buffers (log (gpu (snd r)))
      = created_buffers (log (gpu w))
        ++ (if _uniformBuffer e is Some _ then [] else [(b, 192, 72)])
    ∧ canvasManager (fst r) = canvasManager e
    ∧ _lastFrameTime (fst r) = _lastFrameTime e
    ∧ clock (snd r) = clock w
    ∧ ticks (snd r) = ticks w
    ∧ preferredCanvasFormat (snd r) = preferredCanvasFormat w.
Proof.
  intros r. subst r. unfold renderResolved.
  remember (_uniformBuffer e) as u eqn:Hu. symmetry in Hu.
  destruct (PipelineManager.pipelines (pipelineManager e)
              !! ("basic_" +:+ format)) eqn:Hp.
  - rewrite bind_run.
    rewrite (PipelineManagerFacts.getOrCreate_hit _ _ _ _ _ Hp).
    cbn [fst snd _uniformBuffer set_pipelineManager].
    rewrite Hu.
    destruct u as [b0|].
    + run_M. run_state.
      exists b0. unfold pass_calls.
      repeat split; try congruence; close_log.
    + run_M. run_state. run_M. run_state.
      eexists. unfold pass_calls.
      repeat split; try congruence; close_log.
  - rewrite bind_run.
    rewrite (PipelineManagerFacts.getOrCreate_miss _ _ _ _ Hp).
    cbn zeta. cbn [fst snd _uniformBuffer set_pipelineManager].
    rewrite Hu.
    destruct u as [b0|].
    + run_M. run_state.
      exists b0. unfold pass_calls.
      repeat split; try congruence; close_log.
    + run_M. run_state. run_M. run_state.
      eexists. unfold pass_calls.
      repeat split; try congruence; close_log.
Qed.

Lemma uniform_step_refl e w : uniform_step e w e w 0 false.
Proof.
  unfold uniform_step.
  split; [tauto|]. split; [tauto|]. split; [discriminate|].
  split; [|split; [tauto|tauto]].
  intros b Hb. rewrite Hb, !app_nil_r. split; reflexivity.
Qed.

Lemma uniform_step_trans e w e1 w1 e2 w2 n1 d1 n2 d2 :
  uniform_step e w e1 w1 n1 d1 →
  uniform_step e1 w1 e2 w2 n2 d2 →
  uniform_step e w e2 w2 (n1 + n2) (d1 || d2).
Proof.
  intros (Ha1 & Hb1 & Hc1 & Hd1 & He1 & Hf1) (Ha2 & Hb2 & Hc2 & Hd2 & He2 & Hf2).
  unfold uniform_step.
  split; [|split; [|split; [|split; [|split]]]]; [| | | | |
    intros Hs; destruct (Hf2 Hs) as [Hs1| ->];
    [destruct (Hf1 Hs1) as [?| ->]; [left; assumption|right; reflexivity]
    |right; apply orb_true_r]].
  all: repeat split.
  - intros b Hb. apply Ha2, Ha1, Hb.
  - destruct (_uniformBuffer e1) as [b1|] eqn:E1.
    + rewrite (Ha2 b1 eq_refl) in H. discriminate.
    + destruct (Hb1 eq_refl) as [-> _], (Hb2 H) as [-> _]. reflexivity.
  - destruct (_uniformBuffer e1) as [b1|] eqn:E1.
    + rewrite (Ha2 b1 eq_refl) in H. discriminate.
    + destruct (Hb1 eq_refl) as [_ ->], (Hb2 H) as [_ ->]. reflexivity.
  - intros Hd. apply orb_true_iff in Hd as [Hd|Hd].
    + destruct (Hc1 Hd) as [b1 E1]. rewrite (Ha2 b1 E1). eauto.
    + apply Hc2, Hd.
  - destruct (_uniformBuffer e1) as [b1|] eqn:E1.
    + pose proof (Ha2 b1 eq_refl) as E2. rewrite E2 in H. injection H as <-.
      destruct (Hd1 b1 eq_refl) as [W1 _], (Hd2 b1 E2) as [W2 _].
      rewrite W2, W1, replicate_add, app_assoc. reflexivity.
    + destruct (Hb1 eq_refl) as [_ ->], (He1 eq_refl) as [W1 _].
      destruct (Hd2 b H) as [W2 _]. rewrite W2, W1. reflexivity.
  - destruct (_uniformBuffer e1) as [b1|] eqn:E1.
    + pose proof (Ha2 b1 eq_refl) as E2. rewrite E2 in H. injection H as <-.
      destruct (Hd1 b1 eq_refl) as [_ C1], (Hd2 b1 E2) as [_ C2].
      rewrite C2, C1, app_nil_r. reflexivity.
    + destruct (He1 eq_refl) as [_ C1], (Hd2 b H) as [_ C2].
      rewrite C2, C1.
      destruct (_uniformBuffer e) as [b0|] eqn:E0; [|reflexivity].
      discriminate (Ha1 b0 eq_refl).
  - destruct (_uniformBuffer e1) as [b1|] eqn:E1.
    + rewrite (Ha2 b1 eq_refl) in H. discriminate.
    + destruct (He1 eq_refl) as [W1 _], (He2 H) as [W2 _].
      rewrite W2, W1. reflexivity.
  - destruct (_uniformBuffer e1) as [b1|] eqn:E1.
    + rewrite (Ha2 b1 eq_refl) in H. discriminate.
    + destruct (He1 eq_refl) as [_ C1], (He2 H) as [_ C2].
      rewrite C2, C1. reflexivity.
Qed.

Lemma uniform_step_quiet e w e' w' :
  _uniformBuffer e' = _uniformBuffer e →
  written_buffers (log (gpu w')) = written_buffers (log (gpu w)) →
  created_buffers (log (gpu w')) = created_buffers (log (gpu w)) →
  uniform_step e w e' w' 0 false.
Proof.
  intros Hu Hw Hc.
  destruct (uniform_step_refl e w) as (Ha & Hb & Hc' & Hd & He & Hf).
  unfold uniform_step. rewrite Hu, Hw, Hc.
  split; [exact Ha|]. split; [exact Hb|]. split; [exact Hc'|].
  split; [exact Hd|]. split; [exact He | exact Hf].
Qed.

Lemma renderResolved_uniform camera enc view format e w w0 :
  written_buffers (log (gpu w)) = written_buffers (log (gpu w0)) →
  created_buffers (log (gpu w)) = created_buffers (log (gpu w0)) →
  let r := renderResolved camera enc view format e w in
  uniform_step e w0 (fst r) (snd r)
    (length (renderables (scene camera))) true.
Proof.
  intros Hw Hc r.
  destruct (renderResolved_spec camera enc view format e w)
    as (b & Hb & Hsame & _ & Hwr & Hcr & _).
  fold r in Hb, Hwr, Hcr. rewrite Hw in Hwr. rewrite Hc in Hcr.
  unfold uniform_step.
  split; [|split; [|split; [|split; [|split]]]].
  - intros b0 Hb0. rewrite Hb. f_equal. symmetry. apply Hsame, Hb0.
  - congruence.
  - eauto.
  - intros b' Hb'. rewrite Hb in Hb'. injection Hb' as <-.
    split; [exact Hwr | exact Hcr].
  - congruence.
  - right. reflexivity.
Qed.

Lemma getPreferredCanvasFormat_run w :
  getPreferredCanvasFormat w = (preferredCanvasFormat w, w).
Proof. reflexivity. Qed.

Lemma renderCamera_spec camera enc e w :
  let r := renderCamera camera enc e w in
  calls (log (gpu (snd r)))
  = calls (log (gpu w)) ++ camera_calls (canvasManager e) camera
  ∧ uniform_step e w (fst r) (snd r)
      (if resolvable (canvasManager e) camera
       then length (renderables (scene camera)) else 0)
      (resolvable (canvasManager e) camera)
  ∧ canvasManager (fst r) = canvasManager e
  ∧ _lastFrameTime (fst r) = _lastFrameTime e
  ∧ clock (snd r) = clock w
  ∧ ticks (snd r) = ticks w
  ∧ preferredCanvasFormat (snd r) = preferredCanvasFormat w.
Proof.
  intros r. subst r. unfold renderCamera, camera_calls, resolvable, getContext.
  destruct (target camera) as [cid|tex tw th].
  - destruct (contexts (canvasManager e) !! cid) as [cc|] eqn:Hc.
    + rewrite bool_decide_eq_true_2 by eauto.
      destruct (isPerspective camera).
      * run_M. rewrite getPreferredCanvasFormat_run. run_M. run_state.
        match goal with
        | |- context [renderResolved ?c ?en ?v ?f ?e0 ?w0] =>
            pose proof (renderResolved_spec c en v f e0 w0)
              as (b & _ & _ & Hcalls & _ & _ & Hcm & Hlt & Hclk & Htk & Hfmt);
            pose proof (renderResolved_uniform c en v f e0 w0 w) as Hstep
        end.
        cbn zeta in Hstep. cbn [scene updateAspect] in Hstep.
        split; [rewrite Hcalls; close_log|].
        split; [apply Hstep; close_log|].
        repeat split; assumption.
      * run_M. rewrite getPreferredCanvasFormat_run. run_M. run_state.
        match goal with
        | |- context [renderResolved ?c ?en ?v ?f ?e0 ?w0] =>
            pose proof (renderResolved_spec c en v f e0 w0)
              as (b & _ & _ & Hcalls & _ & _ & Hcm & Hlt & Hclk & Htk & Hfmt);
            pose proof (renderResolved_uniform c en v f e0 w0 w) as Hstep
        end.
        cbn zeta in Hstep.
        split; [rewrite Hcalls; close_log|].
        split; [apply Hstep; close_log|].
        repeat split; assumption.
    + rewrite bool_decide_eq_false_2 by (intros [? ?]; congruence).
      run_M. run_state.
      split; [close_log|].
      split; [|repeat split; reflexivity].
      apply uniform_step_quiet; [reflexivity|close_log..].
  - run_M. rewrite getPreferredCanvasFormat_run. run_M. run_state.
    match goal with
    | |- context [renderResolved ?c ?en ?v ?f ?e0 ?w0] =>
        pose proof (renderResolved_spec c en v f e0 w0)
          as (b & _ & _ & Hcalls & _ & _ & Hcm & Hlt & Hclk & Htk & Hfmt);
        pose proof (renderResolved_uniform c en v f e0 w0 w) as Hstep
    end.
    cbn zeta in Hstep.
    split; [exact Hcalls|].
    split; [apply Hstep; reflexivity|].
    repeat split; assumption.
Qed.

Lemma forEachCamera_spec cameras enc e w :
  let r := forEachCamera (λ camera e0, renderCamera camera enc e0)
             cameras e w in
  calls (log (gpu (snd r)))
  = calls (log (gpu w)) ++ flat_map (camera_calls (canvasManager e)) cameras
  ∧ uniform_step e w (fst r) (snd r)
      (length (drawn_renderables (canvasManager e) cameras))
      (existsb (resolvable (canvasManager e)) cameras)
  ∧ canvasManager (fst r) = canvasManager e
  ∧ _lastFrameTime (fst r) = _lastFrameTime e
  ∧ clock (snd r) = clock w
  ∧ ticks (snd r) = ticks w
  ∧ preferredCanvasFormat (snd r) = preferredCanvasFormat w.
Proof.
  revert e w. induction cameras as [|camera rest IH]; intros e w r; subst r.
  - cbn. rewrite app_nil_r.
    split; [reflexivity|]. split; [apply uniform_step_refl|].
    repeat split; reflexivity.
  - cbn [forEachCamera]. rewrite bind_run.
    destruct (renderCamera_spec camera enc e w)
      as (Hcalls & Hstep & Hcm & Hlt & Hclk & Htk & Hfmt).
    cbn zeta in Hcalls, Hstep, Hcm, Hlt, Hclk, Htk, Hfmt.
    specialize (IH (fst (renderCamera camera enc e w))
                  (snd (renderCamera camera enc e w))).
    cbn zeta in IH. rewrite Hcm in IH.
    destruct IH as (Hcalls' & Hstep' & Hcm' & Hlt' & Hclk' & Htk' & Hfmt').
    split.
    { rewrite Hcalls', Hcalls. cbn [flat_map].
      rewrite <- app_assoc. reflexivity. }
    split.
    { cbn [existsb]. unfold drawn_renderables. cbn [flat_map].
      rewrite length_app.
      replace (length (if resolvable (canvasManager e) camera
                       then renderables (scene camera) else []))
        with (if resolvable (canvasManager e) camera
              then length (renderables (scene camera)) else 0%nat)
        by (destruct (resolvable _ _); reflexivity).
      eapply uniform_step_trans; [exact Hstep | exact Hstep']. }
    repeat split; congruence.
Qed.

Lemma run_calls_ext frames w1 w2 :
  clock w1 = clock w2 → ticks w1 = ticks w2 →
  run_calls frames w1 = run_calls frames w2.
Proof.
  revert w1 w2. induction frames as [|[cm cameras] rest IH];
    intros w1 w2 Hc Ht; [reflexivity|].
  cbn [run_calls]. unfold frame_calls, update_delta.
  rewrite Hc, Ht. f_equal. apply IH; cbn; congruence.
Qed.

Lemma RenderLoop_spec cameras e w :
  let r := RenderLoop cameras e w in
  calls (log (gpu (snd r)))
  = calls (log (gpu w)) ++ frame_calls (canvasManager e) cameras w
  ∧ uniform_step e w (fst r) (snd r)
      (length (drawn_renderables (canvasManager e) cameras))
      (existsb (resolvable (canvasManager e)) cameras)
  ∧ canvasManager (fst r) = canvasManager e
  ∧ _lastFrameTime (fst r) = clock w (ticks w)
  ∧ clock (snd r) = clock w
  ∧ ticks (snd r) = S (S (ticks w))
  ∧ preferredCanvasFormat (snd r) = preferredCanvasFormat w.
Proof.
  intros r. subst r.
  unfold RenderLoop, beginFrame, buildRenderStack, endFrame,
    createCommandEncoder, performance_now.
  run_M. run_state.
  match goal with
  | |- context [forEachCamera (λ camera e1, renderCamera camera ?enc e1)
                  ?cs ?e0 ?w0] =>
      pose proof (forEachCamera_spec cs enc e0 w0)
        as (Hcalls & Hstep & Hcm & Hlt & Hclk & Htk & Hfmt);
      cbn zeta in Hcalls, Hstep, Hcm, Hlt, Hclk, Htk, Hfmt;
      set (R := forEachCamera _ cs e0 w0) in *
  end.
  clearbody R.
  cbn [gpu with_gpu fst snd clock ticks preferredCanvasFormat
       _lastFrameTime _uniformBuffer canvasManager set_lastFrameTime] in *.
  split.
  { rewrite !emit_log, !calls_app, Hcalls.
    unfold frame_calls, update_delta. close_log. }
  split.
  { match type of Hstep with
    | uniform_step ?e0 ?w0 _ _ _ _ =>
        assert (uniform_step e w e0 w0 0 false) as Hpre
          by (apply uniform_step_quiet; [reflexivity|close_log..])
    end.
    match goal with
    | |- uniform_step _ _ ?e2 ?w2 _ _ =>
        assert (uniform_step (fst R) (snd R) e2 w2 0 false) as Hpost
          by (apply uniform_step_quiet; [reflexivity|close_log..])
    end.
    pose proof (uniform_step_trans _ _ _ _ _ _ _ _ _ _
                  (uniform_step_trans _ _ _ _ _ _ _ _ _ _ Hpre Hstep) Hpost)
      as Hall.
    cbn [Nat.add orb] in Hall.
    rewrite Nat.add_0_r, orb_false_r in Hall. exact Hall. }
  repeat split; try assumption.
Qed.

Lemma run_spec frames e w :
  let r := run frames e w in
  calls (log (gpu (snd r))) = calls (log (gpu w)) ++ run_calls frames w
  ∧ uniform_step e w (fst r) (snd r)
      (length (run_drawn_renderables frames)) (any_drawn frames)
  ∧ clock (snd r) = clock w
  ∧ ticks (snd r) = (2 * length frames + ticks w)%nat.
Proof.
  revert e w. induction frames as [|[cm cameras] rest IH]; intros e w r;
    subst r.
  - cbn. rewrite app_nil_r.
    split; [reflexivity|]. split; [apply uniform_step_refl|].
    split; reflexivity.
  - cbn [run]. rewrite bind_run.
    destruct (RenderLoop_spec cameras (set_canvasManager cm e) w)
      as (Hcalls & Hstep & Hcm & Hlt & Hclk & Htk & Hfmt).
    cbn zeta in Hcalls, Hstep, Hcm, Hlt, Hclk, Htk, Hfmt.
    cbn [canvasManager set_canvasManager] in Hcalls, Hstep.
    set (R := RenderLoop cameras (set_canvasManager cm e) w) in *.
    clearbody R.
    specialize (IH (fst R) (snd R)). cbn zeta in IH.
    destruct IH as (Hcalls' & Hstep' & Hclk' & Htk').
    split.
    { rewrite Hcalls', Hcalls. cbn [run_calls].
      rewrite <- app_assoc. do 2 f_equal.
      apply run_calls_ext; cbn; congruence. }
    split.
    { unfold run_drawn_renderables, any_drawn.
      cbn [flat_map existsb fst snd]. rewrite length_app.
      eapply uniform_step_trans; [exact Hstep | exact Hstep']. }
    split; [congruence|].
    rewrite Htk', Htk. cbn [length]. lia.
Qed.

Lemma since_log_app before after new :
  calls after = calls before ++ new → since_log before after = new.
Proof.
  intros H. unfold since_log. rewrite H. apply drop_app_length.
Qed.

Lemma frame_trace_calls cameras e w :
  frame_trace cameras e w = frame_calls (canvasManager e) cameras w.
Proof.
  apply since_log_app. apply (RenderLoop_spec cameras e w).
Qed.

Lemma run_trace_calls frames e w :
  run_trace frames e w = run_calls frames w.
Proof.
  apply since_log_app. apply (run_spec frames e w).
Qed.

Lemma renderable_trace_calls pipeline ub pass view projection r p :
  renderable_trace pipeline ub pass view projection r p
  = renderable_calls view projection r.
Proof.
  apply since_log_app. apply drawRenderable_calls.
Qed.

(** *** Observations of a frame *)

Lemma visits_app a b : visits (a ++ b) = visits a ++ visits b.
Proof. apply omap_app. Qed.

Lemma marks_app a b : marks (a ++ b) = marks a ++ marks b.
Proof. apply omap_app. Qed.

Lemma scene_updates_app a b :
  scene_updates (a ++ b) = scene_updates a ++ scene_updates b.
Proof. apply omap_app. Qed.

Lemma draw_encoding_app a b :
  draw_encoding (a ++ b) = draw_encoding a ++ draw_encoding b.
Proof. apply filter_app. Qed.

Lemma draws_app a b : draws (a ++ b) = draws a ++ draws b.
Proof. apply filter_app. Qed.

Section PerRenderable.
Context {O : Type} (obs : list Call → list O).
Hypothesis obs_app : ∀ a b, obs (a ++ b) = obs a ++ obs b.
Hypothesis obs_nil : obs [] = [].

Lemma obs_flat_map {A} (f : A → list Call) (l : list A) :
  obs (flat_map f l) = flat_map (λ x, obs (f x)) l.
Proof.
  induction l as [|x l IH]; [exact obs_nil|].
  cbn [flat_map]. rewrite obs_app, IH. reflexivity.
Qed.

End PerRenderable.

Lemma draw_encoding_renderable view projection r :
  draw_encoding (renderable_calls view projection r) = draw_calls_of (mesh r).
Proof.
  unfold renderable_calls, draw_calls_of.
  destruct (indexBuffer (mesh r)); reflexivity.
Qed.

Lemma draws_renderable view projection r :
  draws (renderable_calls view projection r)
  = [match indexBuffer (mesh r) with
     | Some _ => CDrawIndexed (indexCount (mesh r))
     | None => CDraw (vertexCount (mesh r))
     end].
Proof.
  unfold renderable_calls, draw_calls_of.
  destruct (indexBuffer (mesh r)); reflexivity.
Qed.

Lemma marks_renderable view projection r :
  marks (renderable_calls view projection r) = [Write; DrawCall].
Proof.
  unfold renderable_calls, draw_calls_of.
  destruct (indexBuffer (mesh r)); reflexivity.
Qed.

Lemma visits_renderable view projection r :
  visits (renderable_calls view projection r) = [].
Proof.
  unfold renderable_calls, draw_calls_of.
  destruct (indexBuffer (mesh r)); reflexivity.
Qed.

Lemma scene_updates_renderable view projection r :
  scene_updates (renderable_calls view projection r) = [].
Proof.
  unfold renderable_calls, draw_calls_of.
  destruct (indexBuffer (mesh r)); reflexivity.
Qed.

Lemma flat_map_all_nil {A B} (f : A → list B) (l : list A) :
  (∀ x, f x = []) → flat_map f l = [].
Proof.
  intros H. induction l as [|x l IH]; [reflexivity|].
  cbn [flat_map]. rewrite H, IH. reflexivity.
Qed.

Lemma flat_map_ext_eq {A B} (f g : A → list B) (l : list A) :
  (∀ x, f x = g x) → flat_map f l = flat_map g l.
Proof.
  intros H. induction l as [|x l IH]; [reflexivity|].
  cbn [flat_map]. rewrite H, IH. reflexivity.
Qed.

(** What the observations see of the render pass of a camera. *)
Lemma visits_pass view camera :
  visits (pass_calls view camera) = [Drawn view].
Proof.
  unfold pass_calls. rewrite !visits_app.
  rewrite (obs_flat_map visits visits_app eq_refl).
  rewrite (flat_map_all_nil _ _ (visits_renderable _ _)). reflexivity.
Qed.

Lemma scene_updates_pass view camera :
  scene_updates (pass_calls view camera) = [].
Proof.
  unfold pass_calls. rewrite !scene_updates_app.
  rewrite (obs_flat_map scene_updates scene_updates_app eq_refl).
  rewrite (flat_map_all_nil _ _ (scene_updates_renderable _ _)). reflexivity.
Qed.

Lemma draw_encoding_pass view camera :
  draw_encoding (pass_calls view camera)
  = flat_map (λ r, draw_calls_of (mesh r)) (renderables (scene camera)).
Proof.
  unfold pass_calls. rewrite !draw_encoding_app.
  rewrite (obs_flat_map draw_encoding draw_encoding_app eq_refl).
  rewrite (flat_map_ext_eq _ _ _ (draw_encoding_renderable _ _)).
  cbn. rewrite app_nil_r. reflexivity.
Qed.

Lemma draws_pass view camera :
  draws (pass_calls view camera)
  = flat_map (λ r, [match indexBuffer (mesh r) with
                    | Some _ => CDrawIndexed (indexCount (mesh r))
                    | None => CDraw (vertexCount (mesh r))
                    end]) (renderables (scene camera)).
Proof.
  unfold pass_calls. rewrite !draws_app.
  rewrite (obs_flat_map draws draws_app eq_refl).
  rewrite (flat_map_ext_eq _ _ _ (draws_renderable _ _)).
  cbn. rewrite app_nil_r. reflexivity.
Qed.

Lemma marks_pass view camera :
  marks (pass_calls view camera)
  = flat_map (λ _, [Write; DrawCall]) (renderables (scene camera)).
Proof.
  unfold pass_calls. rewrite !marks_app.
  rewrite (obs_flat_map marks marks_app eq_refl).
  rewrite (flat_map_ext_eq _ _ _ (marks_renderable _ _)).
  cbn. rewrite app_nil_r. reflexivity.
Qed.

Ltac by_camera_cases cm camera :=
  unfold camera_calls, visit_of, resolvable, getContext;
  destruct (target camera) as [cid|tex tw th];
  [ destruct (contexts cm !! cid) as [cc|] eqn:Hc;
    [ rewrite ?(bool_decide_eq_true_2 _ (ltac:(eauto) : is_Some (Some cc)));
      destruct (isPerspective camera)
    | rewrite ?bool_decide_eq_false_2 by (intros [? ?]; congruence) ]
  | ].

Lemma visits_camera cm camera :
  visits (camera_calls cm camera) = [visit_of cm camera].
Proof.
  by_camera_cases cm camera; try reflexivity.
  - rewrite visits_app.
    change (visits (CUpdateAspect ?c ?a :: ?l)) with (visits l).
    rewrite visits_pass. reflexivity.
  - rewrite visits_app, visits_pass. reflexivity.
  - apply visits_pass.
Qed.

Lemma draw_encoding_camera cm camera :
  draw_encoding (camera_calls cm camera)
  = flat_map (λ r, draw_calls_of (mesh r))
      (if resolvable cm camera then renderables (scene camera) else []).
Proof.
  by_camera_cases cm camera; try reflexivity.
  - rewrite draw_encoding_app.
    change (draw_encoding (CUpdateAspect ?c ?a :: ?l))
      with (draw_encoding l).
    rewrite draw_encoding_pass. reflexivity.
  - rewrite draw_encoding_app, draw_encoding_pass. reflexivity.
  - apply draw_encoding_pass.
Qed.

Lemma draws_camera cm camera :
  draws (camera_calls cm camera)
  = flat_map (λ r, [match indexBuffer (mesh r) with
                    | Some _ => CDrawIndexed (indexCount (mesh r))
                    | None => CDraw (vertexCount (mesh r))
                    end])
      (if resolvable cm camera then renderables (scene camera) else []).
Proof.
  by_camera_cases cm camera; try reflexivity.
  - rewrite draws_app.
    change (draws (CUpdateAspect ?c ?a :: ?l)) with (draws l).
    rewrite draws_pass. reflexivity.
  - rewrite draws_app, draws_pass. reflexivity.
  - apply draws_pass.
Qed.

Lemma marks_camera cm camera :
  marks (camera_calls cm camera)
  = flat_map (λ _, [Write; DrawCall])
      (if resolvable cm camera then renderables (scene camera) else []).
Proof.
  by_camera_cases cm camera; try reflexivity.
  - rewrite marks_app.
    change (marks (CUpdateAspect ?c ?a :: ?l)) with (marks l).
    rewrite marks_pass. reflexivity.
  - rewrite marks_app, marks_pass. reflexivity.
  - apply marks_pass.
Qed.

Lemma scene_updates_camera cm camera :
  scene_updates (camera_calls cm camera) = [].
Proof.
  by_camera_cases cm camera; try reflexivity.
  - rewrite scene_updates_app.
    change (scene_updates (CUpdateAspect ?c ?a :: ?l))
      with (scene_updates l).
    rewrite scene_updates_pass. reflexivity.
  - rewrite scene_updates_app, scene_updates_pass. reflexivity.
  - apply scene_updates_pass.
Qed.

Lemma flat_map_flat_map {A B C} (f : A → list B) (g : B → list C)
  (l : list A) :
  flat_map g (flat_map f l) = flat_map (λ x, flat_map g (f x)) l.
Proof.
  induction l as [|x l IH]; [reflexivity|].
  cbn [flat_map]. rewrite flat_map_app, IH. reflexivity.
Qed.

Lemma flat_map_singleton {A B} (f : A → B) (l : list A) :
  flat_map (λ x, [f x]) l = map f l.
Proof. induction l as [|x l IH]; cbn; [|rewrite IH]; reflexivity. Qed.

Lemma visits_frame cm cameras w :
  visits (frame_calls cm cameras w) = map (visit_of cm) cameras.
Proof.
  unfold frame_calls. rewrite !visits_app.
  rewrite (obs_flat_map visits visits_app eq_refl).
  rewrite (flat_map_ext_eq _ _ _ (visits_camera cm)).
  cbn. rewrite app_nil_r. apply flat_map_singleton.
Qed.

Lemma draw_encoding_frame cm cameras w :
  draw_encoding (frame_calls cm cameras w)
  = flat_map (λ r, draw_calls_of (mesh r)) (drawn_renderables cm cameras).
Proof.
  unfold frame_calls, drawn_renderables. rewrite !draw_encoding_app.
  rewrite (obs_flat_map draw_encoding draw_encoding_app eq_refl).
  rewrite (flat_map_ext_eq _ _ _ (draw_encoding_camera cm)).
  cbn. rewrite app_nil_r. symmetry. apply flat_map_flat_map.
Qed.

Lemma draws_frame cm cameras w :
  draws (frame_calls cm cameras w)
  = map (λ r, match indexBuffer (mesh r) with
              | Some _ => CDrawIndexed (indexCount (mesh r))
              | None => CDraw (vertexCount (mesh r))
              end) (drawn_renderables cm cameras).
Proof.
  unfold frame_calls, drawn_renderables. rewrite !draws_app.
  rewrite (obs_flat_map draws draws_app eq_refl).
  rewrite (flat_map_ext_eq _ _ _ (draws_camera cm)).
  cbn. rewrite app_nil_r. rewrite <- flat_map_singleton.
  symmetry. apply flat_map_flat_map.
Qed.

Lemma marks_frame cm cameras w :
  marks (frame_calls cm cameras w)
  = flat_map (λ _, [Write; DrawCall]) (drawn_renderables cm cameras).
Proof.
  unfold frame_calls, drawn_renderables. rewrite !marks_app.
  rewrite (obs_flat_map marks marks_app eq_refl).
  rewrite (flat_map_ext_eq _ _ _ (marks_camera cm)).
  cbn. rewrite app_nil_r. symmetry. apply flat_map_flat_map.
Qed.

Lemma scene_updates_frame cm cameras w :
  scene_updates (frame_calls cm cameras w) = [update_delta w].
Proof.
  unfold frame_calls. rewrite !scene_updates_app.
  rewrite (obs_flat_map scene_updates scene_updates_app eq_refl).
  rewrite (flat_map_all_nil _ _ (scene_updates_camera cm)). reflexivity.
Qed.

Lemma marks_run frames w :
  marks (run_calls frames w)
  = flat_map (λ _, [Write; DrawCall]) (run_drawn_renderables frames).
Proof.
  revert w. induction frames as [|[cm cameras] rest IH]; intros w;
    [reflexivity|].
  cbn [run_calls]. rewrite marks_app, marks_frame, IH.
  unfold run_drawn_renderables. cbn [flat_map fst snd].
  rewrite flat_map_app. reflexivity.
Qed.

Lemma write_then_draw_pairs {A} (l : list A) :
  write_then_draw (flat_map (λ _, [Write; DrawCall]) l) = true.
Proof. induction l as [|x l IH]; [reflexivity | exact IH]. Qed.

(** *** Draw encoding *)

(** C8.  Drawing a renderable encodes exactly one draw call: with an index
    buffer, the buffer is bound with 16-bit indices and the draw is an
    indexed draw of [indexCount]; without one, the draw is a non-indexed
    draw of [vertexCount].  In a frame the draw calls are, one for one and
    in order, those of the renderables of the cameras whose target
    resolves. *)
Theorem one_draw_call_per_renderable
  (pipeline : GPURenderPipeline) (ub : GPUBuffer) (pass : nat)
  (view projection : mat4) (r : Renderable) (p : Platform)
  (cameras : list ICamera) (e : t) (w : World) :
  draws (renderable_trace pipeline ub pass view projection r p)
  = [match indexBuffer (mesh r) with
     | Some _ => CDrawIndexed (indexCount (mesh r))
     | None => CDraw (vertexCount (mesh r))
     end]
  ∧ draw_encoding (renderable_trace pipeline ub pass view projection r p)
    = match indexBuffer (mesh r) with
      | Some ib => [CSetIndexBuffer ib "uint16";
                    CDrawIndexed (indexCount (mesh r))]
      | None => [CDraw (vertexCount (mesh r))]
      end
  ∧ draws (frame_trace cameras e w)
    = map (λ r, match indexBuffer (mesh r) with
                | Some _ => CDrawIndexed (indexCount (mesh r))
                | None => CDraw (vertexCount (mesh r))
                end)
        (drawn_renderables (canvasManager e) cameras).
Proof.
  rewrite renderable_trace_calls, frame_trace_calls.
  split; [apply draws_renderable|].
  split; [apply draw_encoding_renderable | apply draws_frame].
Qed.

(** Six indices: one indexed draw of count 6.  Three vertices and no index
    buffer: one non-indexed draw of count 3. *)
Example draw_six_indices :
  draw_encoding
    (renderable_trace {| pipeline_handle := 0%nat;
                         pipeline_descriptor :=
                           fst (_createRenderPipelineDescriptor "bgra8unorm"
                                  (gpu Demo.world0)) |}
       9%nat 5%nat mat4_create mat4_create Demo.quad (gpu Demo.world0))
  = [CSetIndexBuffer 2%nat "uint16"; CDrawIndexed 6].
Proof. vm_compute. reflexivity. Qed.

Example draw_three_vertices :
  draw_encoding
    (renderable_trace {| pipeline_handle := 0%nat;
                         pipeline_descriptor :=
                           fst (_createRenderPipelineDescriptor "bgra8unorm"
                                  (gpu Demo.world0)) |}
       9%nat 5%nat mat4_create mat4_create Demo.triangle (gpu Demo.world0))
  = [CDraw 3].
Proof. vm_compute. reflexivity. Qed.

(** Two cameras that render to the same format in one frame: the builder
    of the pipeline runs once and one pipeline is created. *)
Example two_cameras_share_pipeline :
  let w := snd (RenderLoop [Demo.cam_a; Demo.cam_b] Demo.engine0
                  Demo.world0) in
  callbacks w = 1%nat ∧ created_pipelines (log (gpu w)) = [3%nat].
Proof. vm_compute. split; reflexivity. Qed.

(** *** Cameras whose surface is not registered *)

Lemma frame_calls_split cm before camera after w :
  frame_calls cm (before ++ camera :: after) w
  = ([CCreateCommandEncoder; CSceneUpdate (update_delta w)]
     ++ flat_map (camera_calls cm) before)
    ++ camera_calls cm camera
    ++ flat_map (camera_calls cm) after ++ [CFinish; CSubmit].
Proof.
  unfold frame_calls. rewrite flat_map_app. cbn [flat_map].
  rewrite <- !app_assoc. reflexivity.
Qed.

(** C6.  A frame in which the camera [camera] targets a surface that is not
    registered.  The frame runs to its end: its calls are those of the
    frame without that camera, with the warning in the place of the
    camera, and they end with the recording being finished and submitted.
    Every other camera is visited as it is in any frame, and the frame
    draws what it draws without the skipped camera. *)
Theorem unregistered_surface_skips_only_that_camera
  (before after : list ICamera) (camera : ICamera) (canvasId : string)
  (e : t) (w : World) :
  target camera = canvas canvasId →
  getContext canvasId (canvasManager e) = None →
  let warning := CWarn ("Canvas context not found: " +:+ canvasId) in
  (∃ pre post,
      frame_trace (before ++ after) e w = pre ++ post ++ [CFinish; CSubmit]
      ∧ frame_trace (before ++ camera :: after) e w
        = pre ++ warning :: post ++ [CFinish; CSubmit])
  ∧ visits (frame_trace (before ++ camera :: after) e w)
    = map (visit_of (canvasManager e)) before
      ++ Skipped ("Canvas context not found: " +:+ canvasId)
      :: map (visit_of (canvasManager e)) after
  ∧ draw_encoding (frame_trace (before ++ camera :: after) e w)
    = draw_encoding (frame_trace (before ++ after) e w).
Proof.
  intros Htarget Hmissing warning.
  assert (camera_calls (canvasManager e) camera = [warning]) as Hskip.
  { unfold camera_calls. rewrite Htarget, Hmissing. reflexivity. }
  rewrite !frame_trace_calls.
  split; [|split].
  - exists ([CCreateCommandEncoder; CSceneUpdate (update_delta w)]
            ++ flat_map (camera_calls (canvasManager e)) before),
      (flat_map (camera_calls (canvasManager e)) after).
    split.
    + unfold frame_calls. rewrite flat_map_app, <- !app_assoc. reflexivity.
    + rewrite frame_calls_split, Hskip. reflexivity.
  - rewrite visits_frame, map_app. cbn [map]. do 2 f_equal.
    unfold visit_of. rewrite Htarget, Hmissing. reflexivity.
  - rewrite !draw_encoding_frame. unfold drawn_renderables.
    rewrite !flat_map_app. cbn [flat_map].
    unfold resolvable at 2. rewrite Htarget.
    rewrite bool_decide_eq_false_2
      by (rewrite Hmissing; intros [? ?]; congruence).
    reflexivity.
Qed.

Lemma unregistered_surface_witness :
  visits (frame_trace ([Demo.cam_a] ++ Demo.cam_lost :: [Demo.cam_b])
            Demo.engine0 Demo.world0)
  = map (visit_of (canvasManager Demo.engine0)) [Demo.cam_a]
    ++ Skipped ("Canvas context not found: " +:+ "main")
    :: map (visit_of (canvasManager Demo.engine0)) [Demo.cam_b].
Proof.
  apply (unregistered_surface_skips_only_that_camera
           [Demo.cam_a] [Demo.cam_b] Demo.cam_lost "main"
           Demo.engine0 Demo.world0);
    reflexivity.
Defined.

(** *** The uniform buffer *)

Lemma drop_since {A} (before new after : list A) :
  after = before ++ new → drop (length before) after = new.
Proof. intros ->. apply drop_app_length. Qed.

(** C7.  Over a run of frames the engine holds at most one uniform buffer.
    A buffer it holds at the start is the one it holds at the end; it holds
    one at the end exactly when it held one at the start or some camera
    was rendered.  The run creates a buffer only if the engine held none
    and a camera was rendered, and then a single one of 192 bytes, three
    4×4 matrices of floats, which is the buffer held at the end; every
    write of the run goes to the buffer held at the end, one write for each
    renderable drawn; and in the calls of the run every write is followed
    by one draw before the next write. *)
Theorem single_uniform_buffer
  (frames : list (CanvasManager * list ICamera)) (e : t) (w : World) :
  let held := _uniformBuffer (fst (run frames e w)) in
  (∀ b, _uniformBuffer e = Some b → held = Some b)
  ∧ (is_Some held ↔ is_Some (_uniformBuffer e) ∨ any_drawn frames = true)
  ∧ buffers_created_during frames e w
    = match _uniformBuffer e, held with
      | None, Some b => [(b, 16 * 4 * 3, Z.lor UNIFORM COPY_DST)]
      | _, _ => []
      end
  ∧ buffers_written_during frames e w
    = match held with
      | Some b => replicate (length (run_drawn_renderables frames)) b
      | None => []
      end
  ∧ marks (run_trace frames e w)
    = flat_map (λ _, [Write; DrawCall]) (run_drawn_renderables frames)
  ∧ write_then_draw (marks (run_trace frames e w)) = true.
Proof.
  intros held. subst held.
  destruct (run_spec frames e w)
    as (_ & (Ha & Hb & Hc & Hd & He & Hf) & _ & _).
  unfold buffers_created_during, buffers_written_during.
  rewrite run_trace_calls, marks_run.
  split; [exact Ha|].
  split.
  { split; [exact Hf|]. intros [[b Hs]|Hdrawn].
    - rewrite (Ha b Hs). eauto.
    - apply Hc, Hdrawn. }
  destruct (_uniformBuffer (fst (run frames e w))) as [b|] eqn:Hheld.
  - destruct (Hd b eq_refl) as [Hw Hcr].
    split; [|split; [|split]].
    + apply drop_since. rewrite Hcr.
      destruct (_uniformBuffer e); [rewrite app_nil_r|]; reflexivity.
    + apply drop_since, Hw.
    + reflexivity.
    + apply write_then_draw_pairs.
  - destruct (He eq_refl) as [Hw Hcr].
    split; [|split; [|split]].
    + rewrite Hcr, drop_all. destruct (_uniformBuffer e); reflexivity.
    + rewrite Hw, drop_all. reflexivity.
    + reflexivity.
    + apply write_then_draw_pairs.
Qed.

(** *** Delta-time *)

Lemma frame_delta_eq e w :
  frame_delta e w
  = if Qeq_bool (_lastFrameTime e) 0 then 0%Q
    else ((clock w (ticks w) - _lastFrameTime e) / 1000)%Q.
Proof. reflexivity. Qed.

Lemma frame_delta_nonneg e w :
  monotonic (clock w) → stamped e w → (0 <= frame_delta e w)%Q.
Proof.
  intros Hmono Hst. rewrite frame_delta_eq.
  destruct (Qeq_bool (_lastFrameTime e) 0) eqn:E; [apply Qle_refl|].
  destruct Hst as [H0|(k & Hk & Hlast)].
  - apply Qeq_bool_neq in E. contradiction.
  - rewrite Hlast. unfold Qdiv.
    apply Qmult_le_0_compat; [|discriminate].
    unfold Qminus. rewrite <- Qle_minus_iff. apply Hmono, Hk.
Qed.

Lemma frame_deltas_nonneg frames e w :
  monotonic (clock w) → stamped e w →
  Forall (λ d, (0 <= d)%Q) (frame_deltas frames e w).
Proof.
  revert e w. induction frames as [|[cm cameras] rest IH];
    intros e w Hmono Hst; [constructor|].
  cbn [frame_deltas].
  destruct (RenderLoop_spec cameras (set_canvasManager cm e) w)
    as (_ & _ & _ & Hlt & Hclk & Htk & _).
  cbn zeta in Hlt, Hclk, Htk.
  constructor.
  - apply frame_delta_nonneg; [exact Hmono | exact Hst].
  - apply IH.
    + rewrite Hclk. exact Hmono.
    + right. exists (ticks w). rewrite Htk, Hlt, Hclk. split; [lia|reflexivity].
Qed.

(** C9.  In a run of a newly constructed engine the delta-time of the first
    frame is the number 0, and with a clock that never goes back the
    delta-time of every later frame is not negative. *)
Theorem first_delta_zero_then_nonnegative
  (frames : list (CanvasManager * list ICamera))
  (adapter0 : nat) (device0 : GPUDevice) (w : World) :
  monotonic (clock w) →
  match frame_deltas frames (constructor adapter0 device0) w with
  | [] => frames = []
  | first :: later => first = 0%Q ∧ Forall (λ d, (0 <= d)%Q) later
  end.
Proof.
  intros Hmono.
  pose proof (frame_deltas_nonneg frames (constructor adapter0 device0) w
                Hmono (or_introl (Qeq_refl 0))) as Hall.
  destruct frames as [|[cm cameras] rest]; [reflexivity|].
  cbn [frame_deltas] in *.
  split; [reflexivity|]. inversion Hall; assumption.
Qed.

Lemma first_delta_zero_witness :
  match frame_deltas [(Demo.no_surfaces, [Demo.cam_a]);
                      (Demo.no_surfaces, [Demo.cam_a; Demo.cam_lost])]
          (constructor 0%nat 0%nat) Demo.world0 with
  | [] => False
  | first :: later => first = 0%Q ∧ Forall (λ d, (0 <= d)%Q) later
  end.
Proof.
  apply (first_delta_zero_then_nonnegative
           [(Demo.no_surfaces, [Demo.cam_a]);
            (Demo.no_surfaces, [Demo.cam_a; Demo.cam_lost])]
           0%nat 0%nat Demo.world0).
  intros i j Hij. unfold Demo.world0, clock, Demo.clock0.
  rewrite <- Zle_Qle.
  pose proof (Nat.Div0.div_le_mono i j 2 Hij). lia.
Defined.

(** Every frame hands one delta-time to the update hook of the scene, right
    after the command encoder is created and before any camera is
    rendered. *)
Lemma scene_update_once_before_cameras cameras e w :
  ∃ rest,
    frame_trace cameras e w
    = CCreateCommandEncoder :: CSceneUpdate (update_delta w) :: rest
    ∧ scene_updates rest = []
    ∧ scene_updates (frame_trace cameras e w) = [update_delta w].
Proof.
  rewrite frame_trace_calls.
  exists (flat_map (camera_calls (canvasManager e)) cameras
          ++ [CFinish; CSubmit]).
  split; [reflexivity|]. split; [|apply scene_updates_frame].
  rewrite scene_updates_app.
  rewrite (obs_flat_map scene_updates scene_updates_app eq_refl).
  rewrite (flat_map_all_nil _ _ (scene_updates_camera _)). reflexivity.
Qed.

(** C1.  Two frames of a newly constructed engine, the clock reading 1000,
    1000, 2000, 2000 milliseconds.  [beginFrame] records the delta-times 0
    and 1000/1000 seconds; the update hook of the scene receives 0/1000 and
    0/1000, once in each frame: in the second frame it is not handed the
    delta-time of the frame. *)
Theorem scene_update_misses_frame_delta :
  let frames := [(Demo.no_surfaces, [Demo.cam_a]);
                 (Demo.no_surfaces, [Demo.cam_a])] in
  frame_deltas frames Demo.engine0 Demo.world0 = [0; 1000 # 1000]%Q
  ∧ scene_updates (run_trace frames Demo.engine0 Demo.world0)
    = [0 # 1000; 0 # 1000]%Q
  ∧ ¬ (0 # 1000 == 1000 # 1000)%Q.
Proof.
  intros frames. subst frames.
  split; [vm_compute; reflexivity|].
  split; [vm_compute; reflexivity|].
  intros H. discriminate H.
Qed.

(** *** The order of the cameras *)

Lemma Forall_insert_by_order (P : ICamera → Prop) c l :
  P c → Forall P l → Forall P (SceneManager.insert_by_order c l).
Proof.
  intros Hc Hl. induction Hl as [|d l' Hd Hl' IH]; cbn.
  - repeat constructor. exact Hc.
  - destruct (Qle_bool (order c) (order d)); repeat constructor; assumption.
Qed.

Lemma insert_by_order_ascending c l :
  ascending l → ascending (SceneManager.insert_by_order c l).
Proof.
  unfold ascending. intros Hl. induction Hl as [|d l' Hl' IH Hd]; cbn.
  - repeat constructor.
  - destruct (Qle_bool (order c) (order d)) eqn:E.
    + apply Qle_bool_iff in E. constructor.
      * constructor; assumption.
      * constructor; [exact E|].
        eapply Forall_impl; [exact Hd|].
        intros x Hx. cbn in Hx. eapply Qle_trans; eassumption.
    + constructor; [exact IH|].
      apply Forall_insert_by_order; [|exact Hd].
      apply Qlt_le_weak, Qnot_le_lt. intros Hle.
      apply Qle_bool_iff in Hle. congruence.
Qed.

Lemma sort_by_order_ascending l : ascending (SceneManager.sort_by_order l).
Proof.
  induction l as [|c l IH]; cbn.
  - constructor.
  - apply insert_by_order_ascending, IH.
Qed.

Lemma insert_by_order_perm c l : SceneManager.insert_by_order c l ≡ₚ c :: l.
Proof.
  induction l as [|d l IH]; cbn; [reflexivity|].
  destruct (Qle_bool (order c) (order d)); [reflexivity|].
  rewrite IH. apply Permutation_swap.
Qed.

Lemma sort_by_order_perm l : SceneManager.sort_by_order l ≡ₚ l.
Proof.
  induction l as [|c l IH]; cbn; [reflexivity|].
  rewrite insert_by_order_perm, IH. reflexivity.
Qed.

Lemma of_priority_cons k c l :
  of_priority k (c :: l)
  = if Qeq_bool (order c) k then c :: of_priority k l else of_priority k l.
Proof.
  unfold of_priority. rewrite filter_cons.
  destruct (Qeq_bool (order c) k); reflexivity.
Qed.

Lemma of_priority_insert k c l :
  of_priority k (SceneManager.insert_by_order c l) = of_priority k (c :: l).
Proof.
  induction l as [|d l IH]; cbn [SceneManager.insert_by_order]; [reflexivity|].
  destruct (Qle_bool (order c) (order d)) eqn:E; [reflexivity|].
  rewrite of_priority_cons, IH, !of_priority_cons.
  destruct (Qeq_bool (order d) k) eqn:Ed,
           (Qeq_bool (order c) k) eqn:Ec; try reflexivity.
  apply Qeq_bool_iff in Ed, Ec.
  assert (Qle_bool (order c) (order d) = true) as Hle; [|congruence].
  apply Qle_bool_iff. rewrite Ed, Ec. apply Qle_refl.
Qed.

Lemma of_priority_sort k l :
  of_priority k (SceneManager.sort_by_order l) = of_priority k l.
Proof.
  induction l as [|c l IH]; [reflexivity|].
  cbn [SceneManager.sort_by_order foldr]. fold (SceneManager.sort_by_order l).
  rewrite of_priority_insert, !of_priority_cons, IH. reflexivity.
Qed.

(** C2.  A frame visits the cameras the scene yields one by one in the
    yielded sequence, whatever their flags and priorities: the engine takes
    the sequence as it is.  With a scene that yields its enabled cameras by
    ascending priority, equal priorities in their stored order, that is the
    order in which the engine draws them. *)
Theorem cameras_processed_in_yielded_order
  (sm : SceneManager.t) (yielded : list ICamera) (e : t) (w : World)
  (k : number) :
  visits (frame_trace yielded e w) = map (visit_of (canvasManager e)) yielded
  ∧ (let cams := SceneManager.getRenderCameras sm in
     visits (frame_trace cams e w) = map (visit_of (canvasManager e)) cams
     ∧ ascending cams
     ∧ Forall (λ c, enabled c = true) cams
     ∧ cams ≡ₚ filter (λ c, enabled c) (SceneManager.cameras sm)
     ∧ of_priority k cams
       = of_priority k (filter (λ c, enabled c) (SceneManager.cameras sm))).
Proof.
  cbn zeta. rewrite !frame_trace_calls, !visits_frame.
  split; [reflexivity|]. unfold SceneManager.getRenderCameras.
  split; [reflexivity|].
  split; [apply sort_by_order_ascending|].
  split.
  { rewrite sort_by_order_perm. apply Forall_forall.
    intros c Hc. apply list_elem_of_filter in Hc.
    destruct Hc as [Hon _]. apply Is_true_true, Hon. }
  split; [apply sort_by_order_perm | apply of_priority_sort].
Qed.

(** A scene that yields a camera of priority 2 before a disabled camera of
    priority 1: the engine draws both, in that order. *)
Example yielded_order_kept :
  visits (frame_trace [Demo.cam_a; Demo.cam_b] Demo.engine0 Demo.world0)
  = [Drawn (createView {| tex_handle := 11; tex_width := 64;
                          tex_height := 64 |});
     Drawn (createView {| tex_handle := 12; tex_width := 64;
                          tex_height := 64 |})].
Proof. vm_compute. reflexivity. Qed.

End EngineFacts.

(** * More properties *)

(** ** The pipeline cache: lookup, eviction, runs of requests *)

Module PipelineManagerMore.
Import PipelineManager PipelineRun.

Lemma getOrCreate_cache (key : string)
  (builder : P GPURenderPipelineDescriptor) (pm : t) (w : World) :
  pipelines (snd (fst (getOrCreate key builder pm w)))
  = <[key := fst (fst (getOrCreate key builder pm w))]> (pipelines pm).
Proof.
  destruct (pipelines pm !! key) as [p|] eqn:Hk.
  - rewrite (PipelineManagerFacts.getOrCreate_hit _ _ _ _ _ Hk). cbn.
    symmetry. apply insert_id, Hk.
  - rewrite (PipelineManagerFacts.getOrCreate_miss _ _ _ _ Hk). reflexivity.
Qed.

(** X1.  After [getOrCreate key] the cache answers [get key] with the
    pipeline that was returned and answers every other key as before; an
    entry that was cached is never replaced. *)
Theorem getOrCreate_then_get (key other : string)
  (builder : P GPURenderPipelineDescriptor) (pm : t) (w : World) :
  let r := getOrCreate key builder pm w in
  get other (snd (fst r))
  = (if decide (other = key) then Some (fst (fst r)) else get other pm)
  ∧ (∀ p, get other pm = Some p → get other (snd (fst r)) = Some p).
Proof.
  intros r. subst r. unfold get. rewrite getOrCreate_cache. split.
  - destruct (decide (other = key)) as [->|Hne].
    + apply lookup_insert_eq.
    + apply lookup_insert_ne. congruence.
  - intros p Hp. destruct (decide (other = key)) as [->|Hne].
    + rewrite (PipelineManagerFacts.getOrCreate_hit _ _ _ _ _ Hp). cbn.
      rewrite lookup_insert_eq. reflexivity.
    + rewrite lookup_insert_ne by congruence. exact Hp.
Qed.

(** X2.  [remove key] answers whether the key was cached; afterwards the
    key is absent, a second [remove] answers false, and every other key is
    answered as before. *)
Theorem remove_evicts_one_key (key other : string) (pm : t) :
  (fst (remove key pm) = true ↔ is_Some (get key pm))
  ∧ get other (snd (remove key pm))
    = (if decide (other = key) then None else get other pm)
  ∧ fst (remove key (snd (remove key pm))) = false.
Proof.
  unfold remove, get. cbn [fst snd pipelines]. split; [|split].
  - apply bool_decide_eq_true.
  - destruct (decide (other = key)) as [->|Hne].
    + apply lookup_delete_eq.
    + apply lookup_delete_ne. congruence.
  - apply bool_decide_eq_false. rewrite lookup_delete_eq.
    intros [? ?]. discriminate.
Qed.

(** X3.  Eviction forces a rebuild: after [remove key], and after [clear],
    the next [getOrCreate key] runs the builder again, creates a pipeline
    from its descriptor under the next free handle, and caches it. *)
Theorem eviction_forces_rebuild (key : string)
  (builder : P GPURenderPipelineDescriptor) (pm : t) (w : World) :
  let rebuilt (pm0 : t) :=
    let r := getOrCreate key builder pm0 w in
    callbacks (snd r) = S (callbacks w)
    ∧ fst (fst r)
      = {| pipeline_handle := fresh (snd (builder (gpu w)));
           pipeline_descriptor := fst (builder (gpu w)) |}
    ∧ get key (snd (fst r)) = Some (fst (fst r))
    ∧ Trace.created_pipelines (log (gpu (snd r)))
      = Trace.created_pipelines (log (snd (builder (gpu w))))
        ++ [fresh (snd (builder (gpu w)))] in
  rebuilt (snd (remove key pm)) ∧ rebuilt (clear pm).
Proof.
  assert (∀ pm0, pipelines pm0 !! key = None →
    let r := getOrCreate key builder pm0 w in
    callbacks (snd r) = S (callbacks w)
    ∧ fst (fst r)
      = {| pipeline_handle := fresh (snd (builder (gpu w)));
           pipeline_descriptor := fst (builder (gpu w)) |}
    ∧ get key (snd (fst r)) = Some (fst (fst r))
    ∧ Trace.created_pipelines (log (gpu (snd r)))
      = Trace.created_pipelines (log (snd (builder (gpu w))))
        ++ [fresh (snd (builder (gpu w)))]) as Hmiss.
  { intros pm0 H0 r. subst r.
    rewrite (PipelineManagerFacts.getOrCreate_miss _ _ _ _ H0).
    cbn zeta. rewrite invoke_run, lift_run. cbn [fst snd callbacks gpu with_gpu].
    unfold get. cbn [pipelines]. rewrite lookup_insert_eq.
    unfold createRenderPipeline. rewrite !pbind_run. cbn.
    unfold Trace.created_pipelines. rewrite omap_app.
    repeat split; reflexivity. }
  cbn zeta. split; apply Hmiss.
  - cbn. apply lookup_delete_eq.
  - cbn. apply lookup_empty.
Qed.

Lemma getOrCreate_counts (key : string)
  (builder : P GPURenderPipelineDescriptor) (pm : t) (w : World) :
  let r := getOrCreate key builder pm w in
  (callbacks (snd r) + size (pipelines pm)
   = callbacks w + size (pipelines (snd (fst r))))%nat
  ∧ dom (pipelines (snd (fst r))) = dom (pipelines pm) ∪ {[key]}
  ∧ (∀ k p, pipelines pm !! k = Some p →
            pipelines (snd (fst r)) !! k = Some p).
Proof.
  intros r. subst r.
  destruct (pipelines pm !! key) as [p|] eqn:Hk.
  - rewrite (PipelineManagerFacts.getOrCreate_hit _ _ _ _ _ Hk). cbn.
    split; [reflexivity|]. split; [|auto].
    assert (key ∈ dom (pipelines pm)) by (apply elem_of_dom; eauto).
    set_solver.
  - rewrite (PipelineManagerFacts.getOrCreate_miss _ _ _ _ Hk).
    cbn zeta. rewrite invoke_run, lift_run.
    cbn [fst snd callbacks gpu with_gpu pipelines].
    split; [|split].
    + rewrite map_size_insert_None by exact Hk. lia.
    + rewrite dom_insert_L. set_solver.
    + intros k p Hp. rewrite lookup_insert_ne; [exact Hp|]. congruence.
Qed.

(** X4.  Over any run of [getOrCreate] requests the builders run once for
    each key that enters the cache: the number of builder runs equals the
    growth of the cache, the cache ends with the keys it had and the keys
    requested, and what was cached at the start is still cached. *)
Theorem getOrCreateAll_builds_each_new_key_once
  (requests : list (string * P GPURenderPipelineDescriptor)) (pm : t)
  (w : World) :
  let r := getOrCreateAll requests pm w in
  (callbacks (snd r) + size (pipelines pm)
   = callbacks w + size (pipelines (fst r)))%nat
  ∧ dom (pipelines (fst r))
    = dom (pipelines pm) ∪ list_to_set (requests.*1)
  ∧ (∀ k p, pipelines pm !! k = Some p → pipelines (fst r) !! k = Some p).
Proof.
  revert pm w. induction requests as [|[key builder] rest IH]; intros pm w r;
    subst r.
  - cbn. split; [reflexivity|]. split; [set_solver|auto].
  - cbn [getOrCreateAll]. rewrite bind_run.
    destruct (getOrCreate_counts key builder pm w) as (Hc & Hd & Hk).
    cbn zeta in Hc, Hd, Hk.
    destruct (getOrCreate key builder pm w) as [[p pm1] w1].
    cbn [fst snd] in *.
    destruct (IH pm1 w1) as (Hc' & Hd' & Hk'). cbn zeta in Hc', Hd', Hk'.
    split; [lia|]. split.
    + rewrite Hd', Hd. cbn [fmap list_fmap fst list_to_set]. set_solver.
    + intros k q Hq. apply Hk', Hk, Hq.
Qed.

End PipelineManagerMore.

(** ** The surface context: construction, repeated and bounded updates *)

Module CanvasContextMore.
Import CanvasContext Surface.

Lemma perform_no_configure (o : Op) (c : t) :
  filter (λ ev, is_configure ev) (snd (perform o c)) = [].
Proof.
  destruct o as [w h| |l]; cbn [perform]; try reflexivity.
  rewrite CanvasContextFacts.updateSize_cases.
  destruct (size_eqb _ _); reflexivity.
Qed.

Lemma performAll_no_configure (os : list Op) (c : t) :
  filter (λ ev, is_configure ev) (snd (performAll os c)) = [].
Proof.
  revert c. induction os as [|o os IH]; intros c; [reflexivity|].
  cbn [performAll].
  pose proof (perform_no_configure o c) as H1.
  destruct (perform o c) as [c1 ev1]. cbn [snd] in H1.
  specialize (IH c1). destruct (performAll os c1) as [c2 ev2].
  cbn [snd] in *. rewrite filter_app, H1, IH. reflexivity.
Qed.

(** X5.  Constructing a surface context fails exactly when the canvas
    gives no WebGPU context.  When it succeeds, the presentation chain is
    configured once in the whole life of the surface, by the constructor,
    for the device given, with the preferred format, render-attachment
    usage and opaque alpha: no later [resize], [getCurrentTexture] or
    [updateSize] configures it again. *)
Theorem surface_configured_once_for_life
  (format : GPUTextureFormat) (cv : HTMLCanvasElement) (dev : GPUDevice)
  (os : list Op) :
  match constructor format cv dev with
  | None => getContext_webgpu cv = None
  | Some (c, evs) =>
      getContext_webgpu cv = Some (context c)
      ∧ filter (λ ev, is_configure ev) (evs ++ snd (performAll os c))
        = [EConfigure (context c) dev format RENDER_ATTACHMENT "opaque"]
  end.
Proof.
  unfold constructor. destruct (getContext_webgpu cv) as [ctx|]; [|reflexivity].
  split; [reflexivity|].
  rewrite filter_app, performAll_no_configure. reflexivity.
Qed.

Lemma effectiveSize_after_resize (win : Window) (w h : Double.t) (c : t) :
  effectiveSize win (fst (resize w h c)) = effectiveSize win c.
Proof. reflexivity. Qed.

Lemma updateSize_size (win : Window) (c : t) :
  size (fst (updateSize win c)) = effectiveSize win c.
Proof.
  rewrite CanvasContextFacts.updateSize_cases.
  destruct (size_eqb _ _) eqn:E.
  - apply CanvasContextFacts.size_eqb_eq in E. exact E.
  - cbn [fst resize with_size_canvas size].
    destruct (effectiveSize win c). reflexivity.
Qed.

Lemma effectiveSize_after_updateSize (win win' : Window) (c : t) :
  effectiveSize win' (fst (updateSize win c)) = effectiveSize win' c.
Proof.
  rewrite CanvasContextFacts.updateSize_cases.
  destruct (size_eqb _ _); reflexivity.
Qed.

(** X6.  [updateSize] is idempotent: with the layout and the window
    unchanged, a second call returns the surface as the first call left it
    and touches nothing. *)
Theorem updateSize_twice_is_once (win : Window) (c : t) :
  updateSize win (fst (updateSize win c)) = (fst (updateSize win c), []).
Proof.
  rewrite (CanvasContextFacts.updateSize_cases win (fst (updateSize win c))).
  rewrite updateSize_size, effectiveSize_after_updateSize.
  rewrite CanvasContextFacts.effectiveSize_eqb. reflexivity.
Qed.

(** X7.  When the stored size agrees with the canvas, as it does from the
    constructor on, and the size computed from the layout is a width and a
    height in pixels (whole numbers from 0 to 2147483647), [updateSize]
    leaves the canvas with that backing size, the floor of the displayed
    size times the pixel density as doubles multiply; the displayed size
    itself is not touched. *)
Theorem updateSize_sets_canvas_backing_size (win : Window) (c : t) :
  size_matches_canvas c →
  is_pixel_count (width (effectiveSize win c)) = true →
  is_pixel_count (height (effectiveSize win c)) = true →
  let c' := fst (updateSize win c) in
  let ratio := Double.of_number (or_else (devicePixelRatio win) 1%Q) in
  Double.of_Z (canvas_width (canvas c'))
  = Math_floor (Double.mul (Double.of_Z (clientWidth (canvas c))) ratio)
  ∧ Double.of_Z (canvas_height (canvas c'))
    = Math_floor (Double.mul (Double.of_Z (clientHeight (canvas c))) ratio)
  ∧ clientWidth (canvas c') = clientWidth (canvas c)
  ∧ clientHeight (canvas c') = clientHeight (canvas c).
Proof.
  intros Hm Hw Hh c' ratio. subst c' ratio.
  pose proof (CanvasContextFacts.updateSize_matches win c Hw Hh Hm)
    as [Hw' Hh'].
  rewrite <- Hw', <- Hh', updateSize_size.
  split; [reflexivity|]. split; [reflexivity|].
  rewrite CanvasContextFacts.updateSize_cases.
  destruct (size_eqb _ _); split; reflexivity.
Qed.

Lemma updateSize_sets_canvas_backing_size_witness :
  let l := Demo.layout 800 600 (5404319552844595 # 4503599627370496) in
  let c := relayout l Demo.surface0 in
  let c' := fst (updateSize (window_of l) c) in
  let ratio :=
    Double.of_number (or_else (devicePixelRatio (window_of l)) 1%Q) in
  Double.of_Z (canvas_width (canvas c'))
  = Math_floor (Double.mul (Double.of_Z (clientWidth (canvas c))) ratio)
  ∧ Double.of_Z (canvas_height (canvas c'))
    = Math_floor (Double.mul (Double.of_Z (clientHeight (canvas c))) ratio)
  ∧ clientWidth (canvas c') = clientWidth (canvas c)
  ∧ clientHeight (canvas c') = clientHeight (canvas c).
Proof.
  apply (updateSize_sets_canvas_backing_size
           (window_of (Demo.layout 800 600
                         (5404319552844595 # 4503599627370496)))
           (relayout (Demo.layout 800 600
                        (5404319552844595 # 4503599627370496))
              Demo.surface0)).
  - split; reflexivity.
  - vm_compute. reflexivity.
  - vm_compute. reflexivity.
Defined.

(** X8.  With a displayed size and a pixel density that are not negative
    and an exact product below [2 ^ 53], the size [updateSize] stores is,
    in each dimension, a whole number: the floor of the exact product, or
    one more where the product of doubles rounds up to the next whole
    number, as for 800 displayed pixels at the density 1.2. *)
Theorem updateSize_size_bounds (win : Window) (c : t) :
  0 <= clientWidth (canvas c) → 0 <= clientHeight (canvas c) →
  (0 <= devicePixelRatio win)%Q →
  let ratio := or_else (devicePixelRatio win) 1%Q in
  (inject_Z (clientWidth (canvas c)) * ratio < 2 ^ 53)%Q →
  (inject_Z (clientHeight (canvas c)) * ratio < 2 ^ 53)%Q →
  ∃ w h : Z,
    size (fst (updateSize win c))
    = {| width := Double.of_Z w; height := Double.of_Z h |}
    ∧ Qfloor (inject_Z (clientWidth (canvas c)) * ratio) <= w
      <= Qfloor (inject_Z (clientWidth (canvas c)) * ratio) + 1
    ∧ Qfloor (inject_Z (clientHeight (canvas c)) * ratio) <= h
      <= Qfloor (inject_Z (clientHeight (canvas c)) * ratio) + 1.
Proof.
  intros Hcw Hch Hr ratio Hw Hh. rewrite updateSize_size.
  unfold effectiveSize, Math_floor. fold ratio.
  assert (0 <= ratio)%Q as Hratio.
  { subst ratio. unfold or_else.
    destruct (Qeq_bool (devicePixelRatio win) 0); [discriminate | exact Hr]. }
  destruct (DoubleFacts.floor_mul_near _ _ Hcw Hratio Hw) as (w & -> & Hbw).
  destruct (DoubleFacts.floor_mul_near _ _ Hch Hratio Hh) as (h & -> & Hbh).
  exists w, h. split; [reflexivity|]. split; assumption.
Qed.

Lemma updateSize_size_bounds_witness :
  let l := Demo.layout 800 600 (5404319552844595 # 4503599627370496) in
  let c := relayout l Demo.surface0 in
  let ratio := or_else (devicePixelRatio (window_of l)) 1%Q in
  ∃ w h : Z,
    size (fst (updateSize (window_of l) c))
    = {| width := Double.of_Z w; height := Double.of_Z h |}
    ∧ Qfloor (inject_Z (clientWidth (canvas c)) * ratio) <= w
      <= Qfloor (inject_Z (clientWidth (canvas c)) * ratio) + 1
    ∧ Qfloor (inject_Z (clientHeight (canvas c)) * ratio) <= h
      <= Qfloor (inject_Z (clientHeight (canvas c)) * ratio) + 1.
Proof.
  apply (updateSize_size_bounds
           (window_of (Demo.layout 800 600
                         (5404319552844595 # 4503599627370496)))
           (relayout (Demo.layout 800 600
                        (5404319552844595 # 4503599627370496))
              Demo.surface0)).
  - cbn. lia.
  - cbn. lia.
  - cbn. discriminate.
  - vm_compute. reflexivity.
  - vm_compute. reflexivity.
Defined.

(** X9.  A whole pixel density scales exactly: with
    [devicePixelRatio = k] for an integer [k], [updateSize] stores the
    displayed size times [k], as long as the products are below [2 ^ 53]
    in magnitude, where a double holds every integer; a density of 0
    counts as 1 and stores the displayed size itself. *)
Theorem updateSize_integral_density (win : Window) (c : t) (k : Z) :
  devicePixelRatio win = inject_Z k →
  let k' := if k =? 0 then 1 else k in
  - 2 ^ 53 < clientWidth (canvas c) * k' < 2 ^ 53 →
  - 2 ^ 53 < clientHeight (canvas c) * k' < 2 ^ 53 →
  size (fst (updateSize win c))
  = {| width := Double.of_Z (clientWidth (canvas c) * k');
       height := Double.of_Z (clientHeight (canvas c) * k') |}.
Proof.
  intros Hk k' Hw Hh. rewrite updateSize_size.
  unfold effectiveSize, Math_floor.
  assert (Double.of_number (or_else (devicePixelRatio win) 1%Q)
          = Double.of_Z k') as ->.
  { rewrite Hk. unfold or_else. subst k'.
    destruct (k =? 0) eqn:E.
    - apply Z.eqb_eq in E. subst k. reflexivity.
    - assert (Qeq_bool (inject_Z k) 0 = false) as ->; [|reflexivity].
      destruct (Qeq_bool (inject_Z k) 0) eqn:Q; [|reflexivity].
      apply Qeq_bool_iff in Q. unfold Qeq in Q. cbn in Q.
      apply Z.eqb_neq in E. lia. }
  rewrite !DoubleFacts.mul_of_Z, !DoubleFacts.floor_of_Z by assumption.
  reflexivity.
Qed.

Lemma updateSize_integral_density_witness :
  size (fst (updateSize (window_of (Demo.layout 800 600 2%Q))
               (relayout (Demo.layout 800 600 2%Q) Demo.surface0)))
  = {| width := Double.of_Z (800 * 2); height := Double.of_Z (600 * 2) |}.
Proof.
  apply (updateSize_integral_density
           (window_of (Demo.layout 800 600 2%Q))
           (relayout (Demo.layout 800 600 2%Q) Demo.surface0) 2).
  - reflexivity.
  - cbn. lia.
  - cbn. lia.
Defined.

End CanvasContextMore.

(** ** The frame: protocol, constants, cache *)

Module EngineMore.
Import Engine Trace Protocol Cache.

Lemma protocol_app a b : protocol (a ++ b) = fold_left step b (protocol a).
Proof. apply fold_left_app. Qed.

Lemma step_Broken evs : fold_left step evs Broken = Broken.
Proof.
  induction evs as [|ev evs IH]; [reflexivity|].
  cbn [fold_left]. destruct ev; exact IH.
Qed.

Lemma uniformData_length model view projection :
  length (uniformData model view projection) = 48%nat.
Proof. unfold uniformData, array_set. rewrite !length_inserts. reflexivity. Qed.

(** Drawing a renderable on an open pass with its pipeline set. *)
Lemma drawRenderable_protocol pipeline ub pass view projection r p enc st :
  protocol (log p) = PassOpen enc pass st → pipeline_set st = true →
  ∃ st', protocol (log (snd (drawRenderable pipeline ub pass view projection
                               r p)))
         = PassOpen enc pass st'
         ∧ pipeline_set st' = true.
Proof.
  intros Hs Hp. destruct st as [ps gs vs is_]. cbn in Hp. subst ps.
  unfold drawRenderable, createBindGroup. rewrite ?pbind_run.
  destruct (indexBuffer (mesh r)); rewrite ?pbind_run; simpl;
    rewrite !protocol_app, Hs; cbn [fold_left step on_pass];
    repeat (rewrite Nat.eqb_refl; cbn);
    eexists; split; reflexivity.
Qed.

Lemma drawRenderable_conforms pipeline ub pass view projection r p :
  Forall conforms (log p) →
  Forall conforms
    (log (snd (drawRenderable pipeline ub pass view projection r p))).
Proof.
  intros H.
  pose proof (uniformData_length (getTransform r) view projection) as Hlen.
  unfold uniformData in Hlen.
  unfold drawRenderable, createBindGroup. rewrite ?pbind_run.
  destruct (indexBuffer (mesh r)); rewrite ?pbind_run; simpl;
    rewrite ?Forall_app; repeat split; try exact H;
    repeat constructor; exact Hlen.
Qed.

Lemma forEach_protocol pipeline ub pass view projection l p enc st :
  protocol (log p) = PassOpen enc pass st → pipeline_set st = true →
  ∃ st', protocol (log (snd (forEach (drawRenderable pipeline ub pass view
                                        projection) l p)))
         = PassOpen enc pass st'
         ∧ pipeline_set st' = true.
Proof.
  revert p st. induction l as [|r l IH]; intros p st Hs Hp.
  - exists st. split; assumption.
  - cbn [forEach]. rewrite pbind_run.
    destruct (drawRenderable_protocol pipeline ub pass view projection r p
                enc st Hs Hp) as (st1 & Hs1 & Hp1).
    apply (IH _ st1 Hs1 Hp1).
Qed.

Lemma forEach_conforms pipeline ub pass view projection l p :
  Forall conforms (log p) →
  Forall conforms
    (log (snd (forEach (drawRenderable pipeline ub pass view projection)
                 l p))).
Proof.
  revert p. induction l as [|r l IH]; intros p H; [exact H|].
  cbn [forEach]. rewrite pbind_run. apply IH, drawRenderable_conforms, H.
Qed.

Import EngineFacts.

Lemma created_pipelines_app a b :
  created_pipelines (a ++ b) = created_pipelines a ++ created_pipelines b.
Proof. apply omap_app. Qed.

Lemma forEach_draw_pipelines pipeline ub pass view projection l p :
  created_pipelines
    (log (snd (forEach (drawRenderable pipeline ub pass view projection)
                 l p)))
  = created_pipelines (log p).
Proof.
  transitivity (created_pipelines (log p) ++ flat_map (λ _, []) l).
  - apply (observed_forEach _ _ (λ _, [])). intros r p0.
    unfold created_pipelines, drawRenderable, createBindGroup.
    rewrite ?pbind_run. destruct (indexBuffer (mesh r)); rewrite ?pbind_run;
      simpl; rewrite ?omap_app; simpl; rewrite <- ?app_assoc; reflexivity.
  - rewrite flat_map_nil, app_nil_r. reflexivity.
Qed.

Lemma cache_step_same e w e' w' d :
  Startup.same_identity e e' →
  pipelineManager e' = pipelineManager e →
  preferredCanvasFormat w' = preferredCanvasFormat w →
  callbacks w' = callbacks w →
  created_pipelines (log (gpu w')) = created_pipelines (log (gpu w)) →
  (d = true →
   is_Some (PipelineManager.pipelines (pipelineManager e) !! key_of w)) →
  cache_step e w e' w' d.
Proof.
  intros Hid Hpm Hfmt Hcb Hcp Hd. unfold cache_step. cbn zeta.
  rewrite Hpm, Hcb, Hcp.
  split; [exact Hid|]. split; [exact Hfmt|]. split; [reflexivity|].
  split; [reflexivity|]. split; [exact Hd|]. split; [reflexivity|].
  split; [reflexivity|]. split; [reflexivity|]. tauto.
Qed.

Lemma same_identity_trans e e1 e2 :
  Startup.same_identity e e1 → Startup.same_identity e1 e2 →
  Startup.same_identity e e2.
Proof.
  intros (A1 & B1 & C1 & D1) (A2 & B2 & C2 & D2).
  repeat split; congruence.
Qed.

Lemma cache_step_trans e w e1 w1 e2 w2 d1 d2 :
  cache_step e w e1 w1 d1 → cache_step e1 w1 e2 w2 d2 →
  cache_step e w e2 w2 (d1 || d2).
Proof.
  unfold cache_step, key_of. cbn zeta.
  intros (Hid1 & Hf1 & Ho1 & Hh1 & Hd1 & Hn1 & Hc1 & Hp1 & Hk1)
         (Hid2 & Hf2 & Ho2 & Hh2 & Hd2 & Hn2 & Hc2 & Hp2 & Hk2).
  rewrite Hf1 in Ho2, Hh2, Hd2.
  split; [eapply same_identity_trans; eassumption|].
  split; [congruence|].
  split; [intros k Hk; rewrite (Ho2 k Hk); apply Ho1, Hk|].
  split.
  { intros Hs. pose proof (Hh1 Hs) as E1.
    assert (pipelineManager e2 = pipelineManager e1) as E2
      by (apply Hh2; rewrite E1; exact Hs).
    congruence. }
  split.
  { intros Hd. apply orb_true_iff in Hd as [Hd|Hd].
    - pose proof (Hd1 Hd) as Hs. rewrite (Hh2 Hs). exact Hs.
    - apply Hd2, Hd. }
  split.
  { intros Hd. apply orb_false_iff in Hd as [Ha Hb].
    rewrite (Hn2 Hb). apply Hn1, Ha. }
  split; [lia|]. split; [lia|]. tauto.
Qed.

Lemma createDescriptor_format format p :
  fragment_target_format (fst (_createRenderPipelineDescriptor format p))
  = format.
Proof.
  unfold _createRenderPipelineDescriptor, createShaderModule.
  rewrite ?pbind_run. reflexivity.
Qed.

Lemma createDescriptor_conforms format p :
  let d := fst (_createRenderPipelineDescriptor format p) in
  desc_layout d = "auto" ∧ primitive_topology d = "triangle-list"
  ∧ primitive_cullMode d = "back" ∧ vertex_arrayStride d = 28.
Proof.
  unfold _createRenderPipelineDescriptor, createShaderModule.
  rewrite ?pbind_run. repeat split; reflexivity.
Qed.

Lemma pass_tail_more pipeline ub enc view vm pm l p0 :
  let pass := fst (beginRenderPass enc view p0) in
  let p1 :=
    snd (emit (EndPass pass)
           (snd (forEach (drawRenderable pipeline ub pass vm pm) l
                   (snd (emit (SetPipeline pass (pipeline_handle pipeline))
                           (snd (beginRenderPass enc view p0))))))) in
  created_pipelines (log p1) = created_pipelines (log p0)
  ∧ (protocol (log p0) = FrameOpen enc true →
     protocol (log p1) = FrameOpen enc true)
  ∧ (Forall conforms (log p0) → Forall conforms (log p1)).
Proof.
  cbn zeta. split; [|split].
  - rewrite emit_log, created_pipelines_app, forEach_draw_pipelines.
    rewrite emit_log, created_pipelines_app, beginRenderPass_log.
    rewrite created_pipelines_app. cbn. rewrite !app_nil_r. reflexivity.
  - intros Hs. rewrite emit_log, protocol_app.
    edestruct (forEach_protocol pipeline ub (fst (beginRenderPass enc view p0))
                 vm pm l) as (st' & Hst' & _); [| |rewrite Hst'].
    + rewrite emit_log, protocol_app, beginRenderPass_log, protocol_app, Hs.
      rewrite beginRenderPass_fst. cbn.
      repeat (rewrite Nat.eqb_refl; cbn). reflexivity.
    + reflexivity.
    + rewrite beginRenderPass_fst. cbn. rewrite Nat.eqb_refl. reflexivity.
  - intros H. rewrite emit_log. apply Forall_app. split; [|repeat constructor].
    apply forEach_conforms. rewrite emit_log. apply Forall_app.
    split; [|repeat constructor].
    rewrite beginRenderPass_log. apply Forall_app.
    split; [exact H|repeat constructor].
Qed.

Lemma same_identity_refl e : Startup.same_identity e e.
Proof. repeat split. Qed.

Ltac conform_new :=
  repeat match goal with
  | |- Forall conforms [] => constructor
  | |- Forall conforms (_ :: _) => constructor
  | |- conforms (CreateShaderModule _ vs_code) => left; reflexivity
  | |- conforms (CreateShaderModule _ fs_code) => right; reflexivity
  | |- conforms (CreateRenderPipeline _ _) => apply createDescriptor_conforms
  | |- conforms _ => cbn; repeat split; reflexivity
  end.

Ltac pre_log :=
  rewrite ?createBuffer_log, ?createRenderPipeline_log, ?createDescriptor_log.

Ltac with_pass_tail enc view :=
  match goal with
  | |- context [forEach (drawRenderable ?pl ?ub _ ?vm ?pm) ?l
                  (snd (emit _ (snd (beginRenderPass _ _ ?p0))))] =>
      let Hcp := fresh "Hcp" in
      let Hpr := fresh "Hpr" in
      let Hcf := fresh "Hcf" in
      destruct (pass_tail_more pl ub enc view vm pm l p0)
        as (Hcp & Hpr & Hcf);
      cbn zeta in Hcp, Hpr, Hcf;
      split;
      [ | split;
          [ let Hs := fresh "Hs" in
            intros Hs; apply Hpr; pre_log; rewrite ?protocol_app, Hs;
            reflexivity
          | let H := fresh "H" in
            intros H; apply Hcf; pre_log; rewrite ?Forall_app;
            repeat split; try exact H; conform_new ] ]
  end.

Lemma cache_step_miss e w e' w' format p :
  format = preferredCanvasFormat w →
  PipelineManager.pipelines (pipelineManager e) !! ("basic_" +:+ format)
  = None →
  Startup.same_identity e e' →
  PipelineManager.pipelines (pipelineManager e')
  = <["basic_" +:+ format := p]>
      (PipelineManager.pipelines (pipelineManager e)) →
  fragment_target_format (pipeline_descriptor p) = format →
  preferredCanvasFormat w' = preferredCanvasFormat w →
  callbacks w' = S (callbacks w) →
  length (created_pipelines (log (gpu w')))
  = S (length (created_pipelines (log (gpu w)))) →
  cache_step e w e' w' true.
Proof.
  intros Hformat Hmiss Hid Hpm Hfmt Hpref Hcb Hcp. subst format.
  unfold cache_step, key_of. cbn zeta. rewrite Hpm.
  split; [exact Hid|]. split; [exact Hpref|].
  split; [intros k Hk; apply lookup_insert_ne; congruence|].
  split; [rewrite Hmiss; intros [? ?]; discriminate|].
  split; [intros _; rewrite lookup_insert_eq; eauto|].
  split; [discriminate|].
  rewrite map_size_insert_None by exact Hmiss.
  split; [lia|]. split; [lia|].
  intros Hk k q Hq. unfold keyed_by_format in Hk.
  destruct (decide (k = "basic_" +:+ preferredCanvasFormat w)) as [->|Hne].
  - rewrite Hpm, lookup_insert_eq in Hq. injection Hq as <-.
    rewrite Hfmt. reflexivity.
  - rewrite Hpm, lookup_insert_ne in Hq by congruence. apply Hk, Hq.
Qed.

Lemma renderResolved_more camera enc view format e w :
  format = preferredCanvasFormat w →
  let r := renderResolved camera enc view format e w in
  cache_step e w (fst r) (snd r) true
  ∧ (protocol (log (gpu w)) = FrameOpen enc true →
     protocol (log (gpu (snd r))) = FrameOpen enc true)
  ∧ (Forall conforms (log (gpu w)) → Forall conforms (log (gpu (snd r)))).
Proof.
  intros Hformat r. subst r. unfold renderResolved.
  remember (_uniformBuffer e) as u eqn:Hu. symmetry in Hu.
  destruct (PipelineManager.pipelines (pipelineManager e)
              !! ("basic_" +:+ format)) eqn:Hp.
  - rewrite bind_run.
    rewrite (PipelineManagerFacts.getOrCreate_hit _ _ _ _ _ Hp).
    cbn [fst snd _uniformBuffer set_pipelineManager].
    rewrite Hu.
    destruct u as [b0|].
    + run_M. run_state. with_pass_tail enc view.
      apply cache_step_same;
        [repeat split | reflexivity | reflexivity | reflexivity
        | exact Hcp | intros _; unfold key_of; rewrite <- Hformat; eauto].
    + run_M. run_state. run_M. run_state. with_pass_tail enc view.
      apply cache_step_same;
        [repeat split | reflexivity | reflexivity | reflexivity
        | | intros _; unfold key_of; rewrite <- Hformat; eauto].
      cbn [gpu with_gpu]. rewrite Hcp. pre_log.
      rewrite created_pipelines_app. cbn. apply app_nil_r.
  - rewrite bind_run.
    rewrite (PipelineManagerFacts.getOrCreate_miss _ _ _ _ Hp).
    cbn zeta. cbn [fst snd _uniformBuffer set_pipelineManager].
    rewrite Hu.
    destruct u as [b0|].
    + run_M. run_state. with_pass_tail enc view.
      eapply (cache_step_miss _ _ _ _ format);
        [ exact Hformat | exact Hp | repeat split | reflexivity
        | apply createDescriptor_format | reflexivity | reflexivity | ].
      cbn [gpu with_gpu]. rewrite Hcp. pre_log.
      rewrite !created_pipelines_app, !length_app. cbn. lia.
    + run_M. run_state. run_M. run_state. with_pass_tail enc view.
      eapply (cache_step_miss _ _ _ _ format);
        [ exact Hformat | exact Hp | repeat split | reflexivity
        | apply createDescriptor_format | reflexivity | reflexivity | ].
      cbn [gpu with_gpu]. rewrite Hcp. pre_log.
      rewrite !created_pipelines_app, !length_app. cbn. lia.
Qed.

Ltac quiet_log :=
  cbn [gpu with_gpu fst snd]; rewrite ?emit_log;
  rewrite ?created_pipelines_app, ?protocol_app, ?Forall_app;
  cbn [created_pipelines omap list_omap fold_left step app];
  rewrite ?app_nil_r.

Ltac after_resolved w :=
  match goal with
  | |- context [renderResolved ?c ?en ?v ?f ?e0 ?w0] =>
      let Hstep := fresh "Hstep" in
      let Hpr := fresh "Hpr" in
      let Hcf := fresh "Hcf" in
      destruct (renderResolved_more c en v f e0 w0 eq_refl)
        as (Hstep & Hpr & Hcf);
      cbn zeta in Hstep, Hpr, Hcf;
      set (R := renderResolved c en v f e0 w0) in *; clearbody R;
      split;
      [ change true with (false || true);
        eapply cache_step_trans; [|exact Hstep];
        apply cache_step_same;
        [ repeat split | reflexivity | reflexivity | reflexivity
        | quiet_log; reflexivity | discriminate ]
      | split;
        [ let Hs := fresh "Hs" in
          intros Hs; apply Hpr; quiet_log; exact Hs
        | let H := fresh "H" in
          intros H; apply Hcf; quiet_log;
          repeat split; try exact H; conform_new ] ]
  end.

Lemma renderCamera_more camera enc e w :
  let r := renderCamera camera enc e w in
  cache_step e w (fst r) (snd r) (resolvable (canvasManager e) camera)
  ∧ (protocol (log (gpu w)) = FrameOpen enc true →
     protocol (log (gpu (snd r))) = FrameOpen enc true)
  ∧ (Forall conforms (log (gpu w)) → Forall conforms (log (gpu (snd r)))).
Proof.
  intros r. subst r. unfold renderCamera, resolvable, getContext.
  destruct (target camera) as [cid|tex tw th].
  - destruct (contexts (canvasManager e) !! cid) as [cc|] eqn:Hc.
    + rewrite bool_decide_eq_true_2 by eauto.
      destruct (isPerspective camera).
      * run_M. rewrite getPreferredCanvasFormat_run. run_M. run_state.
        after_resolved w.
      * run_M. rewrite getPreferredCanvasFormat_run. run_M. run_state.
        after_resolved w.
    + rewrite bool_decide_eq_false_2 by (intros [? ?]; congruence).
      run_M. run_state.
      split; [|split].
      * apply cache_step_same;
          [ repeat split | reflexivity | reflexivity | reflexivity
          | quiet_log; reflexivity | discriminate ].
      * intros Hs. quiet_log. exact Hs.
      * intros H. quiet_log. split; [exact H | conform_new].
  - run_M. rewrite getPreferredCanvasFormat_run. run_M. run_state.
    after_resolved w.
Qed.

Lemma forEachCamera_more cameras enc e w :
  let r := forEachCamera (λ camera e0, renderCamera camera enc e0)
             cameras e w in
  cache_step e w (fst r) (snd r)
    (existsb (resolvable (canvasManager e)) cameras)
  ∧ (protocol (log (gpu w)) = FrameOpen enc true →
     protocol (log (gpu (snd r))) = FrameOpen enc true)
  ∧ (Forall conforms (log (gpu w)) → Forall conforms (log (gpu (snd r)))).
Proof.
  revert e w. induction cameras as [|camera rest IH]; intros e w r; subst r.
  - cbn [forEachCamera existsb ret fst snd].
    split; [|split; intros H; exact H].
    apply cache_step_same; try reflexivity; [repeat split | discriminate].
  - cbn [forEachCamera existsb]. rewrite bind_run.
    destruct (renderCamera_more camera enc e w) as (Hstep & Hpr & Hcf).
    destruct (renderCamera_spec camera enc e w) as (_ & _ & Hcm & _).
    cbn zeta in Hstep, Hpr, Hcf, Hcm.
    set (R := renderCamera camera enc e w) in *. clearbody R.
    specialize (IH (fst R) (snd R)). cbn zeta in IH. rewrite Hcm in IH.
    destruct IH as (Hstep' & Hpr' & Hcf').
    split; [eapply cache_step_trans; eassumption|].
    split; intros H; [apply Hpr', Hpr, H | apply Hcf', Hcf, H].
Qed.

Lemma RenderLoop_more cameras e w :
  let r := RenderLoop cameras e w in
  cache_step e w (fst r) (snd r)
    (existsb (resolvable (canvasManager e)) cameras)
  ∧ (protocol (log (gpu w)) = Idle → protocol (log (gpu (snd r))) = Idle)
  ∧ (Forall conforms (log (gpu w)) → Forall conforms (log (gpu (snd r)))).
Proof.
  intros r. subst r.
  unfold RenderLoop, beginFrame, buildRenderStack, endFrame,
    createCommandEncoder, performance_now.
  run_M. run_state.
  match goal with
  | |- context [forEachCamera (λ camera e1, renderCamera camera ?enc e1)
                  ?cs ?e0 ?w0] =>
      destruct (forEachCamera_more cs enc e0 w0) as (Hstep & Hpr & Hcf);
      cbn zeta in Hstep, Hpr, Hcf;
      set (R := forEachCamera _ cs e0 w0) in *
  end.
  clearbody R.
  cbn [gpu with_gpu fst snd clock ticks preferredCanvasFormat callbacks
       canvasManager set_lastFrameTime alloc pret commandEncoder] in *.
  split; [|split].
  - rewrite <- (orb_false_r (existsb _ _)).
    change (existsb (resolvable (canvasManager e)) cameras)
      with (false || existsb (resolvable (canvasManager e)) cameras).
    eapply cache_step_trans; [eapply cache_step_trans|].
    2: exact Hstep.
    + apply cache_step_same;
        [ repeat split | reflexivity | reflexivity | reflexivity
        | quiet_log; reflexivity | discriminate ].
    + apply cache_step_same;
        [ repeat split | reflexivity | reflexivity | reflexivity
        | quiet_log; reflexivity | discriminate ].
  - intros Hs. rewrite !emit_log, !protocol_app, Hpr.
    + cbn. rewrite !Nat.eqb_refl. reflexivity.
    + rewrite !emit_log, !protocol_app. cbn [log]. rewrite Hs. reflexivity.
  - intros H. rewrite !emit_log, !Forall_app.
    split; [split|]; [|conform_new..].
    apply Hcf. rewrite !emit_log, !Forall_app. cbn [log].
    split; [split|]; [exact H|conform_new..].
Qed.

Lemma run_more frames e w :
  let r := run frames e w in
  cache_step e w (fst r) (snd r) (any_drawn frames)
  ∧ (protocol (log (gpu w)) = Idle → protocol (log (gpu (snd r))) = Idle)
  ∧ (Forall conforms (log (gpu w)) → Forall conforms (log (gpu (snd r)))).
Proof.
  revert e w. induction frames as [|[cm cameras] rest IH]; intros e w r;
    subst r.
  - cbn [run any_drawn existsb ret fst snd].
    split; [|split; intros H; exact H].
    apply cache_step_same; try reflexivity; [repeat split | discriminate].
  - cbn [run]. rewrite bind_run.
    destruct (RenderLoop_more cameras (set_canvasManager cm e) w)
      as (Hstep & Hpr & Hcf).
    cbn zeta in Hstep, Hpr, Hcf.
    cbn [canvasManager set_canvasManager] in Hstep.
    set (R := RenderLoop cameras (set_canvasManager cm e) w) in *.
    clearbody R.
    destruct (IH (fst R) (snd R)) as (Hstep' & Hpr' & Hcf').
    cbn zeta in Hstep', Hpr', Hcf'.
    split.
    { unfold any_drawn. cbn [existsb fst snd].
      eapply cache_step_trans; [exact Hstep | exact Hstep']. }
    split; intros H; [apply Hpr', Hpr, H | apply Hcf', Hcf, H].
Qed.

(** *** The recording protocol *)

(** X10.  A run of frames follows the recording protocol.  Starting with no
    frame open, the log of the run never leaves the allowed order and ends
    with no frame open: each frame creates its command encoder, advances
    the scene once before any render pass, opens render passes on that
    encoder one at a time, encodes the commands of a pass on the open pass
    only, draws only once pipeline, bind group and vertex buffer are set
    (and the index buffer, for an indexed draw), ends every pass, and
    finishes and then submits that encoder. *)
Theorem run_follows_recording_protocol
  (frames : list (CanvasManager * list ICamera)) (e : t) (w : World) :
  protocol (log (gpu w)) = Idle →
  let evs := log (gpu (snd (run frames e w))) in
  protocol evs = Idle ∧ ∀ n, protocol (take n evs) ≠ Broken.
Proof.
  intros Hidle evs.
  assert (protocol evs = Idle) as Hend
    by (apply (run_more frames e w), Hidle).
  split; [exact Hend|].
  intros n Hbroken.
  rewrite <- (take_drop n evs), protocol_app, Hbroken, step_Broken in Hend.
  discriminate.
Qed.

Lemma run_follows_recording_protocol_witness :
  let evs := log (gpu (snd (run [(Demo2.surfaces,
                                   [Demo2.cam_main; Demo.cam_a;
                                    Demo.cam_lost]);
                                  (Demo.no_surfaces, [Demo.cam_b])]
                             Demo.engine0 Demo.world0))) in
  protocol evs = Idle ∧ ∀ n, protocol (take n evs) ≠ Broken.
Proof.
  apply (run_follows_recording_protocol
           [(Demo2.surfaces, [Demo2.cam_main; Demo.cam_a; Demo.cam_lost]);
            (Demo.no_surfaces, [Demo.cam_b])]
           Demo.engine0 Demo.world0).
  reflexivity.
Defined.

(** *** The constants of the engine *)

(** X11.  A run adds to the log only calls with the fixed arguments of the
    engine: every render pass clears to (0.1, 0.1, 0.1, 1) and stores;
    every buffer created has 192 bytes and usage UNIFORM | COPY_DST; every
    buffer write starts at offset 0 and carries 48 numbers; bind groups are
    made for layout 0, binding 0, and set at index 0; vertex buffers go to
    slot 0; index buffers are read as uint16; shader modules hold the two
    shaders of the engine; pipelines use the auto layout, triangle lists,
    back-face culling and a vertex stride of 28 bytes. *)
Theorem run_keeps_engine_constants
  (frames : list (CanvasManager * list ICamera)) (e : t) (w : World) :
  Forall conforms (log (gpu w)) →
  Forall conforms (log (gpu (snd (run frames e w)))).
Proof. apply (run_more frames e w). Qed.

Lemma run_keeps_engine_constants_witness :
  Forall conforms
    (log (gpu (snd (run [(Demo2.surfaces, [Demo2.cam_main; Demo.cam_a])]
                      Demo.engine0 Demo.world0)))).
Proof.
  apply (run_keeps_engine_constants
           [(Demo2.surfaces, [Demo2.cam_main; Demo.cam_a])]
           Demo.engine0 Demo.world0).
  constructor.
Defined.

(** *** The pipeline cache of the engine *)

Lemma map_differs_at_one {A} (m m' : gmap string A) (k : string) (x : A) :
  (∀ j, j ≠ k → m' !! j = m !! j) → m' !! k = Some x → m' = <[k := x]> m.
Proof.
  intros Ho Hk. apply map_eq. intros j.
  destruct (decide (j = k)) as [->|Hne].
  - rewrite lookup_insert_eq. exact Hk.
  - rewrite lookup_insert_ne by congruence. apply Ho, Hne.
Qed.

(** X12.  A run compiles the pipeline of the engine at most once.  With
    the key of the preferred format cached at the start, or with no camera
    rendered, the builder never runs and no pipeline is created; otherwise
    the builder runs once and one pipeline is created, whatever the number
    of frames and cameras.  Entries under other keys are not touched, an
    entry under the key is kept, and once a camera is rendered the key is
    cached. *)
Theorem run_compiles_pipeline_at_most_once
  (frames : list (CanvasManager * list ICamera)) (e : t) (w : World) :
  let r := run frames e w in
  let pm := PipelineManager.pipelines (pipelineManager e) in
  let pm' := PipelineManager.pipelines (pipelineManager (fst r)) in
  let compiled :=
    match pm !! key_of w with
    | Some _ => 0%nat
    | None => if any_drawn frames then 1%nat else 0%nat
    end in
  compiled_during frames e w = compiled
  ∧ length (created_pipelines (log (gpu (snd r))))
    = (length (created_pipelines (log (gpu w))) + compiled)%nat
  ∧ (∀ k, k ≠ key_of w → pm' !! k = pm !! k)
  ∧ (∀ p, pm !! key_of w = Some p → pm' !! key_of w = Some p)
  ∧ (any_drawn frames = true → is_Some (pm' !! key_of w)).
Proof.
  intros r pm pm' compiled. subst r pm pm' compiled.
  unfold compiled_during.
  destruct (run_more frames e w)
    as ((_ & _ & Ho & Hh & Hd & Hn & Hc & Hp & _) & _ & _).
  cbn zeta in Ho, Hh, Hd, Hn, Hc, Hp.
  set (r := run frames e w) in *. clearbody r.
  assert (callbacks (snd r)
          = (callbacks w
             + match PipelineManager.pipelines (pipelineManager e)
                     !! key_of w with
               | Some _ => 0
               | None => if any_drawn frames then 1 else 0
               end)%nat
          ∧ length (created_pipelines (log (gpu (snd r))))
            = (length (created_pipelines (log (gpu w)))
               + match PipelineManager.pipelines (pipelineManager e)
                       !! key_of w with
                 | Some _ => 0
                 | None => if any_drawn frames then 1 else 0
                 end)%nat) as [Hcb Hcp].
  { destruct (PipelineManager.pipelines (pipelineManager e) !! key_of w)
      as [p|] eqn:Hk.
    - rewrite (Hh (ltac:(eauto))) in Hc, Hp. lia.
    - destruct (any_drawn frames) eqn:Hany.
      + destruct (Hd eq_refl) as [p Hp'].
        rewrite (map_differs_at_one _ _ _ _ Ho Hp') in Hc, Hp.
        rewrite map_size_insert_None in Hc, Hp by exact Hk. lia.
      + rewrite (Hn eq_refl) in Hc, Hp. lia. }
  split; [lia|]. split; [exact Hcp|]. split; [exact Ho|].
  split; [|exact Hd].
  intros p Hk. rewrite (Hh (ltac:(eauto))). exact Hk.
Qed.

(** X13.  The cache stays keyed by format: if every entry sits under the
    key ["basic_" + format] of the colour format its pipeline draws to, as
    in the empty cache of a new engine, the same holds after any run. *)
Theorem run_keeps_cache_keyed_by_format
  (frames : list (CanvasManager * list ICamera)) (e : t) (w : World) :
  keyed_by_format (pipelineManager e) →
  keyed_by_format (pipelineManager (fst (run frames e w))).
Proof.
  destruct (run_more frames e w) as ((_ & _ & _ & _ & _ & _ & _ & _ & Hk) & _).
  exact Hk.
Qed.

Lemma run_keeps_cache_keyed_by_format_witness :
  keyed_by_format
    (pipelineManager
       (fst (run [(Demo2.surfaces, [Demo2.cam_main; Demo.cam_a])]
               Demo.engine0 Demo.world0))).
Proof.
  apply (run_keeps_cache_keyed_by_format
           [(Demo2.surfaces, [Demo2.cam_main; Demo.cam_a])]
           Demo.engine0 Demo.world0).
  intros k p H. discriminate H.
Defined.

(** *** What the accessors answer *)

(** X14.  Whatever frames a newly constructed engine renders, [getDevice]
    and [getAdapter] answer the device and the adapter it was constructed
    with, the engine stays initialized, and [getContext] answers null: the
    engine never sets its context. *)
Theorem accessors_constant_over_run
  (adapter0 : nat) (device0 : GPUDevice)
  (frames : list (CanvasManager * list ICamera)) (w : World) :
  let e := fst (run frames (constructor adapter0 device0) w) in
  Startup.getDevice e = Some device0
  ∧ Startup.getAdapter e = Some adapter0
  ∧ Startup.getContext e = None
  ∧ _initialized e = true.
Proof.
  intros e. subst e.
  destruct (run_more frames (constructor adapter0 device0) w)
    as (((Hd & Ha & Hc & Hi) & _) & _).
  unfold Startup.getDevice, Startup.getAdapter, Startup.getContext.
  rewrite Hd, Ha, Hc, Hi. repeat split; reflexivity.
Qed.

(** *** Creation *)

(** X15.  [Create] rejects exactly when the platform fails it: with
    ["WebGPU not supported."] when [navigator.gpu] is missing, with
    ["Couldn't request WebGPU adapter."] when the adapter request resolves
    to null, and with the reason of the platform when the adapter request
    or the device request rejects.  It never resolves to an engine without
    both an adapter and a device. *)
Theorem Create_rejects_without_platform (nav : Startup.Navigator) :
  match Startup.Create nav with
  | Startup.Rejected reason =>
      (Startup.navigator_gpu nav = None ∧ reason = "WebGPU not supported.")
      ∨ ∃ g, Startup.navigator_gpu nav = Some g
          ∧ (Startup.requestAdapter g = Startup.Rejected reason
             ∨ (Startup.requestAdapter g = Startup.Fulfilled None
                ∧ reason = "Couldn't request WebGPU adapter.")
             ∨ ∃ a, Startup.requestAdapter g = Startup.Fulfilled (Some a)
                  ∧ Startup.requestDevice a = Startup.Rejected reason)
  | Startup.Fulfilled e =>
      ∃ g a, Startup.navigator_gpu nav = Some g
        ∧ Startup.requestAdapter g = Startup.Fulfilled (Some a)
        ∧ Startup.requestDevice a = Startup.Fulfilled (_device e)
        ∧ Startup.getAdapter e = Some (Startup.adapter_handle a)
  end.
Proof.
  unfold Startup.Create.
  destruct (Startup.navigator_gpu nav) as [g|]; [|left; split; reflexivity].
  destruct (Startup.requestAdapter g) as [[a|]|reason] eqn:Ha.
  - destruct (Startup.requestDevice a) as [d|reason] eqn:Hd.
    + exists g, a. split; [reflexivity|]. split; [exact Ha|].
      split; [exact Hd|reflexivity].
    + right. exists g. split; [reflexivity|].
      right. right. exists a. split; [exact Ha|exact Hd].
  - right. exists g. split; [reflexivity|]. right. left.
    split; [exact Ha|reflexivity].
  - right. exists g. split; [reflexivity|]. left. exact Ha.
Qed.

(** X16.  An engine [Create] resolves to starts fresh.  Its first frame has
    delta-time 0, whatever the clock reads; a run of frames compiles one
    pipeline if a camera is rendered and none otherwise; and after the run
    [getDevice] still answers the device the platform gave and
    [getContext] answers null. *)
Theorem created_engine_starts_fresh (nav : Startup.Navigator) (e : t)
  (frames : list (CanvasManager * list ICamera)) (w : World) :
  Startup.Create nav = Startup.Fulfilled e →
  frame_delta e w = 0%Q
  ∧ compiled_during frames e w = (if any_drawn frames then 1%nat else 0%nat)
  ∧ Startup.getDevice (fst (run frames e w)) = Some (_device e)
  ∧ Startup.getContext (fst (run frames e w)) = None.
Proof.
  intros Hc.
  assert (∃ a d, e = constructor a d) as (a & d & ->).
  { unfold Startup.Create in Hc.
    destruct (Startup.navigator_gpu nav) as [g|]; [|discriminate].
    destruct (Startup.requestAdapter g) as [[a|]|]; try discriminate.
    destruct (Startup.requestDevice a) as [d|]; [|discriminate].
    injection Hc as <-. eauto. }
  split; [reflexivity|].
  destruct (run_more frames (constructor a d) w)
    as (((Hd & _ & Hctx & _) & _ & Ho & _ & Hdr & Hn & Hcb & _) & _ & _).
  cbn zeta in Ho, Hdr, Hn, Hcb.
  unfold Startup.getDevice, Startup.getContext, compiled_during.
  rewrite Hd, Hctx. split; [|split; reflexivity].
  set (r := run frames (constructor a d) w) in *. clearbody r.
  destruct (any_drawn frames).
  - destruct (Hdr eq_refl) as [p Hp].
    assert (PipelineManager.pipelines (pipelineManager (fst r))
            = {[ key_of w := p ]}) as Hs.
    { apply map_eq. intros j. destruct (decide (j = key_of w)) as [->|Hne].
      - rewrite lookup_singleton_eq. exact Hp.
      - rewrite lookup_singleton_ne by congruence.
        rewrite (Ho j Hne). reflexivity. }
    rewrite Hs, map_size_singleton in Hcb.
    change (size (PipelineManager.pipelines
                    (pipelineManager (constructor a d)))) with 0%nat in Hcb.
    lia.
  - rewrite (Hn eq_refl) in Hcb. lia.
Qed.

Lemma created_engine_starts_fresh_witness :
  frame_delta (constructor 5%nat 6%nat) Demo.world0 = 0%Q
  ∧ compiled_during [(Demo2.surfaces, [Demo2.cam_main; Demo.cam_a])]
      (constructor 5%nat 6%nat) Demo.world0
    = 1%nat
  ∧ Startup.getDevice
      (fst (run [(Demo2.surfaces, [Demo2.cam_main; Demo.cam_a])]
              (constructor 5%nat 6%nat) Demo.world0))
    = Some 6%nat
  ∧ Startup.getContext
      (fst (run [(Demo2.surfaces, [Demo2.cam_main; Demo.cam_a])]
              (constructor 5%nat 6%nat) Demo.world0))
    = None.
Proof.
  apply (created_engine_starts_fresh Demo2.platform_ok (constructor 5%nat 6%nat)
           [(Demo2.surfaces, [Demo2.cam_main; Demo.cam_a])] Demo.world0).
  reflexivity.
Defined.

(** *** Observations that see nothing of a render pass *)

Section Quiet.
Context {O : Type} (obs : list Call → list O).
Hypothesis obs_app : ∀ a b, obs (a ++ b) = obs a ++ obs b.
Hypothesis obs_nil : obs [] = [].
Hypothesis obs_renderable :
  ∀ view projection r, obs (renderable_calls view projection r) = [].
Hypothesis obs_begin : ∀ view, obs [CBeginRenderPass view; CSetPipeline] = [].
Hypothesis obs_end : obs [CEndPass] = [].

Lemma quiet_pass view camera : obs (pass_calls view camera) = [].
Proof.
  unfold pass_calls. rewrite !obs_app, obs_begin, obs_end.
  rewrite (obs_flat_map obs obs_app obs_nil).
  rewrite (flat_map_all_nil _ _ (obs_renderable _ _)). reflexivity.
Qed.

Lemma quiet_tail l view camera : obs (l ++ pass_calls view camera) = obs l.
Proof. rewrite obs_app, quiet_pass. apply app_nil_r. Qed.

Lemma quiet_camera cm camera :
  obs (camera_calls cm camera) = obs (Outside.surface_calls cm camera).
Proof.
  unfold camera_calls, Outside.surface_calls.
  destruct (target camera) as [cid|tex tw th];
    [destruct (Engine.getContext cid cm) as [cc|];
     [destruct (isPerspective camera)|]|].
  - exact (quiet_tail
             [CGetCurrentTexture (CanvasContext.context cc);
              CUpdateAspect (cam_id camera) (Watch.aspect_of cc)] _ _).
  - exact (quiet_tail [CGetCurrentTexture (CanvasContext.context cc)] _ _).
  - reflexivity.
  - rewrite quiet_pass. symmetry. exact obs_nil.
Qed.

Lemma quiet_frame cm cameras w :
  obs (frame_calls cm cameras w)
  = obs [CCreateCommandEncoder; CSceneUpdate (update_delta w)]
    ++ flat_map (λ c, obs (Outside.surface_calls cm c)) cameras
    ++ obs [CFinish; CSubmit].
Proof.
  unfold frame_calls. rewrite !obs_app.
  rewrite (obs_flat_map obs obs_app obs_nil).
  rewrite (flat_map_ext_eq _ _ _ (quiet_camera cm)). reflexivity.
Qed.

End Quiet.

Lemma renderable_calls_cases view projection r :
  renderable_calls view projection r
  = [CWriteBuffer 0 (uniformData (getTransform r) view projection);
     CCreateBindGroup 0 0; CSetBindGroup 0;
     CSetVertexBuffer 0 (vertexBuffer (mesh r))]
    ++ draw_calls_of (mesh r).
Proof. reflexivity. Qed.


Lemma acquisitions_frame cm cameras w :
  Watch.acquisitions (frame_calls cm cameras w)
  = flat_map (PerCamera.acquisition_of cm) cameras.
Proof.
  unfold Watch.acquisitions.
  rewrite (quiet_frame _ (λ a b, omap_app _ a b) eq_refl).
  - cbn [omap list_omap app]. rewrite app_nil_r.
    apply flat_map_ext_eq. intros c.
    unfold Outside.surface_calls, PerCamera.acquisition_of,
      Watch.surface_of.
    destruct (target c) as [cid|]; [|reflexivity].
    destruct (Engine.getContext cid cm); [|reflexivity].
    destruct (isPerspective c); reflexivity.
  - intros view projection r. rewrite renderable_calls_cases.
    unfold draw_calls_of. destruct (indexBuffer (mesh r)); reflexivity.
  - reflexivity.
  - reflexivity.
Qed.



(** X18.  A frame acquires the current image of a surface once for every
    camera that draws to it, in camera order: two cameras on one canvas
    acquire it twice.  Nothing is acquired for an off-screen target or an
    unregistered surface. *)
Theorem frame_acquires_surface_per_camera
  (cameras : list ICamera) (e : t) (w : World) :
  Watch.acquisitions (frame_trace cameras e w)
  = flat_map (PerCamera.acquisition_of (canvasManager e)) cameras.
Proof. rewrite frame_trace_calls. apply acquisitions_frame. Qed.

(** *** The uniform data of a renderable *)

Lemma inserts_after (a src rest : list Double.t) :
  list_inserts (length a) src (a ++ rest) = a ++ list_inserts 0 src rest.
Proof.
  pose proof (list_inserts_app_r src a rest 0) as H.
  rewrite Nat.add_0_r in H. exact H.
Qed.

Lemma inserts_three (m v p : list Double.t) (z : Double.t) :
  length m = 16%nat → length v = 16%nat → length p = 16%nat →
  list_inserts 32 p (list_inserts 16 v (list_inserts 0 m (replicate 48 z)))
  = m ++ v ++ p.
Proof.
  intros Hm Hv Hp.
  change (replicate 48 z)
    with (replicate 16 z ++ replicate 16 z ++ replicate 16 z ++ []).
  rewrite (list_inserts_0_r m) by (rewrite length_replicate; exact Hm).
  pose proof (inserts_after m v (replicate 16 z ++ replicate 16 z ++ []))
    as H1.
  rewrite Hm in H1. rewrite H1. clear H1.
  rewrite (list_inserts_0_r v) by (rewrite length_replicate; exact Hv).
  rewrite (app_assoc m v).
  pose proof (inserts_after (m ++ v) p (replicate 16 z ++ [])) as H2.
  rewrite length_app, Hm, Hv in H2.
  change (16 + 16)%nat with 32%nat in H2. rewrite H2. clear H2.
  rewrite (list_inserts_0_r p) by (rewrite length_replicate; exact Hp).
  rewrite app_nil_r, <- app_assoc. reflexivity.
Qed.

Lemma uniformData_concat (model view projection : mat4) :
  length model = 16%nat → length view = 16%nat →
  length projection = 16%nat →
  uniformData model view projection
  = map Double.fround (model ++ view ++ projection).
Proof.
  intros Hm Hv Hp. rewrite !map_app.
  apply inserts_three; rewrite length_map; assumption.
Qed.

(** X19.  Drawing a renderable writes the uniform buffer once, at offset
    0, and the data are the model matrix of the renderable, the view
    matrix and the projection matrix of the camera, one after the other
    and each number rounded to a single as the [Float32Array] stores it,
    when each matrix has sixteen numbers: the product the code computes
    from them is not uploaded. *)
Theorem uniform_data_is_model_view_projection
  (pipeline : GPURenderPipeline) (ub : GPUBuffer) (pass : nat)
  (view projection : mat4) (r : Renderable) (p : Platform) :
  length (getTransform r) = 16%nat → length view = 16%nat →
  length projection = 16%nat →
  Watch.uniform_writes (renderable_trace pipeline ub pass view projection r p)
  = [(0, map Double.fround (getTransform r ++ view ++ projection))].
Proof.
  intros Hm Hv Hp.
  rewrite renderable_trace_calls, renderable_calls_cases.
  rewrite (uniformData_concat _ _ _ Hm Hv Hp).
  unfold draw_calls_of. destruct (indexBuffer (mesh r)); reflexivity.
Qed.

Lemma uniform_data_witness :
  Watch.uniform_writes
    (renderable_trace
       {| pipeline_handle := 0%nat;
          pipeline_descriptor :=
            fst (_createRenderPipelineDescriptor "bgra8unorm"
                   (gpu Demo.world0)) |}
       9%nat 1%nat mat4_create mat4_create Demo.quad (gpu Demo.world0))
  = [(0, map Double.fround
           (getTransform Demo.quad ++ mat4_create ++ mat4_create))].
Proof.
  apply (uniform_data_is_model_view_projection
           {| pipeline_handle := 0%nat;
              pipeline_descriptor :=
                fst (_createRenderPipelineDescriptor "bgra8unorm"
                       (gpu Demo.world0)) |}
           9%nat 1%nat mat4_create mat4_create Demo.quad
           (gpu Demo.world0)); reflexivity.
Defined.

(** A matrix entry 0.1, the double nearest to a tenth, is stored as the
    single nearest to it, 0.100000001490116...; 1 and 0 are stored as
    they are. *)
Example tenth_is_rounded_to_single :
  Double.strict_eq
    (Double.fround (3602879701896397 # 36028797018963968))
    (Double.of_number (13421773 # 134217728)) = true
  ∧ Double.strict_eq (Double.fround 1) (Double.of_Z 1) = true
  ∧ Double.strict_eq (Double.fround 0) (Double.of_Z 0) = true.
Proof. vm_compute. repeat split; reflexivity. Qed.

(** *** A frame in which no camera is rendered *)

Lemma unresolved_calls cm cameras :
  existsb (resolvable cm) cameras = false →
  flat_map (camera_calls cm) cameras = flat_map PerCamera.warning_of cameras.
Proof.
  induction cameras as [|c l IH]; [reflexivity|].
  cbn [existsb flat_map]. intros H.
  apply orb_false_iff in H as [Hres Hl]. rewrite (IH Hl). f_equal.
  revert Hres. unfold PerCamera.warning_of.
  by_camera_cases cm c; intros Hres; try discriminate Hres; reflexivity.
Qed.

(** X20.  A frame in which no camera has a target to draw to still runs
    to its end and allocates nothing.  It creates the command encoder,
    advances the scene, warns once for every camera, and finishes and
    submits the encoder; no pipeline is compiled or created, no buffer is
    created, and the pipeline cache and the uniform buffer of the engine
    are as before. *)
Theorem frame_without_target_allocates_nothing
  (cameras : list ICamera) (e : t) (w : World) :
  existsb (resolvable (canvasManager e)) cameras = false →
  let r := RenderLoop cameras e w in
  frame_trace cameras e w
  = [CCreateCommandEncoder; CSceneUpdate (update_delta w)]
    ++ flat_map PerCamera.warning_of cameras ++ [CFinish; CSubmit]
  ∧ pipelineManager (fst r) = pipelineManager e
  ∧ _uniformBuffer (fst r) = _uniformBuffer e
  ∧ callbacks (snd r) = callbacks w
  ∧ created_buffers (log (gpu (snd r))) = created_buffers (log (gpu w))
  ∧ length (created_pipelines (log (gpu (snd r))))
    = length (created_pipelines (log (gpu w))).
Proof.
  intros Hnone r. subst r.
  split.
  { rewrite frame_trace_calls. unfold frame_calls.
    rewrite (unresolved_calls _ _ Hnone). reflexivity. }
  destruct (RenderLoop_more cameras e w)
    as ((_ & _ & _ & _ & _ & Hn & Hcb & Hcp & _) & _ & _).
  destruct (RenderLoop_spec cameras e w)
    as (_ & (Hkeep & _ & _ & Hsome & Hnone' & Hwas) & _).
  cbn zeta in Hn, Hcb, Hcp, Hkeep, Hsome, Hnone', Hwas.
  rewrite Hnone in *.
  set (r := RenderLoop cameras e w) in *. clearbody r.
  specialize (Hn eq_refl). rewrite Hn in Hcb, Hcp.
  split; [exact Hn|].
  assert (_uniformBuffer (fst r) = _uniformBuffer e) as Hub.
  { destruct (_uniformBuffer e) as [b|] eqn:Hb; [apply Hkeep; reflexivity|].
    destruct (_uniformBuffer (fst r)) as [b'|] eqn:Hb'; [|reflexivity].
    destruct (Hwas (ltac:(eauto))) as [[? H]|H]; discriminate H. }
  split; [exact Hub|]. split; [lia|]. split; [|lia].
  destruct (_uniformBuffer (fst r)) as [b|] eqn:Hb.
  - destruct (Hsome b eq_refl) as [_ Hc]. rewrite Hc.
    rewrite <- Hub. apply app_nil_r.
  - apply (Hnone' eq_refl).
Qed.

Lemma frame_without_target_witness :
  let r := RenderLoop [Demo.cam_lost; Demo.cam_lost] Demo.engine0
             Demo.world0 in
  frame_trace [Demo.cam_lost; Demo.cam_lost] Demo.engine0 Demo.world0
  = [CCreateCommandEncoder; CSceneUpdate (update_delta Demo.world0)]
    ++ flat_map PerCamera.warning_of [Demo.cam_lost; Demo.cam_lost]
    ++ [CFinish; CSubmit]
  ∧ pipelineManager (fst r) = pipelineManager Demo.engine0
  ∧ _uniformBuffer (fst r) = _uniformBuffer Demo.engine0
  ∧ callbacks (snd r) = callbacks Demo.world0
  ∧ created_buffers (log (gpu (snd r)))
    = created_buffers (log (gpu Demo.world0))
  ∧ length (created_pipelines (log (gpu (snd r))))
    = length (created_pipelines (log (gpu Demo.world0))).
Proof.
  apply (frame_without_target_allocates_nothing
           [Demo.cam_lost; Demo.cam_lost] Demo.engine0 Demo.world0).
  reflexivity.
Defined.

(** *** One encoder, one scene update and one submission per frame *)

Lemma encoders_app a b :
  Count.encoders (a ++ b) = (Count.encoders a + Count.encoders b)%nat.
Proof. unfold Count.encoders. rewrite filter_app. apply length_app. Qed.

Lemma submissions_app a b :
  Count.submissions (a ++ b)
  = (Count.submissions a + Count.submissions b)%nat.
Proof. unfold Count.submissions. rewrite filter_app. apply length_app. Qed.

Lemma surface_calls_cases {A} cm camera (f : list Call → A) :
  (∀ m, f [CWarn m] = f []) →
  (∀ ctx, f [CGetCurrentTexture ctx] = f []) →
  (∀ ctx c a, f [CGetCurrentTexture ctx; CUpdateAspect c a] = f []) →
  f (Outside.surface_calls cm camera) = f [].
Proof.
  intros Hw Hg Hu. unfold Outside.surface_calls.
  destruct (target camera) as [cid|]; [|reflexivity].
  destruct (Engine.getContext cid cm); [|apply Hw].
  destruct (isPerspective camera); [apply Hu|apply Hg].
Qed.

Lemma encoders_frame cm cameras w :
  Count.encoders (frame_calls cm cameras w) = 1%nat.
Proof.
  unfold Count.encoders.
  rewrite (quiet_frame (filter (λ c, Count.is_encoder c))
             (λ a b, filter_app _ a b) eq_refl).
  - rewrite flat_map_all_nil; [reflexivity|].
    intros c. apply (surface_calls_cases cm c); reflexivity.
  - intros view projection r. rewrite renderable_calls_cases.
    unfold draw_calls_of. destruct (indexBuffer (mesh r)); reflexivity.
  - reflexivity.
  - reflexivity.
Qed.

Lemma submissions_frame cm cameras w :
  Count.submissions (frame_calls cm cameras w) = 1%nat.
Proof.
  unfold Count.submissions.
  rewrite (quiet_frame (filter (λ c, Count.is_submit c))
             (λ a b, filter_app _ a b) eq_refl).
  - rewrite flat_map_all_nil; [reflexivity|].
    intros c. apply (surface_calls_cases cm c); reflexivity.
  - intros view projection r. rewrite renderable_calls_cases.
    unfold draw_calls_of. destruct (indexBuffer (mesh r)); reflexivity.
  - reflexivity.
  - reflexivity.
Qed.

(** X21.  Over a run, the command encoders created, the scene updates and
    the submissions each number as many as the frames, however many cameras
    a frame has and whether they are rendered or skipped. *)
Theorem run_one_encoder_update_submit_per_frame
  (frames : list (CanvasManager * list ICamera)) (e : t) (w : World) :
  Count.encoders (run_trace frames e w) = length frames
  ∧ length (scene_updates (run_trace frames e w)) = length frames
  ∧ Count.submissions (run_trace frames e w) = length frames.
Proof.
  rewrite run_trace_calls. clear e. revert w.
  induction frames as [|[cm cameras] rest IH]; intros w;
    [repeat split; reflexivity|].
  destruct (IH (after_frame w)) as (He & Hu & Hs).
  cbn [run_calls length].
  rewrite encoders_app, submissions_app, scene_updates_app, length_app.
  rewrite encoders_frame, submissions_frame, scene_updates_frame.
  rewrite He, Hu, Hs. repeat split; reflexivity.
Qed.

(** *** The delta-time of the next frame *)


(** *** [getCanvas] and the cameras of a frame *)

Lemma map_is_fmap {A B} (f : A → B) (l : list A) : map f l = f <$> l.
Proof. induction l as [|x l IH]; [reflexivity|]. cbn. rewrite IH. reflexivity. Qed.

(** X23.  In a frame with a camera that targets the canvas of a non-empty
    id, [getCanvas] answers null for the id exactly when the frame warns
    that the context of this canvas was not found. *)
Theorem getCanvas_null_iff_frame_warns
  (id : string) (camera : ICamera) (cameras : list ICamera)
  (e : t) (w : World) :
  camera ∈ cameras → target camera = canvas id → id ≠ "" →
  Startup.getCanvas (Some id) e = None
  ↔ Skipped ("Canvas context not found: " +:+ id)
      ∈ visits (frame_trace cameras e w).
Proof.
  intros Hin Ht Hid.
  rewrite frame_trace_calls, visits_frame, map_is_fmap, list_elem_of_fmap.
  unfold Startup.getCanvas. rewrite decide_False by exact Hid.
  destruct (Engine.getContext id (canvasManager e)) as [cc|] eqn:Hctx.
  - split; [discriminate|].
    intros (c' & Hv & _). exfalso. unfold visit_of in Hv.
    destruct (target c') as [id'|]; [|discriminate].
    destruct (Engine.getContext id' (canvasManager e)) eqn:Hctx';
      [discriminate|].
    injection Hv as Hv. apply (inj _) in Hv. subst id'. congruence.
  - split; [|reflexivity]. intros _. exists camera. split; [|exact Hin].
    unfold visit_of. rewrite Ht, Hctx. reflexivity.
Qed.

Lemma getCanvas_null_witness :
  Startup.getCanvas (Some "main") Demo.engine0 = None
  ↔ Skipped ("Canvas context not found: " +:+ "main")
      ∈ visits (frame_trace [Demo.cam_a; Demo.cam_lost] Demo.engine0
                  Demo.world0).
Proof.
  apply (getCanvas_null_iff_frame_warns "main" Demo.cam_lost
           [Demo.cam_a; Demo.cam_lost] Demo.engine0 Demo.world0).
  - apply list_elem_of_further, list_elem_of_here.
  - reflexivity.
  - discriminate.
Defined.

(** *** From the layout to the aspect ratio *)



End EngineMore.
